(** * SSRGAN: the video tester of [tester.py], the networks and the loss

    A shallow embedding of class [Video] ([__init__] and [run]) together with
    the library operations it calls (torchvision [Pad], [FiveCrop], [Resize];
    numpy [concatenate]; Python's float division and [int]), and the
    properties of the frame geometry, the compositor and the processing loop.
    Besides: the generators and the discriminator of [models/srgan.py],
    [models/vgg.py] and [ssrgan_pytorch/models/u_net.py] as functions on
    tensor sizes, and the total variation loss of [loss.py].

    Conventions.
    - A frame (numpy array of shape rows x columns x channels, or the PIL
      image made from it) is a list of rows, each row a list of pixels.  The
      pixel type is a parameter; [black] is the fill value 0 of [Pad].
    - Python integers are [Z]; [//] is [Z.div] (floor division).
    - Python floats are IEEE binary64, taken from the Standard Library's
      executable specification [SpecFloat] with [prec = 53], [emax = 1024].
    - A Python exception is the [Err] branch of [result] ([None] for the
      networks, which raise nothing but RuntimeError). *)

From Stdlib Require Import String Ascii DecimalString.
From Stdlib Require Import ZArith List Lia Bool Arith.
From Stdlib Require Import Floats.SpecFloat.
Import ListNotations.

Set Implicit Arguments.

(* ===================================================================== *)
(** * Exceptions as results *)
(* ===================================================================== *)

Inductive exn : Type :=
| ValueError
| ZeroDivisionError
| OverflowError.

(** What [Video.run] does to the outside world, in program order. *)
Inductive resource : Type := Source | SrSink | CompareSink.

Inductive event : Type :=
| EvRead                      (* video_capture.read() *)
| EvModel                     (* model(lr) *)
| EvWriteSr                   (* sr_writer.write(sr) *)
| EvWriteCompare              (* compare_writer.write(final_image) *)
| EvImshow                    (* cv2.imshow(...) *)
| EvWaitKey                   (* cv2.waitKey(1) *)
| EvRelease (r : resource).   (* .release() on a capture or a writer *)

Inductive result (A : Type) : Type :=
| Ok (a : A)
| Err (e : exn).

Arguments Ok {A} a.
Arguments Err {A} e.

Definition bind {A B : Type} (r : result A) (k : A -> result B) : result B :=
  match r with
  | Ok a => k a
  | Err e => Err e
  end.

Notation "x <- e ;; k" := (bind e (fun x => k))
  (at level 61, e at next level, right associativity).

(* ===================================================================== *)
(** * Python floats: [a / b * c] and [int(...)] *)
(* ===================================================================== *)

Module PyFloat.

Definition prec : Z := 53.
Definition emax : Z := 1024.

(** [float(n)] for a Python integer (exact below 2^53). *)
Definition of_int (n : Z) : spec_float := binary_normalize prec emax n 0 false.

(** [a / b] on two Python integers: true division. *)
Definition truediv (a b : Z) : result spec_float :=
  if (b =? 0)%Z then Err ZeroDivisionError
  else Ok (SFdiv prec emax (of_int a) (of_int b)).

(** [x * c] with [x] a float and [c] an integer. *)
Definition mul_int (x : spec_float) (c : Z) : spec_float :=
  SFmul prec emax x (of_int c).

(** [int(x)]: truncation toward zero. *)
Definition to_int (x : spec_float) : result Z :=
  match x with
  | S754_zero _ => Ok 0%Z
  | S754_infinity _ => Err OverflowError
  | S754_nan => Err ValueError
  | S754_finite s m e =>
      let a := match e with
               | Z0 => Zpos m
               | Zpos _ => Z.shiftl (Zpos m) e
               | Zneg p => Z.shiftr (Zpos m) (Zpos p)
               end in
      Ok (if s then (- a)%Z else a)
  end.

End PyFloat.

(* ===================================================================== *)
(** * Frames and the image operations of torchvision, PIL and numpy *)
(* ===================================================================== *)

Section Images.

Variable pixel : Type.
Variable black : pixel.

Definition image : Type := list (list pixel).

(** [img.shape[0]] / PIL [height], [img.shape[1]] / PIL [width]. *)
Definition rows (img : image) : nat := length img.
Definition cols (img : image) : nat := length (hd [] img).

Definition shape0 (img : image) : Z := Z.of_nat (rows img).
Definition shape1 (img : image) : Z := Z.of_nat (cols img).

(** A well-formed frame with [h] rows of [w] pixels. *)
Definition rect (h w : nat) (img : image) : Prop :=
  length img = h /\ Forall (fun r => length r = w) img.

(** Pixel at row [y], column [x]. *)
Definition pix (img : image) (y x : nat) : option pixel :=
  match nth_error img y with
  | Some r => nth_error r x
  | None => None
  end.

(** [transforms.Pad(padding=(left, top, right, bottom))], fill 0. *)
Definition Pad (left top right bottom : nat) (img : image) : image :=
  let w := left + cols img + right in
  repeat (repeat black w) top
    ++ map (fun r => repeat black left ++ r ++ repeat black right) img
    ++ repeat (repeat black w) bottom.

(** [F.crop(img, top, left, height, width)], that is PIL
    [img.crop((left, top, left + width, top + height))]; a negative extent
    gives the empty image. *)
Definition crop (top left height width : Z) (img : image) : image :=
  map (fun r => firstn (Z.to_nat width) (skipn (Z.to_nat left) r))
      (firstn (Z.to_nat height) (skipn (Z.to_nat top) img)).

(** [int(round(d / 2.))]: Python 3 rounds halves to the even neighbour. *)
Definition round_half (d : Z) : Z :=
  let h := (d / 2)%Z in
  if Z.even d then h else if Z.even h then h else (h + 1)%Z.

(** [F.center_crop(img, (size, size))]. *)
Definition center_crop (size : Z) (img : image) : image :=
  let crop_top := round_half (shape0 img - size) in
  let crop_left := round_half (shape1 img - size) in
  crop crop_top crop_left size size img.

(** [transforms.FiveCrop(size)(img)]: top left, top right, bottom left,
    bottom right, centre. *)
Definition FiveCrop (size : Z) (img : image) : result (list image) :=
  let image_width := shape1 img in
  let image_height := shape0 img in
  if ((size >? image_width) || (size >? image_height))%Z then Err ValueError
  else
    let tl := crop 0 0 size size img in
    let tr := crop 0 (image_width - size) size size img in
    let bl := crop (image_height - size) 0 size size img in
    let br := crop (image_height - size) (image_width - size) size size img in
    let center := center_crop size img in
    Ok [tl; tr; bl; br; center].

(** Two arrays side by side (equal row counts are checked by the caller). *)
Definition hstack2 (a b : image) : image :=
  map (fun rr => fst rr ++ snd rr) (combine a b).

(** [np.concatenate(imgs, axis=1)]. *)
Definition concatenate_axis1 (imgs : list image) : result image :=
  match imgs with
  | [] => Err ValueError
  | a :: rest =>
      if forallb (fun b => rows b =? rows a) rest
      then Ok (fold_left hstack2 rest a)
      else Err ValueError
  end.

(** [np.concatenate(imgs)] (axis 0). *)
Definition concatenate_axis0 (imgs : list image) : result image :=
  match imgs with
  | [] => Err ValueError
  | a :: rest =>
      if forallb (fun b => cols b =? cols a) rest
      then Ok (concat imgs)
      else Err ValueError
  end.

End Images.

Arguments rect {pixel} h w img.
Arguments pix {pixel} img y x.

(* ===================================================================== *)
(** * Strings: [os.path.basename], f-string integers, [VideoWriter_fourcc] *)
(* ===================================================================== *)

(** [os.path.basename(p)]: what follows the last slash. *)
Fixpoint basename_from (acc p : string) : string :=
  match p with
  | EmptyString => acc
  | String c rest =>
      if Ascii.eqb c "/"%char then basename_from EmptyString rest
      else basename_from (acc ++ String c EmptyString)%string rest
  end.

Definition basename (p : string) : string := basename_from EmptyString p.

(** [f"{n}"] for an integer. *)
Definition str_of_int (n : Z) : string := NilZero.string_of_int (Z.to_int n).

(** [cv2.VideoWriter_fourcc(c1, c2, c3, c4)]. *)
Definition ord (c : ascii) : Z := Z.of_nat (nat_of_ascii c).

Definition VideoWriter_fourcc (c1 c2 c3 c4 : ascii) : Z :=
  Z.lor (Z.lor (ord c1) (Z.shiftl (ord c2) 8))
        (Z.lor (Z.shiftl (ord c3) 16) (Z.shiftl (ord c4) 24)).

(* ===================================================================== *)
(** * The video objects of OpenCV *)
(* ===================================================================== *)

Section Pipeline.

Variable pixel : Type.
Variable black : pixel.

Local Abbreviation image := (image pixel).

(** What a decodable file holds: the container's metadata and its frames. *)
Record video_file : Type := {
  vf_fps : spec_float;
  vf_frame_count : Z;
  vf_frame_width : Z;
  vf_frame_height : Z;
  vf_frames : list image
}.

(** [cv2.VideoCapture]: the properties it reports and the frames it has
    still to deliver. *)
Record VideoCapture : Type := {
  CAP_PROP_FPS : spec_float;
  CAP_PROP_FRAME_COUNT : Z;
  CAP_PROP_FRAME_WIDTH : Z;
  CAP_PROP_FRAME_HEIGHT : Z;
  cap_pending : list image
}.

(** A capture that could not be opened answers 0 to every [get] and
    [(False, None)] to every [read]; the constructor does not raise. *)
Definition unopened : VideoCapture :=
  {| CAP_PROP_FPS := S754_zero false;
     CAP_PROP_FRAME_COUNT := 0;
     CAP_PROP_FRAME_WIDTH := 0;
     CAP_PROP_FRAME_HEIGHT := 0;
     cap_pending := [] |}.

(** [cv2.VideoCapture(path)] over a file system [disk]. *)
Definition VideoCapture_open (disk : string -> option video_file)
           (path : string) : VideoCapture :=
  match disk path with
  | None => unopened
  | Some f =>
      {| CAP_PROP_FPS := vf_fps f;
         CAP_PROP_FRAME_COUNT := vf_frame_count f;
         CAP_PROP_FRAME_WIDTH := vf_frame_width f;
         CAP_PROP_FRAME_HEIGHT := vf_frame_height f;
         cap_pending := vf_frames f |}
  end.

(** [video_capture.read()] and the advanced capture.  OpenCV returns
    [(True, frame)] or [(False, None)]: the pair [(success, raw_frame)] is
    [Some raw_frame] when [success] holds and [None] otherwise. *)
Definition read (cap : VideoCapture) : option image * VideoCapture :=
  match cap_pending cap with
  | [] => (None, cap)
  | f :: rest =>
      (Some f,
       {| CAP_PROP_FPS := CAP_PROP_FPS cap;
          CAP_PROP_FRAME_COUNT := CAP_PROP_FRAME_COUNT cap;
          CAP_PROP_FRAME_WIDTH := CAP_PROP_FRAME_WIDTH cap;
          CAP_PROP_FRAME_HEIGHT := CAP_PROP_FRAME_HEIGHT cap;
          cap_pending := rest |})
  end.

(** [cv2.VideoWriter(filename, fourcc, fps, frameSize)] and the frames
    appended to it so far. *)
Record VideoWriter : Type := {
  vw_filename : string;
  vw_fourcc : Z;
  vw_fps : spec_float;
  vw_frameSize : Z * Z;
  vw_frames : list image
}.

Definition write (w : VideoWriter) (frame : image) : VideoWriter :=
  {| vw_filename := vw_filename w;
     vw_fourcc := vw_fourcc w;
     vw_fps := vw_fps w;
     vw_frameSize := vw_frameSize w;
     vw_frames := vw_frames w ++ [frame] |}.

(* =================================================================== *)
(** * [Video.__init__] *)
(* =================================================================== *)

(** The attributes of [args] that [Video] reads. *)
Record Args : Type := {
  file : string;
  upscale_factor : Z;
  scale_factor : Z;
  view : bool
}.

Record Video : Type := {
  args : Args;
  video_capture : VideoCapture;
  fps : spec_float;
  total_frames : Z;
  size : Z * Z;
  sr_size : Z * Z;
  pare_size : Z * Z;
  sr_writer : VideoWriter;
  compare_writer : VideoWriter
}.

Definition Video_init (disk : string -> option video_file) (a : Args) : Video :=
  let video_capture := VideoCapture_open disk (file a) in
  let fps := CAP_PROP_FPS video_capture in
  let total_frames := CAP_PROP_FRAME_COUNT video_capture in
  let size := (CAP_PROP_FRAME_WIDTH video_capture,
               CAP_PROP_FRAME_HEIGHT video_capture) in
  let sr_size := (fst size * upscale_factor a, snd size * upscale_factor a)%Z in
  let pare_size := (fst sr_size * 2 + 10,
                    snd sr_size + 10 + fst sr_size / 5 - 9)%Z in
  let sr_writer :=
    {| vw_filename := ("sr_" ++ str_of_int (scale_factor a) ++ "x_"
                             ++ basename (file a))%string;
       vw_fourcc := VideoWriter_fourcc "M" "P" "E" "G";
       vw_fps := fps;
       vw_frameSize := sr_size;
       vw_frames := [] |} in
  let compare_writer :=
    {| vw_filename := ("compare_" ++ str_of_int (scale_factor a) ++ "x_"
                                  ++ basename (file a))%string;
       vw_fourcc := VideoWriter_fourcc "M" "P" "E" "G";
       vw_fps := fps;
       vw_frameSize := pare_size;
       vw_frames := [] |} in
  {| args := a;
     video_capture := video_capture;
     fps := fps;
     total_frames := total_frames;
     size := size;
     sr_size := sr_size;
     pare_size := pare_size;
     sr_writer := sr_writer;
     compare_writer := compare_writer |}.

(* =================================================================== *)
(** * The compositor: lines 161-184 of [Video.run] *)
(* =================================================================== *)

(** The network with its pre- and post-processing (lines 147-156): from the
    raw frame to the uint8 array [sr] that is written to [sr_writer]. *)
Variable model : image -> image.

(** PIL's resampling kernels, at a positive target size (rows, columns). *)
Variable bicubic : nat -> nat -> image -> image.
Variable bilinear : nat -> nat -> image -> image.

(** [transforms.Resize((h, w), interpolation)(img)]; PIL refuses a target
    that is not positive. *)
Definition Resize (kernel : nat -> nat -> image -> image) (h w : Z)
           (img : image) : result image :=
  if ((h <=? 0) || (w <=? 0))%Z then Err ValueError
  else Ok (kernel (Z.to_nat h) (Z.to_nat w) img).

(** The crop tile side, [width // 5 - 9]. *)
Definition crop_tile_size (width : Z) : Z := (width / 5 - 9)%Z.

(** [int(top_img.shape[1] / bottom_img.shape[1] * bottom_img.shape[0])]. *)
Definition scaled_height (top_w bottom_w bottom_h : Z) : result Z :=
  ratio <- PyFloat.truediv top_w bottom_w ;;
  PyFloat.to_int (PyFloat.mul_int ratio bottom_h).

(** Lines 161-177: the two strips, [(top_img, bottom_img)], the bottom one
    before it is resized. *)
Definition strips (sr_size : Z * Z) (raw_frame sr : image)
  : result (image * image) :=
  crop_sr_imgs <- FiveCrop (crop_tile_size (shape1 sr)) sr ;;
  let crop_sr_imgs := map (Pad black 10 5 0 0) crop_sr_imgs in
  let sr := Pad black 5 0 0 5 sr in
  compare_img <- Resize bicubic (snd sr_size) (fst sr_size) raw_frame ;;
  crop_compare_imgs <- FiveCrop (crop_tile_size (shape1 compare_img)) compare_img ;;
  let crop_compare_imgs := map (Pad black 0 5 10 0) crop_compare_imgs in
  let compare_img := Pad black 0 0 5 5 compare_img in
  top_img <- concatenate_axis1 [compare_img; sr] ;;
  bottom_img <- concatenate_axis1 (crop_compare_imgs ++ crop_sr_imgs) ;;
  Ok (top_img, bottom_img).

(** Lines 178-184: resize the bottom strip and put it under the top one. *)
Definition stack_strips (top_img bottom_img : image) : result image :=
  bottom_img_height <- scaled_height (shape1 top_img) (shape1 bottom_img)
                                     (shape0 bottom_img) ;;
  let bottom_img_width := shape1 top_img in
  bottom_img <- Resize bilinear bottom_img_height bottom_img_width bottom_img ;;
  concatenate_axis0 [top_img; bottom_img].

Definition final_image (sr_size : Z * Z) (raw_frame sr : image) : result image :=
  tb <- strips sr_size raw_frame sr ;;
  stack_strips (fst tb) (snd tb).

(* =================================================================== *)
(** * [Video.run] *)
(* =================================================================== *)

(** The mutable world of one run: the capture, the two writers, the keys
    that [cv2.waitKey] will report, and the log of what was done. *)
Record run_state : Type := {
  rs_capture : VideoCapture;
  rs_sr_writer : VideoWriter;
  rs_compare_writer : VideoWriter;
  rs_keys : list Z;
  rs_log : list event
}.

Definition log (e : event) (st : run_state) : run_state :=
  {| rs_capture := rs_capture st;
     rs_sr_writer := rs_sr_writer st;
     rs_compare_writer := rs_compare_writer st;
     rs_keys := rs_keys st;
     rs_log := rs_log st ++ [e] |}.

Definition do_read (st : run_state) : option image * run_state :=
  let (frame, cap) := read (rs_capture st) in
  (frame,
   {| rs_capture := cap;
      rs_sr_writer := rs_sr_writer st;
      rs_compare_writer := rs_compare_writer st;
      rs_keys := rs_keys st;
      rs_log := rs_log st ++ [EvRead] |}).

Definition do_write_sr (frame : image) (st : run_state) : run_state :=
  {| rs_capture := rs_capture st;
     rs_sr_writer := write (rs_sr_writer st) frame;
     rs_compare_writer := rs_compare_writer st;
     rs_keys := rs_keys st;
     rs_log := rs_log st ++ [EvWriteSr] |}.

Definition do_write_compare (frame : image) (st : run_state) : run_state :=
  {| rs_capture := rs_capture st;
     rs_sr_writer := rs_sr_writer st;
     rs_compare_writer := write (rs_compare_writer st) frame;
     rs_keys := rs_keys st;
     rs_log := rs_log st ++ [EvWriteCompare] |}.

(** [cv2.waitKey(1)]: the next key, or -1 when none is pending. *)
Definition do_waitKey (st : run_state) : Z * run_state :=
  let st' keys :=
    {| rs_capture := rs_capture st;
       rs_sr_writer := rs_sr_writer st;
       rs_compare_writer := rs_compare_writer st;
       rs_keys := keys;
       rs_log := rs_log st ++ [EvWaitKey] |} in
  match rs_keys st with
  | [] => ((-1)%Z, st' [])
  | k :: keys => (k, st' keys)
  end.

(** How one pass through the body of the [for] loop ends. *)
Inductive flow : Type :=
| Continue (raw_frame : option image) (st : run_state)
| Break (st : run_state)
| Raise (e : exn) (st : run_state).

(** The body of the loop (lines 146-196). *)
Definition iteration (v : Video) (raw_frame : option image) (st : run_state)
  : flow :=
  match raw_frame with
  | None => Continue raw_frame st
  | Some raw =>
      let sr := model raw in
      let st := log EvModel st in
      let st := do_write_sr sr st in
      match final_image (sr_size v) raw sr with
      | Err e => Raise e st
      | Ok final =>
          let st := do_write_compare final st in
          if view (args v) then
            let st := log EvImshow st in
            let (key, st) := do_waitKey st in
            if (Z.land key 255 =? ord "q")%Z then Break st
            else let (next, st) := do_read st in Continue next st
          else
            let (next, st) := do_read st in Continue next st
      end
  end.

(** How [run] ends: it returns, or an exception leaves it. *)
Inductive outcome : Type :=
| Returned (st : run_state)
| Raised (e : exn) (st : run_state).

Definition final_state (o : outcome) : run_state :=
  match o with
  | Returned st => st
  | Raised _ st => st
  end.

(** [for _ in range(n)]. *)
Fixpoint loop (v : Video) (n : nat) (raw_frame : option image)
         (st : run_state) : outcome :=
  match n with
  | O => Returned st
  | S n' =>
      match iteration v raw_frame st with
      | Continue raw_frame st => loop v n' raw_frame st
      | Break st => Returned st
      | Raise e st => Raised e st
      end
  end.

(** The state in which [run] starts: what [__init__] stored in [self]. *)
Definition start (v : Video) (keys : list Z) : run_state :=
  {| rs_capture := video_capture v;
     rs_sr_writer := sr_writer v;
     rs_compare_writer := compare_writer v;
     rs_keys := keys;
     rs_log := [] |}.

Definition Video_run (v : Video) (keys : list Z) : outcome :=
  let (raw_frame, st) := do_read (start v keys) in
  loop v (Z.to_nat (total_frames v)) raw_frame st.

(* =================================================================== *)
(** * Observations on a run *)
(* =================================================================== *)

(** The frames held by the two sinks. *)
Definition sr_frames (st : run_state) : list image :=
  vw_frames (rs_sr_writer st).

Definition compare_frames (st : run_state) : list image :=
  vw_frames (rs_compare_writer st).

(** The frames the loop can still process: the one in hand and those the
    capture has not delivered yet. *)
Definition upcoming (raw_frame : option image) (st : run_state) : list image :=
  match raw_frame with
  | Some f => f :: cap_pending (rs_capture st)
  | None => []
  end.

(** The comparison frame that one pass of the loop makes of [raw]. *)
Definition comparison (v : Video) (raw : image) : result image :=
  final_image (sr_size v) raw (model raw).

(** [cv2.waitKey(1) & 0xFF == ord("q")]. *)
Definition is_quit (key : Z) : bool := (Z.land key 255 =? ord "q")%Z.

(** The trace of one fully processed frame in interactive mode, up to the
    key poll. *)
Definition frame_events : list event :=
  [EvModel; EvWriteSr; EvWriteCompare; EvImshow; EvWaitKey].

(** What one pass of the loop does to the sinks, the capture, the keys and
    the log. *)
Inductive pass (v : Video) (raw : image) (st : run_state)
  : flow -> Prop :=
| pass_raise e st' :
    comparison v raw = Err e ->
    sr_frames st' = sr_frames st ++ [model raw] ->
    compare_frames st' = compare_frames st ->
    rs_log st' = rs_log st ++ [EvModel; EvWriteSr] ->
    pass v raw st (Raise e st')
| pass_break c st' :
    comparison v raw = Ok c ->
    view (args v) = true ->
    is_quit (hd (-1)%Z (rs_keys st)) = true ->
    sr_frames st' = sr_frames st ++ [model raw] ->
    compare_frames st' = compare_frames st ++ [c] ->
    rs_keys st' = tl (rs_keys st) ->
    rs_log st' = rs_log st ++ frame_events ->
    pass v raw st (Break st')
| pass_continue c next st' :
    comparison v raw = Ok c ->
    (view (args v) = true -> is_quit (hd (-1)%Z (rs_keys st)) = false) ->
    sr_frames st' = sr_frames st ++ [model raw] ->
    compare_frames st' = compare_frames st ++ [c] ->
    rs_keys st' = (if view (args v) then tl (rs_keys st) else rs_keys st) ->
    rs_log st' = rs_log st ++
                 (if view (args v) then frame_events ++ [EvRead]
                  else [EvModel; EvWriteSr; EvWriteCompare; EvRead]) ->
    upcoming next st' = cap_pending (rs_capture st) ->
    pass v raw st (Continue next st').

End Pipeline.

(* ===================================================================== *)
(** * The strips as the specification words them *)
(* ===================================================================== *)

Section SpecWording.

Variable pixel : Type.
Variable black : pixel.

(** "Pad the reference frame on its top/left by a fixed margin (5,0,0,5) and
    the transformed frame on its top/left by a fixed margin (10,5,0,0);
    concatenate the two padded frames horizontally, reference first." *)
Definition spec_top_strip (reference sr : image pixel) : result (image pixel) :=
  concatenate_axis1 [Pad black 5 0 0 5 reference; Pad black 10 5 0 0 sr].

(** "From the padded reference frame, extract five detail tiles of side
    cropTileSize; do the same from the padded transformed frame (right-pad 10
    for reference crops, left-pad 10 for transformed crops); concatenate the
    five reference-side tiles followed by the five transformed-side tiles." *)
Definition spec_bottom_strip (tile : Z) (reference sr : image pixel)
  : result (image pixel) :=
  reference_tiles <- FiveCrop tile (Pad black 5 0 0 5 reference) ;;
  sr_tiles <- FiveCrop tile (Pad black 10 5 0 0 sr) ;;
  concatenate_axis1 (map (Pad black 0 0 10 0) reference_tiles
                       ++ map (Pad black 10 0 0 0) sr_tiles).

End SpecWording.

(** The corner (row, column) of the [i]-th tile of [FiveCrop] in a frame of
    [h] rows and [w] columns: top left, top right, bottom left, bottom right,
    centre. *)
Definition tile_origin (h w n i : nat) : nat * nat :=
  match i with
  | 0 => (0, 0)
  | 1 => (0, w - n)
  | 2 => (h - n, 0)
  | 3 => (h - n, w - n)
  | _ => (Z.to_nat (round_half (Z.of_nat h - Z.of_nat n)),
          Z.to_nat (round_half (Z.of_nat w - Z.of_nat n)))
  end.


(** How often a log polls the keyboard. *)
Definition polls (events : list event) : nat :=
  length (filter (fun e => match e with EvWaitKey => true | _ => false end) events).


Definition prefix {A : Type} (l1 l2 : list A) : Prop :=
  exists rest, l2 = l1 ++ rest.

(** Whether two log entries record the same call. *)
Definition same_event (e1 e2 : event) : bool :=
  match e1, e2 with
  | EvRead, EvRead => true
  | EvModel, EvModel => true
  | EvWriteSr, EvWriteSr => true
  | EvWriteCompare, EvWriteCompare => true
  | EvImshow, EvImshow => true
  | EvWaitKey, EvWaitKey => true
  | EvRelease Source, EvRelease Source => true
  | EvRelease SrSink, EvRelease SrSink => true
  | EvRelease CompareSink, EvRelease CompareSink => true
  | _, _ => false
  end.

(** How often a log records the call [e]. *)
Definition occurrences (e : event) (events : list event) : nat :=
  length (filter (same_event e) events).

(** The trace of one pass of the loop that processes a frame and goes on to
    read the next one (lines 147-196), with and without the display. *)
Definition pass_events (show : bool) : list event :=
  if show then frame_events ++ [EvRead]
  else [EvModel; EvWriteSr; EvWriteCompare; EvRead].

(** Whether a path holds a directory separator. *)
Fixpoint has_slash (p : string) : bool :=
  match p with
  | EmptyString => false
  | String c rest => Ascii.eqb c "/"%char || has_slash rest
  end.

(* ===================================================================== *)
(** * The generators and the discriminator, as far as tensor sizes go

    [models/srgan.py], [models/vgg.py] and [ssrgan_pytorch/models/u_net.py]
    build their networks from [torch.nn] layers.  What a layer does to the
    size of a tensor depends on the layer's constructor arguments and on the
    size of its input, not on weights or values: a module is embedded as the
    function from the size of its input to the size of its output, [None]
    when [forward] raises.  Tensors are four-dimensional (batch, channels,
    rows, columns), as [Video.run] makes them with [unsqueeze(0)]; the
    modules are in evaluation mode, as after [model.eval()]. *)
(* ===================================================================== *)

Module Torch.

(** [t.size()]. *)
Definition shape : Type := list nat.

Definition nn_Module : Type := shape -> option shape.

Definition and_then {A B : Type} (x : option A) (k : A -> option B) : option B :=
  match x with
  | Some a => k a
  | None => None
  end.

Declare Scope torch_scope.
Notation "x <- e ;; k" := (and_then e (fun x => k))
  (at level 61, e at next level, right associativity) : torch_scope.
Local Open Scope torch_scope.

(** [nn.Sequential] of a list of modules. *)
Fixpoint Sequential (modules : list nn_Module) (input : shape) : option shape :=
  match modules with
  | [] => Some input
  | m :: rest => out <- m input ;; Sequential rest out
  end.

(** One spatial extent through a convolution: the kernel must fit into the
    padded input; the output has
    [(size + 2 * padding - kernel_size) // stride + 1] positions. *)
Definition conv_size (size kernel_size stride padding : nat) : option nat :=
  if (size + 2 * padding <? kernel_size) || (stride =? 0) then None
  else Some ((size + 2 * padding - kernel_size) / stride + 1).

(** [nn.Conv2d(in_channels, out_channels, kernel_size, stride, padding,
    groups=groups)]: the input must have [in_channels] channels, and
    [groups] must divide both channel counts. *)
Definition Conv2d (in_channels out_channels kernel_size stride padding groups : nat)
  : nn_Module :=
  fun input =>
    match input with
    | [n; c; h; w] =>
        if (c =? in_channels) && (0 <? groups)
           && (in_channels mod groups =? 0) && (out_channels mod groups =? 0)
        then
          h' <- conv_size h kernel_size stride padding ;;
          w' <- conv_size w kernel_size stride padding ;;
          Some [n; out_channels; h'; w']
        else None
    | _ => None
    end.

(** [nn.BatchNorm2d(num_features)], evaluation mode. *)
Definition BatchNorm2d (num_features : nat) : nn_Module :=
  fun input =>
    match input with
    | [n; c; h; w] => if c =? num_features then Some input else None
    | _ => None
    end.

(** [nn.PReLU()] (one shared slope), [nn.LeakyReLU], [nn.Tanh] and
    [torch.tanh] work element by element. *)
Definition PReLU : nn_Module := fun input => Some input.
Definition LeakyReLU : nn_Module := fun input => Some input.
Definition Tanh : nn_Module := fun input => Some input.

(** [nn.PixelShuffle(upscale_factor)]. *)
Definition PixelShuffle (upscale_factor : nat) : nn_Module :=
  fun input =>
    match input with
    | [n; c; h; w] =>
        let r2 := upscale_factor * upscale_factor in
        if (0 <? r2) && (c mod r2 =? 0)
        then Some [n; c / r2; h * upscale_factor; w * upscale_factor]
        else None
    | _ => None
    end.

(** [nn.Upsample(scale_factor=scale_factor, mode=...)] with an integer
    factor, for the modes "nearest" and "bilinear" alike. *)
Definition Upsample (scale_factor : nat) : nn_Module :=
  fun input =>
    match input with
    | [n; c; h; w] => Some [n; c; h * scale_factor; w * scale_factor]
    | _ => None
    end.




(** Broadcasting of two extents: equal, or one of them 1. *)
Definition broadcast_extent (x y : nat) : option nat :=
  if x =? y then Some x
  else if x =? 1 then Some y
  else if y =? 1 then Some x
  else None.

(** Broadcasting of two sizes, innermost dimension first. *)
Fixpoint broadcast (a b : list nat) : option (list nat) :=
  match a, b with
  | [], _ => Some b
  | _, [] => Some a
  | x :: a', y :: b' =>
      rest <- broadcast a' b' ;;
      e <- broadcast_extent x y ;;
      Some (e :: rest)
  end.

(** [a + b] and [torch.add(a, b)]. *)
Definition add (a b : shape) : option shape :=
  option_map (@rev nat) (broadcast (rev a) (rev b)).

(** ** [models/srgan.py] *)

(** [ResidualBlock(channels)]: [self.main] and [forward]. *)
Definition ResidualBlock_main (channels : nat) : nn_Module :=
  Sequential [
    Conv2d channels channels 3 1 1 1;
    BatchNorm2d channels;
    PReLU;
    Conv2d channels channels 3 1 1 1;
    BatchNorm2d channels
  ].

Definition ResidualBlock (channels : nat) : nn_Module :=
  fun input =>
    out <- ResidualBlock_main channels input ;;
    add out input.

(** [SRGAN(upscale_factor)], for an [upscale_factor] with
    [int(math.log(upscale_factor, 2)) = num_upsample_block]: the layers that
    [__init__] builds, and [forward]. *)
Definition SRGAN_conv1 : nn_Module :=
  Sequential [
    Conv2d 3 64 3 1 1 1;
    PReLU
  ].

Definition SRGAN_trunk : nn_Module :=
  Sequential (repeat (ResidualBlock 64) 16).

Definition SRGAN_conv2 : nn_Module :=
  Sequential [
    Conv2d 64 64 3 1 1 1;
    BatchNorm2d 64
  ].

Definition SRGAN_upsampling (num_upsample_block : nat) : nn_Module :=
  Sequential (concat (repeat [
    Conv2d 64 256 3 1 1 1;
    PixelShuffle 2;
    PReLU
  ] num_upsample_block)).

Definition SRGAN_conv3 : nn_Module := Conv2d 64 3 9 1 4 1.

Definition SRGAN (num_upsample_block : nat) : nn_Module :=
  fun input =>
    conv1 <- SRGAN_conv1 input ;;
    trunk <- SRGAN_trunk conv1 ;;
    conv2 <- SRGAN_conv2 trunk ;;
    out <- add conv1 conv2 ;;
    out <- SRGAN_upsampling num_upsample_block out ;;
    out <- SRGAN_conv3 out ;;
    Tanh out.

(** ** [ssrgan_pytorch/models/u_net.py] *)

(** [SymmetricBlock(in_channels, out_channels)]: its layers, with
    [hidden_channels = in_channels * 2], and [forward]. *)
Definition SymmetricBlock_down (in_channels : nat) : nn_Module :=
  Conv2d in_channels in_channels 3 2 1 1.

Definition SymmetricBlock_body1 (in_channels out_channels : nat) : nn_Module :=
  let hidden_channels := in_channels * 2 in
  Sequential [
    Conv2d in_channels hidden_channels 1 1 0 1;
    LeakyReLU;
    Conv2d hidden_channels hidden_channels 3 1 1 hidden_channels;
    LeakyReLU;
    Conv2d hidden_channels out_channels 1 1 0 1;
    LeakyReLU
  ].

Definition SymmetricBlock_up : nn_Module := Upsample 2.

Definition SymmetricBlock_body2 (in_channels out_channels : nat) : nn_Module :=
  let hidden_channels := in_channels * 2 in
  Sequential [
    Conv2d out_channels hidden_channels 1 1 0 1;
    LeakyReLU;
    Conv2d hidden_channels hidden_channels 3 1 1 hidden_channels;
    LeakyReLU;
    Conv2d hidden_channels in_channels 1 1 0 1;
    LeakyReLU
  ].

Definition SymmetricBlock (in_channels out_channels : nat) : nn_Module :=
  fun input =>
    out <- SymmetricBlock_down in_channels input ;;
    out <- SymmetricBlock_body1 in_channels out_channels out ;;
    out <- SymmetricBlock_up out ;;
    out <- SymmetricBlock_body2 in_channels out_channels out ;;
    add out input.

(** [UNet()]: its layers and [forward]. *)
Definition UNet_conv1 : nn_Module := Conv2d 3 64 3 1 1 1.

Definition UNet_Trunk : nn_Module :=
  Sequential (repeat (SymmetricBlock 64 64) 8).

Definition UNet_unet : nn_Module := SymmetricBlock 64 64.

Definition UNet_upsampling : nn_Module :=
  Sequential (concat (repeat [
    Upsample 2;
    SymmetricBlock 64 64;
    Conv2d 64 256 3 1 1 1;
    LeakyReLU;
    PixelShuffle 2;
    SymmetricBlock 64 64
  ] 1)).

Definition UNet_conv3 : nn_Module :=
  Sequential [
    Conv2d 64 64 3 1 1 1;
    LeakyReLU
  ].

Definition UNet_conv4 : nn_Module :=
  Sequential [
    Conv2d 64 3 3 1 1 1;
    Tanh
  ].

Definition UNet : nn_Module :=
  fun input =>
    conv1 <- UNet_conv1 input ;;
    trunk <- UNet_Trunk conv1 ;;
    unet <- UNet_unet trunk ;;
    out <- add conv1 unet ;;
    out <- UNet_upsampling out ;;
    out <- UNet_conv3 out ;;
    out <- UNet_conv4 out ;;
    Some out.

(** ** [models/vgg.py] *)





(** ** How a module acts on the two spatial extents *)

(** [m] takes [in_channels] channels to [out_channels] and treats rows and
    columns alike, each through [f]. *)
Definition per_extent (in_channels out_channels : nat) (f : nat -> option nat)
           (m : nn_Module) : Prop :=
  forall n h w : nat,
    m [n; in_channels; h; w]
    = match f h, f w with
      | Some h', Some w' => Some [n; out_channels; h'; w']
      | _, _ => None
      end.

(** An extent through a layer that keeps it but needs it positive: a
    convolution of stride 1 whose kernel is [2 * padding + 1] wide. *)
Definition kept (size : nat) : option nat :=
  if 1 <=? size then Some size else None.


End Torch.

(* ===================================================================== *)
(** * The total variation loss of [loss.py] *)
(* ===================================================================== *)

Module Loss.

Section TVLoss.

(** The floating-point format of the tensors (24 and 128 for
    [torch.float32]). *)
Variable prec emax : Z.

(** [torch.sum] over the entries of a tensor.  Torch does not fix the order
    in which it adds; what is used of it here is its value on a tensor
    without entries. *)
Variable tensor_sum : list spec_float -> spec_float.

(** A four-dimensional tensor (batch, channels, rows, columns): its size
    and its entries, image by image, channel by channel, row by row. *)
Record Tensor : Type := {
  size : nat * nat * nat * nat;
  entries : list (list (list (list spec_float)))
}.

Definition well_formed (t : Tensor) : Prop :=
  let '(b, c, h, w) := size t in
  length (entries t) = b /\
  Forall (fun image =>
            length image = c /\
            Forall (fun channel =>
                      length channel = h /\
                      Forall (fun row => length row = w) channel)
                   image)
         (entries t).

(** Where a Python slice [:stop] over [length] items ends. *)
Definition slice_stop (stop : Z) (length : nat) : nat :=
  if (stop <? 0)%Z then Z.to_nat (Z.of_nat length + stop)
  else Nat.min (Z.to_nat stop) length.

(** [t[:, :, start:, :]] and [t[:, :, :stop, :]]. *)
Definition rows_from (start : nat) (t : Tensor) : Tensor :=
  let '(b, c, h, w) := size t in
  {| size := (b, c, h - start, w);
     entries := map (map (skipn start)) (entries t) |}.

Definition rows_to (stop : Z) (t : Tensor) : Tensor :=
  let '(b, c, h, w) := size t in
  {| size := (b, c, slice_stop stop h, w);
     entries := map (map (firstn (slice_stop stop h))) (entries t) |}.

(** [t[:, :, :, start:]] and [t[:, :, :, :stop]]. *)
Definition columns_from (start : nat) (t : Tensor) : Tensor :=
  let '(b, c, h, w) := size t in
  {| size := (b, c, h, w - start);
     entries := map (map (map (skipn start))) (entries t) |}.

Definition columns_to (stop : Z) (t : Tensor) : Tensor :=
  let '(b, c, h, w) := size t in
  {| size := (b, c, h, slice_stop stop w);
     entries := map (map (map (firstn (slice_stop stop w)))) (entries t) |}.

Definition zip_with {A : Type} (f : A -> A -> A) (l1 l2 : list A) : list A :=
  map (fun p => f (fst p) (snd p)) (combine l1 l2).

(** [a - b] on two tensors of one size, and [torch.pow(a, 2)]. *)
Definition sub (a b : Tensor) : Tensor :=
  {| size := size a;
     entries := zip_with (zip_with (zip_with (zip_with (SFsub prec emax))))
                         (entries a) (entries b) |}.

Definition pow2 (a : Tensor) : Tensor :=
  {| size := size a;
     entries := map (map (map (map (fun x => SFmul prec emax x x)))) (entries a) |}.

(** [t.sum()]. *)
Definition sum (t : Tensor) : spec_float :=
  tensor_sum (concat (concat (concat (entries t)))).

(** A Python integer next to a tensor: a scalar of the tensor's format. *)
Definition scalar (n : nat) : spec_float :=
  binary_normalize prec emax (Z.of_nat n) 0 false.

(** [TVLoss.tensor_size(t)]. *)
Definition tensor_size (t : Tensor) : nat :=
  let '(_, c, h, w) := size t in c * h * w.

(** [TVLoss(weight).forward(input)]. *)
Definition TVLoss_forward (weight : spec_float) (input : Tensor) : spec_float :=
  let '(batch_size, _, h_x, w_x) := size input in
  let count_h := tensor_size (rows_from 1 input) in
  let count_w := tensor_size (columns_from 1 input) in
  let h_tv := sum (pow2 (sub (rows_from 1 input)
                             (rows_to (Z.of_nat h_x - 1) input))) in
  let w_tv := sum (pow2 (sub (columns_from 1 input)
                             (columns_to (Z.of_nat w_x - 1) input))) in
  let tv_loss :=
    SFdiv prec emax
      (SFmul prec emax
         (SFmul prec emax weight (scalar 2))
         (SFadd prec emax (SFdiv prec emax h_tv (scalar count_h))
                          (SFdiv prec emax w_tv (scalar count_w))))
      (scalar batch_size) in
  tv_loss.

End TVLoss.

End Loss.

(* ===================================================================== *)
(** * Sample data: a resampling kernel and a network to run the pipeline on *)
(* ===================================================================== *)

Module Sample.

(** A resampling kernel to run the pipeline with: nearest neighbour. *)
Definition nearest (h w : nat) (img : image nat) : image nat :=
  map (fun y =>
         map (fun x => nth (x * cols img / w) (nth (y * rows img / h) img []) 0)
             (seq 0 w))
      (seq 0 h).

(** A stand-in for the network: it enlarges a frame [u] times. *)
Definition net (u : nat) (img : image nat) : image nat :=
  nearest (rows img * u) (cols img * u) img.

(** A clip of three frames, 25 pixels wide and 2 high. *)
Definition frame (k : nat) : image nat := [seq k 25; seq (100 + k) 25].

Definition clip : video_file nat :=
  {| vf_fps := PyFloat.of_int 25;
     vf_frame_count := 3;
     vf_frame_width := 25;
     vf_frame_height := 2;
     vf_frames := [frame 1; frame 2; frame 3] |}.

(** A clip too narrow for the five tiles: 8 x 8, one frame. *)
Definition thumb : video_file nat :=
  {| vf_fps := PyFloat.of_int 25;
     vf_frame_count := 1;
     vf_frame_width := 8;
     vf_frame_height := 8;
     vf_frames := [repeat (seq 1 8) 8] |}.

(** Ten frames of 64 x 64. *)
Definition film : video_file nat :=
  {| vf_fps := PyFloat.of_int 30;
     vf_frame_count := 10;
     vf_frame_width := 64;
     vf_frame_height := 64;
     vf_frames := repeat (repeat (repeat 7 64) 64) 10 |}.

Definition disk (path : string) : option (video_file nat) :=
  if String.eqb path "videos/clip.mp4" then Some clip
  else if String.eqb path "videos/thumb.mp4" then Some thumb
  else if String.eqb path "videos/film.mp4" then Some film
  else None.

Definition cli (path : string) (factor : Z) (show : bool) : Args :=
  {| file := path; upscale_factor := factor; scale_factor := factor; view := show |}.

(** The pipeline on the sample kernels. *)
Definition run (path : string) (show : bool) (keys : list Z) : outcome nat :=
  Video_run 0 (net 2) nearest nearest (Video_init disk (cli path 2 show)) keys.

End Sample.

Unset Implicit Arguments.

(* ===================================================================== *)
(** * Facts about binary64 rounding *)
(* ===================================================================== *)

Section FloatFacts.

Local Open Scope Z_scope.

Lemma digits2_pos_size (p : positive) : digits2_pos p = Pos.size p.
Proof. induction p; simpl; congruence. Qed.

(** [digits2_pos p] is the number of binary digits of [p]. *)
Lemma digits_bounds (p : positive) :
  2 ^ (Zpos (digits2_pos p) - 1) <= Zpos p < 2 ^ Zpos (digits2_pos p).
Proof.
  rewrite digits2_pos_size. split.
  - pose proof (Pos.size_le p) as H.
    assert (H' : 2 ^ Zpos (Pos.size p) <= 2 * Zpos p).
    { change 2 with (Zpos 2) at 1. rewrite <- Pos2Z.inj_pow.
      change (2 * Zpos p) with (Zpos (p~0)). apply Pos2Z.pos_le_pos. exact H. }
    replace (Zpos (Pos.size p)) with (Z.succ (Zpos (Pos.size p) - 1)) in H' by lia.
    rewrite Z.pow_succ_r in H' by lia. lia.
  - pose proof (Pos.size_gt p) as H.
    change 2 with (Zpos 2). rewrite <- Pos2Z.inj_pow. apply Pos2Z.pos_lt_pos. exact H.
Qed.

Lemma digits_unique (p : positive) (k : Z) :
  2 ^ (k - 1) <= Zpos p < 2 ^ k -> Zpos (digits2_pos p) = k.
Proof.
  intros [Hlo Hhi]. pose proof (digits_bounds p) as [Dlo Dhi].
  set (d := Zpos (digits2_pos p)) in *.
  assert (0 < d) by (subst d; lia).
  destruct (Z.lt_trichotomy d k) as [Hlt | [Heq | Hgt]]; [ | exact Heq | ].
  - assert (2 ^ d <= 2 ^ (k - 1)) by (apply Z.pow_le_mono_r; lia). lia.
  - assert (k < 0 \/ 0 <= k) as [Hk | Hk] by lia.
    + rewrite (Z.pow_neg_r 2 k) in Hhi by lia. lia.
    + assert (2 ^ k <= 2 ^ (d - 1)) by (apply Z.pow_le_mono_r; lia). lia.
Qed.

Lemma digits_le (p : positive) (k : Z) :
  0 <= k -> Zpos p < 2 ^ k -> Zpos (digits2_pos p) <= k.
Proof.
  intros Hk Hp. pose proof (digits_bounds p) as [Dlo _].
  destruct (Z_le_gt_dec (Zpos (digits2_pos p)) k) as [H | H]; [exact H | ].
  assert (2 ^ k <= 2 ^ (Zpos (digits2_pos p) - 1)) by (apply Z.pow_le_mono_r; lia).
  lia.
Qed.

Lemma digits_ge (p : positive) (k : Z) :
  2 ^ k <= Zpos p -> k < Zpos (digits2_pos p).
Proof.
  intros Hp. pose proof (digits_bounds p) as [_ Dhi].
  destruct (Z_lt_ge_dec k (Zpos (digits2_pos p))) as [H | H]; [exact H | ].
  assert (2 ^ Zpos (digits2_pos p) <= 2 ^ k) by (apply Z.pow_le_mono_r; lia).
  lia.
Qed.

(** One step of the right shift halves the mantissa. *)
Lemma shr_1_m (mrs : shr_record) :
  0 <= shr_m mrs -> shr_m (shr_1 mrs) = Z.div2 (shr_m mrs).
Proof.
  destruct mrs as [m r s]; simpl. intros H.
  destruct m as [ | [p | p | ] | p ]; simpl; try reflexivity; lia.
Qed.

Lemma shr_1_nonneg (mrs : shr_record) : 0 <= shr_m mrs -> 0 <= shr_m (shr_1 mrs).
Proof.
  intros H. rewrite shr_1_m by exact H. rewrite Z.div2_div. apply Z.div_pos; lia.
Qed.

Lemma iter_shr_1 (p : positive) : forall mrs,
  0 <= shr_m mrs ->
  shr_m (iter_pos shr_1 p mrs) = shr_m mrs / 2 ^ Zpos p.
Proof.
  induction p as [p IH | p IH | ]; intros mrs H; simpl iter_pos.
  - assert (H1 := shr_1_nonneg mrs H).
    assert (H2 : 0 <= shr_m (iter_pos shr_1 p (shr_1 mrs))).
    { rewrite IH by exact H1. apply Z.div_pos; lia. }
    rewrite IH by exact H2. rewrite IH by exact H1. rewrite shr_1_m by exact H.
    rewrite Z.div2_div. rewrite !Z.div_div by lia.
    f_equal.
    replace (Zpos p~1) with (1 + Zpos p + Zpos p) by lia.
    rewrite !Z.pow_add_r by lia. lia.
  - assert (H2 : 0 <= shr_m (iter_pos shr_1 p mrs)).
    { rewrite IH by exact H. apply Z.div_pos; lia. }
    rewrite IH by exact H2. rewrite IH by exact H.
    rewrite !Z.div_div by lia. f_equal.
    replace (Zpos p~0) with (Zpos p + Zpos p) by lia.
    rewrite Z.pow_add_r by lia. lia.
  - rewrite shr_1_m by exact H. rewrite Z.div2_div. reflexivity.
Qed.

Lemma shr_record_of_loc_m m l : shr_m (shr_record_of_loc m l) = m.
Proof. destruct l as [ | [ | | ]]; reflexivity. Qed.

Lemma loc_of_shr_record_of_loc m l :
  loc_of_shr_record (shr_record_of_loc m l) = l.
Proof. destruct l as [ | [ | | ]]; reflexivity. Qed.

Lemma round_nearest_even_cases m l :
  round_nearest_even m l = m \/ round_nearest_even m l = m + 1.
Proof.
  destruct l as [ | [ | | ]]; simpl; auto. destruct (Z.even m); auto.
Qed.

(** A mantissa of at least 53 digits is shifted down to 53 digits. *)
Lemma shr_fexp_normal (m : positive) (e : Z) (l : location) :
  53 <= Zpos (digits2_pos m) -> -1074 <= e ->
  exists r,
    shr_fexp 53 1024 (Zpos m) e l = (r, e + (Zpos (digits2_pos m) - 53)) /\
    shr_m r = Zpos m / 2 ^ (Zpos (digits2_pos m) - 53) /\
    (Zpos (digits2_pos m) = 53 -> r = shr_record_of_loc (Zpos m) l).
Proof.
  intros Hd He. unfold shr_fexp, fexp, emin. simpl Zdigits2.
  set (d := Zpos (digits2_pos m)) in *.
  replace (Z.max (d + e - 53) (3 - 1024 - 53) - e) with (d - 53) by lia.
  destruct (d - 53) as [ | n | n ] eqn:Hn; try lia.
  - exists (shr_record_of_loc (Zpos m) l). simpl shr.
    rewrite Z.add_0_r, shr_record_of_loc_m, Z.pow_0_r, Z.div_1_r. auto.
  - exists (iter_pos shr_1 n (shr_record_of_loc (Zpos m) l)). simpl shr.
    split; [reflexivity | split].
    + rewrite iter_shr_1; rewrite shr_record_of_loc_m; [reflexivity | lia].
    + lia.
Qed.

(** The result of rounding a mantissa [mx] of [d >= 53] digits, in units of
    [2 ^ (ex + (d - 53))]: the truncated mantissa or its successor. *)
Lemma binary_round_aux_bounds (mx : positive) (ex : Z) (lx : location) :
  let d := Zpos (digits2_pos mx) in
  53 <= d -> -1074 <= ex -> ex + (d - 53) < 971 ->
  exists m e,
    binary_round_aux 53 1024 false (Zpos mx) ex lx = S754_finite false m e /\
    (e = ex + (d - 53) \/ e = ex + (d - 53) + 1) /\
    (Zpos m * 2 ^ (e - (ex + (d - 53))) = Zpos mx / 2 ^ (d - 53) \/
     Zpos m * 2 ^ (e - (ex + (d - 53))) = Zpos mx / 2 ^ (d - 53) + 1) /\
    2 ^ 52 <= Zpos m < 2 ^ 53 /\
    (d = 53 -> lx = loc_Exact -> m = mx /\ e = ex).
Proof.
  intros d Hd Hex Hmax.
  destruct (shr_fexp_normal mx ex lx Hd Hex) as (r & Hr & Hm & Hexact).
  fold d in Hr, Hm, Hexact.
  pose proof (digits_bounds mx) as [Dlo Dhi]. fold d in Dlo, Dhi.
  set (n := d - 53) in *.
  set (lo := Zpos mx / 2 ^ n) in *.
  assert (Hpow : 0 < 2 ^ n) by (apply Z.pow_pos_nonneg; lia).
  assert (Hlo : 2 ^ 52 <= lo < 2 ^ 53).
  { subst lo. replace (d - 1) with (52 + n) in Dlo by lia.
    replace d with (53 + n) in Dhi by lia.
    rewrite Z.pow_add_r in Dlo, Dhi by lia. split.
    - apply Z.div_le_lower_bound; lia.
    - apply Z.div_lt_upper_bound; lia. }
  unfold binary_round_aux. rewrite Hr. rewrite Hm.
  pose proof (round_nearest_even_cases lo (loc_of_shr_record r)) as Hm1.
  destruct (round_nearest_even lo (loc_of_shr_record r)) as [ | p1 | p1 ] eqn:Ep1;
    try lia.
  assert (Hcase : Zpos p1 < 2 ^ 53 \/ Zpos p1 = 2 ^ 53) by lia.
  destruct Hcase as [Hsmall | Hbig].
  - assert (D1 : Zpos (digits2_pos p1) = 53) by (apply digits_unique; lia).
    destruct (shr_fexp_normal p1 (ex + n) loc_Exact) as (r2 & Hr2 & Hm2 & Hex2);
      try lia.
    rewrite Hr2. rewrite (Hex2 D1). simpl shr_m.
    replace (ex + n + (Z.pos (digits2_pos p1) - 53)) with (ex + n) by lia.
    replace (ex + n <=? 1024 - 53) with true by (symmetry; apply Z.leb_le; lia).
    exists p1, (ex + n). split; [reflexivity | ]. split; [lia | ].
    split; [ | split; [lia | ]].
    + replace (ex + n - (ex + n)) with 0 by lia. rewrite Z.pow_0_r. lia.
    + intros H53 Hl. subst lx. assert (n = 0) by lia.
      rewrite (Hexact H53) in Ep1.
      rewrite loc_of_shr_record_of_loc in Ep1. simpl in Ep1.
      subst lo. replace n with 0 in Ep1 by lia.
      rewrite Z.pow_0_r, Z.div_1_r in Ep1.
      split; [congruence | lia].
  - assert (D1 : Zpos (digits2_pos p1) = 54) by (apply digits_unique; lia).
    destruct (shr_fexp_normal p1 (ex + n) loc_Exact) as (r2 & Hr2 & Hm2 & Hex2);
      try lia.
    rewrite Hr2. rewrite Hm2. rewrite D1. rewrite Hbig.
    replace (2 ^ 53 / 2 ^ (54 - 53)) with (Zpos (2 ^ 52)) by reflexivity.
    replace (ex + n + (54 - 53) <=? 1024 - 53) with true
      by (symmetry; apply Z.leb_le; lia).
    exists (2 ^ 52)%positive, (ex + n + (54 - 53)). split; [reflexivity | ].
    split; [lia | ].
    split; [ | split; [change (Zpos (2 ^ 52)) with (2 ^ 52); lia | ]].
    + right. replace (ex + n + (54 - 53) - (ex + n)) with 1 by lia.
      change (Z.pos (2 ^ 52) * 2 ^ 1) with (2 ^ 53). lia.
    + intros H53 Hl. subst lx. exfalso.
      rewrite (Hexact H53) in Ep1.
      rewrite loc_of_shr_record_of_loc in Ep1. simpl in Ep1. lia.
Qed.

(** [float(p)] is exact below 2^53, with a normalised mantissa. *)
Lemma of_int_pos (p : positive) :
  Zpos p < 2 ^ 53 ->
  exists m,
    PyFloat.of_int (Zpos p) = S754_finite false m (Zpos (digits2_pos p) - 53) /\
    Zpos m = Zpos p * 2 ^ (53 - Zpos (digits2_pos p)) /\
    Zpos (digits2_pos m) = 53.
Proof.
  intros Hp. pose proof (digits_bounds p) as [Dlo Dhi].
  pose proof (digits_le p 53 ltac:(lia) Hp) as Hd.
  unfold PyFloat.of_int, PyFloat.prec, PyFloat.emax.
  unfold binary_normalize, binary_round, shl_align, fexp, emin.
  set (d := Zpos (digits2_pos p)) in *.
  assert (Hd0 : 0 < d) by (subst d; lia).
  replace (Z.max (d + 0 - 53) (3 - 1024 - 53) - 0) with (d - 53) by lia.
  replace (Z.max (d + 0 - 53) (3 - 1024 - 53)) with (d - 53) by lia.
  assert (Hmz : exists mz, Zpos mz = Zpos p * 2 ^ (53 - d) /\
             (let '(mz0, ez0) := match d - 53 with
                                 | Zneg k => (Pos.iter xO p k, d - 53)
                                 | _ => (p, 0)
                                 end in
              binary_round_aux 53 1024 false (Zpos mz0) ez0 loc_Exact)
             = binary_round_aux 53 1024 false (Zpos mz) (d - 53) loc_Exact).
  { destruct (d - 53) as [ | k | k ] eqn:Hk; try lia.
    - exists p. replace (53 - d) with 0 by lia. rewrite Z.pow_0_r.
      split; [lia | reflexivity].
    - exists (Pos.iter xO p k). split; [ | reflexivity].
      change (Pos.iter xO p k) with (shift_pos k p). rewrite shift_pos_correct.
      replace (53 - d) with (Zpos k) by lia.
      change (Z.pow_pos 2 k) with (2 ^ Zpos k). lia. }
  destruct Hmz as (mz & Hmz & Heq). rewrite Heq.
  assert (Dmz : Zpos (digits2_pos mz) = 53).
  { apply digits_unique. rewrite Hmz.
    assert (E1 : 2 ^ (53 - 1) = 2 ^ (d - 1) * 2 ^ (53 - d)).
    { rewrite <- Z.pow_add_r by lia. f_equal; lia. }
    assert (E2 : 2 ^ 53 = 2 ^ d * 2 ^ (53 - d)).
    { rewrite <- Z.pow_add_r by lia. f_equal; lia. }
    assert (0 < 2 ^ (53 - d)) by (apply Z.pow_pos_nonneg; lia).
    rewrite E1, E2. nia. }
  destruct (binary_round_aux_bounds mz (d - 53) loc_Exact)
    as (m & e & Hr & _ & _ & _ & Hex); try lia.
  destruct (Hex Dmz eq_refl) as [-> ->].
  exists mz. auto.
Qed.

Lemma SFdiv_core_normal (ma mb : positive) (ea eb : Z) :
  Zpos (digits2_pos ma) = 53 -> Zpos (digits2_pos mb) = 53 ->
  -1021 <= ea - eb ->
  SFdiv_core_binary 53 1024 (Zpos ma) ea (Zpos mb) eb
  = (Zpos ma * 2 ^ 53 / Zpos mb, ea - eb - 53,
     new_location (Zpos mb) (Zpos ma * 2 ^ 53 mod Zpos mb)).
Proof.
  intros Da Db He. unfold SFdiv_core_binary, fexp, emin. simpl Zdigits2.
  rewrite Da, Db.
  replace (Z.min (Z.max (53 + ea - (53 + eb) - 53) (3 - 1024 - 53)) (ea - eb))
    with (ea - eb - 53) by lia.
  replace (ea - eb - (ea - eb - 53)) with 53 by lia.
  rewrite Z.shiftl_mul_pow2 by lia.
  unfold Z.div, Z.modulo.
  destruct (Z.div_eucl (Zpos ma * 2 ^ 53) (Zpos mb)) as [q r]. reflexivity.
Qed.

(** [a / b] for [b <= a < 2 b]: the quotient in units of [2^-52] is the
    truncated exact quotient or its successor. *)
Lemma SFdiv_bounds (a b : positive) :
  Zpos b <= Zpos a < 2 * Zpos b -> Zpos a < 2 ^ 53 ->
  exists m e,
    SFdiv 53 1024 (PyFloat.of_int (Zpos a)) (PyFloat.of_int (Zpos b))
    = S754_finite false m e /\
    (e = -52 \/ e = -51) /\
    2 ^ 52 <= Zpos m < 2 ^ 53 /\
    (Zpos m * 2 ^ (e + 52) = Zpos a * 2 ^ 52 / Zpos b \/
     Zpos m * 2 ^ (e + 52) = Zpos a * 2 ^ 52 / Zpos b + 1).
Proof.
  intros Hab Ha.
  destruct (of_int_pos a Ha) as (ma & -> & Hma & Dma).
  destruct (of_int_pos b) as (mb & -> & Hmb & Dmb); [lia | ].
  pose proof (digits_le a 53 ltac:(lia) Ha) as Hda.
  assert (Hdab : Zpos (digits2_pos b) <= Zpos (digits2_pos a)
                 <= Zpos (digits2_pos b) + 1).
  { pose proof (digits_bounds a) as [Alo Ahi].
    pose proof (digits_bounds b) as [Blo Bhi]. split.
    - assert (Zpos (digits2_pos b) - 1 < Zpos (digits2_pos a))
        by (apply digits_ge; lia).
      lia.
    - apply digits_le; [lia | ]. rewrite Z.pow_add_r by lia. lia. }
  set (da := Zpos (digits2_pos a)) in *.
  set (db := Zpos (digits2_pos b)) in *.
  assert (Hda0 : 0 < da) by (subst da; lia).
  assert (Hdb0 : 0 < db) by (subst db; lia).
  unfold SFdiv. rewrite SFdiv_core_normal by (assumption || lia).
  set (t := 53 - da + db).
  assert (Hq : Zpos ma * 2 ^ 53 / Zpos mb = Zpos a * 2 ^ t / Zpos b).
  { rewrite Hma, Hmb.
    replace (Zpos a * 2 ^ (53 - da) * 2 ^ 53) with ((Zpos a * 2 ^ t) * 2 ^ (53 - db)).
    - apply Z.div_mul_cancel_r; [lia | ].
      assert (0 < 2 ^ (53 - db)) by (apply Z.pow_pos_nonneg; lia). lia.
    - rewrite <- !Z.mul_assoc, <- !Z.pow_add_r by lia. do 2 f_equal. lia. }
  rewrite Hq.
  set (q := Zpos a * 2 ^ t / Zpos b) in *.
  assert (Ht : 0 < 2 ^ t) by (apply Z.pow_pos_nonneg; lia).
  assert (Hqb : 2 ^ t <= q < 2 ^ (t + 1)).
  { subst q. split.
    - apply Z.div_le_lower_bound; nia.
    - apply Z.div_lt_upper_bound; [lia | ]. rewrite Z.pow_add_r by lia. nia. }
  destruct q as [ | pq | pq ] eqn:Eq; try lia.
  assert (Dq : Zpos (digits2_pos pq) = t + 1).
  { apply digits_unique. replace (t + 1 - 1) with t by lia. exact Hqb. }
  destruct (binary_round_aux_bounds pq (da - 53 - (db - 53) - 53)
              (new_location (Zpos mb) (Zpos ma * 2 ^ 53 mod Zpos mb)))
    as (m & e & Hr & He & Hv & Hm & _); try lia.
  simpl xorb. rewrite Hr. exists m, e. split; [reflexivity | ].
  rewrite Dq in He, Hv.
  replace (da - 53 - (db - 53) - 53 + (t + 1 - 53)) with (-52) in He, Hv by lia.
  split; [lia | ]. split; [exact Hm | ].
  replace (e - -52) with (e + 52) in Hv by lia.
  assert (Hlo : Zpos pq / 2 ^ (t + 1 - 53) = Zpos a * 2 ^ 52 / Zpos b).
  { rewrite <- Eq. subst q. rewrite Z.div_div by lia.
    replace (2 ^ t) with (2 ^ 52 * 2 ^ (t + 1 - 53)).
    - rewrite Z.mul_assoc. apply Z.div_mul_cancel_r; [lia | ].
      assert (0 < 2 ^ (t + 1 - 53)) by (apply Z.pow_pos_nonneg; lia). lia.
    - rewrite <- Z.pow_add_r by lia. f_equal. lia. }
  rewrite Hlo in Hv. exact Hv.
Qed.

(** The integer core of [int(a / b * c) = c]: [V] is the rounded quotient
    in units of [2^-52], [my * J] the rounded product in units of
    [1 / (Kj * J)]. *)
Lemma trunc_arith (a b c V L mx my S J N T Kj lo2 : Z) :
  0 < b -> 0 < c -> c < 2147483648 ->
  8 * (a - b) * c <= 7 * b ->
  b * L <= a * 4503599627370496 -> 4503599627370496 <= L ->
  V = L \/ V = L + 1 ->
  V = mx * S -> S = 1 \/ S = 2 -> J = 1 \/ J = 2 ->
  0 < N -> 0 < T -> 0 < Kj ->
  Kj * J * N * S = 4503599627370496 * T ->
  4503599627370496 * N <= mx * (c * T) ->
  N * lo2 <= mx * (c * T) -> mx * (c * T) < N * (lo2 + 1) ->
  my * J = lo2 \/ my * J = lo2 + 1 ->
  my / Kj = c.
Proof.
  intros HbL Hc0 Hc Hsmall HL HL2 Hv EV HS HJ Hn2 Ht Hkj Ek Plo Hlo2a Hlo2b Hvy.
  assert (HS0 : 0 < S) by lia.
  assert (HJ0 : 0 < J) by lia.
  assert (HNS : 0 < N * S) by (clear - Hn2 HS0; nia).
  assert (HV : 4503599627370496 <= V) by lia.
  assert (HbV : b * V <= a * 4503599627370496 + b).
  { clear - HL Hv HbL. destruct Hv as [Hv | Hv]; rewrite Hv; lia. }
  assert (HZ : 8 * (V * c) <= (8 * c + 7) * 4503599627370496 + 8 * c).
  { clear - HbV Hsmall HbL Hc0.
    assert (E1 : b * V * (8 * c) <= (a * 4503599627370496 + b) * (8 * c))
      by (apply Z.mul_le_mono_nonneg_r; lia).
    apply (Z.mul_le_mono_pos_l _ _ b); [lia | ]. lia. }
  assert (E0 : S * (mx * (c * T)) = V * c * T) by (rewrite EV; ring).
  assert (E3 : forall x, N * S * (x * (Kj * J)) = x * (4503599627370496 * T)).
  { intros x. rewrite <- Ek. ring. }
  assert (Hlow : c * (Kj * J) <= lo2).
  { assert (c * (Kj * J) < lo2 + 1); [ | lia].
    apply (Z.mul_lt_mono_pos_l (N * S)); [exact HNS | ].
    rewrite E3.
    assert (E4 : c * (4503599627370496 * T) <= V * c * T).
    { replace (V * c * T) with (c * (V * T)) by ring.
      apply Z.mul_le_mono_nonneg_l; [lia | ].
      apply Z.mul_le_mono_nonneg_r; lia. }
    assert (E5 : S * (mx * (c * T)) < S * (N * (lo2 + 1))).
    { apply Z.mul_lt_mono_pos_l; assumption. }
    replace (N * S * (lo2 + 1)) with (S * (N * (lo2 + 1))) by ring.
    clear - E0 E4 E5. lia. }
  assert (Hup : lo2 + 1 < (c + 1) * (Kj * J)).
  { apply (Z.mul_lt_mono_pos_l (N * S)); [exact HNS | ].
    rewrite E3.
    assert (H1 : N * S * lo2 <= V * c * T).
    { rewrite <- E0. replace (N * S * lo2) with (S * (N * lo2)) by ring.
      apply Z.mul_le_mono_nonneg_l; lia. }
    assert (H2 : N * S * 4503599627370496 <= V * c * T).
    { rewrite <- E0.
      replace (N * S * 4503599627370496) with (S * (4503599627370496 * N)) by ring.
      apply Z.mul_le_mono_nonneg_l; lia. }
    assert (H3 : (V * c) * (4503599627370496 + 1)
                 < (c + 1) * (4503599627370496 * 4503599627370496)).
    { clear - HZ Hc. lia. }
    assert (H4 : T * ((V * c) * (4503599627370496 + 1))
                 < T * ((c + 1) * (4503599627370496 * 4503599627370496))).
    { apply Z.mul_lt_mono_pos_l; assumption. }
    clear - H1 H2 H4.
    replace (N * S * (lo2 + 1)) with (N * S * lo2 + N * S) by ring.
    remember (V * c * T) as Q. remember ((c + 1) * (4503599627370496 * T)) as R.
    assert (H5 : Q * (4503599627370496 + 1) < R * 4503599627370496).
    { subst Q R. clear - H4. lia. }
    remember (N * S) as NS. remember (NS * lo2) as NL.
    clear - H1 H2 H5. lia. }
  symmetry. apply Z.div_unique with (r := my - c * Kj).
  - left.
    assert (B1 : c * Kj * J <= my * J).
    { replace (c * Kj * J) with (c * (Kj * J)) by ring.
      clear - Hlow Hvy. lia. }
    assert (B2 : my * J < (c + 1) * Kj * J).
    { replace ((c + 1) * Kj * J) with ((c + 1) * (Kj * J)) by ring.
      clear - Hup Hvy. lia. }
    apply Z.mul_le_mono_pos_r in B1; [ | exact HJ0].
    apply Z.mul_lt_mono_pos_r in B2; [ | exact HJ0].
    clear - B1 B2. lia.
  - ring.
Qed.

(** Binary64 arithmetic gives [int(a / b * c) = c] whenever the exact
    value [a * c / b] lies in [c, c + 7/8] and the operands are below
    2^31. *)
Lemma float_scaling_exact (a b c : positive) :
  Zpos b <= Zpos a -> Zpos a < 2 ^ 31 -> Zpos c < 2 ^ 31 ->
  8 * (Zpos a - Zpos b) * Zpos c <= 7 * Zpos b ->
  PyFloat.to_int
    (PyFloat.mul_int (SFdiv 53 1024 (PyFloat.of_int (Zpos a))
                            (PyFloat.of_int (Zpos b))) (Zpos c))
  = Ok (Zpos c).
Proof.
  intros Hba Ha Hc Hsmall.
  assert (Hab : Zpos b <= Zpos a < 2 * Zpos b) by (clear - Hba Hsmall; nia).
  destruct (SFdiv_bounds a b Hab) as (mx & ex & -> & Hex & Hmx & Hv); [lia | ].
  unfold PyFloat.mul_int.
  destruct (of_int_pos c) as (mc & -> & Hmc & Dmc); [lia | ].
  pose proof (digits_le c 31 ltac:(lia) Hc) as Hdc.
  pose proof (digits_bounds mc) as [MClo MChi]. rewrite Dmc in MClo, MChi.
  unfold PyFloat.prec, PyFloat.emax, SFmul. simpl xorb.
  pose proof (digits_bounds (mx * mc)) as [Plo Phi].
  assert (HdP : 105 <= Zpos (digits2_pos (mx * mc)) <= 106).
  { split.
    - assert (104 < Zpos (digits2_pos (mx * mc))); [ | lia].
      apply digits_ge. rewrite Pos2Z.inj_mul.
      change (2 ^ 104) with (2 ^ 52 * 2 ^ 52).
      change (2 ^ (53 - 1)) with (2 ^ 52) in MClo.
      clear - Hmx MClo. nia.
    - apply digits_le; [lia | ]. rewrite Pos2Z.inj_mul.
      change (2 ^ 106) with (2 ^ 53 * 2 ^ 53). clear - Hmx MChi. nia. }
  set (dc := Zpos (digits2_pos c)) in *.
  assert (Hdc0 : 0 < dc) by (subst dc; lia).
  set (dP := Zpos (digits2_pos (mx * mc))) in *.
  rewrite Pos2Z.inj_mul in Plo.
  destruct (binary_round_aux_bounds (mx * mc) (ex + (dc - 53)) loc_Exact)
    as (my & ey & -> & Hey & Hvy & Hmy & _); fold dP; try lia.
  fold dP in Hey, Hvy.
  set (s := ex + 52) in *.
  set (t := 53 - dc) in *.
  set (n2 := dP - 53) in *.
  set (j := ey - (ex + (dc - 53) + n2)) in *.
  set (k := 52 + t - s - n2).
  assert (Hs : s = 0 \/ s = 1) by (clear - Hex; lia).
  assert (Hj : j = 0 \/ j = 1) by (clear - Hey; lia).
  assert (Hk : 19 <= k) by (clear - Hs Hdc HdP; lia).
  assert (Eey : ey = - (k - j)) by (clear; lia).
  assert (Ht0 : 0 <= t) by (clear - Hdc; lia).
  assert (Hn0 : 0 <= n2) by (clear - HdP; lia).
  unfold PyFloat.to_int. destruct ey as [ | pe | pe ] eqn:Epe;
    try (exfalso; clear - Eey Hk Hj; lia).
  f_equal. rewrite Z.shiftr_div_pow2 by lia.
  replace (Zpos pe) with (k - j) by (clear - Eey; lia).
  assert (Ps : 2 ^ s = 1 \/ 2 ^ s = 2).
  { destruct Hs as [-> | ->]; [left | right]; reflexivity. }
  assert (Pj : 2 ^ j = 1 \/ 2 ^ j = 2).
  { destruct Hj as [-> | ->]; [left | right]; reflexivity. }
  assert (Ek : 2 ^ (k - j) * 2 ^ j * 2 ^ n2 * 2 ^ s = 2 ^ 52 * 2 ^ t).
  { assert (Hkj0 : 0 <= k - j) by (clear - Hk Hj; lia).
    assert (Hj0 : 0 <= j) by (clear - Hj; lia).
    assert (Hs0 : 0 <= s) by (clear - Hs; lia).
    rewrite <- !Z.pow_add_r by (clear - Hkj0 Hj0 Hs0 Hn0 Ht0; lia).
    f_equal. clear. lia. }
  assert (EP : 2 ^ (dP - 1) = 2 ^ 52 * 2 ^ n2).
  { rewrite <- Z.pow_add_r by (clear - Hn0; lia). f_equal. clear. lia. }
  rewrite EP in Plo. rewrite Pos2Z.inj_mul in Hvy. rewrite Hmc in Plo, Hvy.
  fold t in Plo, Hvy.
  assert (Hn2 : 0 < 2 ^ n2) by (apply Z.pow_pos_nonneg; [reflexivity | exact Hn0]).
  apply (trunc_arith (Zpos a) (Zpos b) (Zpos c) (Zpos mx * 2 ^ s)
           (Zpos a * 2 ^ 52 / Zpos b) (Zpos mx) (Zpos my) (2 ^ s) (2 ^ j)
           (2 ^ n2) (2 ^ t) (2 ^ (k - j))
           (Zpos mx * (Zpos c * 2 ^ t) / 2 ^ n2)).
  - reflexivity.
  - reflexivity.
  - exact Hc.
  - exact Hsmall.
  - apply Z.mul_div_le. reflexivity.
  - apply Z.div_le_lower_bound; [reflexivity | ]. clear - Hba. lia.
  - exact Hv.
  - reflexivity.
  - exact Ps.
  - exact Pj.
  - exact Hn2.
  - apply Z.pow_pos_nonneg; [reflexivity | exact Ht0].
  - apply Z.pow_pos_nonneg; [reflexivity | clear - Hk Hj; lia].
  - exact Ek.
  - exact Plo.
  - apply Z.mul_div_le. exact Hn2.
  - pose proof (Z.mul_succ_div_gt (Zpos mx * (Zpos c * 2 ^ t)) (2 ^ n2) Hn2) as H.
    clear - H. lia.
  - exact Hvy.
Qed.

End FloatFacts.

(* ===================================================================== *)
(** * Shapes of padded, cropped and concatenated frames *)
(* ===================================================================== *)

Section ShapeFacts.

Context {pixel : Type}.
Variable black : pixel.

Local Abbreviation image := (image pixel).

Lemma rect_rows (h w : nat) (img : image) : rect h w img -> rows img = h.
Proof. intros [H _]. exact H. Qed.

Lemma rect_cols (h w : nat) (img : image) :
  rect h w img -> 0 < h -> cols img = w.
Proof.
  intros [Hl Hf] Hh. unfold cols. destruct img as [ | r img]; simpl in *.
  - lia.
  - inversion Hf; assumption.
Qed.

Lemma rect_repeat (h w : nat) (r : list pixel) :
  length r = w -> rect h w (repeat r h).
Proof.
  intros Hr. split.
  - apply repeat_length.
  - apply Forall_forall. intros x Hx. apply repeat_spec in Hx. congruence.
Qed.

Lemma rect_app (h1 h2 w : nat) (a b : image) :
  rect h1 w a -> rect h2 w b -> rect (h1 + h2) w (a ++ b).
Proof.
  intros [La Fa] [Lb Fb]. split.
  - rewrite length_app. lia.
  - apply Forall_app. split; assumption.
Qed.

Lemma rect_Pad (h w left top right bottom : nat) (img : image) :
  rect h w img -> cols img = w ->
  rect (top + h + bottom) (left + w + right) (Pad black left top right bottom img).
Proof.
  intros [Hl Hf] Hc. unfold Pad. rewrite Hc.
  replace (top + h + bottom) with (top + (h + bottom)) by lia.
  apply rect_app; [ | apply rect_app].
  - apply rect_repeat. apply repeat_length.
  - split.
    + rewrite length_map. exact Hl.
    + apply Forall_map. eapply Forall_impl; [ | exact Hf].
      intros r Hr. cbn beta in *. rewrite !length_app, !repeat_length. lia.
  - apply rect_repeat. apply repeat_length.
Qed.

Lemma rect_crop (h w : nat) (top left height width : Z) (img : image) :
  rect h w img ->
  (0 <= top)%Z -> (0 <= left)%Z -> (0 <= height)%Z -> (0 <= width)%Z ->
  (top + height <= Z.of_nat h)%Z -> (left + width <= Z.of_nat w)%Z ->
  rect (Z.to_nat height) (Z.to_nat width) (crop top left height width img).
Proof.
  intros [Hl Hf] Ht Hle Hh Hw Hth Hlw. unfold crop. split.
  - rewrite length_map, length_firstn, length_skipn. lia.
  - apply Forall_map. apply Forall_forall. intros r Hr.
    assert (Hin : In r img).
    { rewrite <- (firstn_skipn (Z.to_nat top) img). apply in_or_app. right.
      rewrite <- (firstn_skipn (Z.to_nat height) (skipn (Z.to_nat top) img)).
      apply in_or_app. left. exact Hr. }
    rewrite Forall_forall in Hf. specialize (Hf r Hin).
    rewrite length_firstn, length_skipn. lia.
Qed.

Lemma round_half_bounds (d : Z) : (0 <= d)%Z -> (0 <= round_half d <= d)%Z.
Proof.
  intros Hd. unfold round_half.
  pose proof (Z.div_mod d 2 ltac:(lia)) as E.
  pose proof (Z.mod_pos_bound d 2 ltac:(lia)) as B.
  destruct (Z.even d) eqn:Ed.
  - lia.
  - assert (d mod 2 = 1)%Z.
    { rewrite Zmod_even, Ed. reflexivity. }
    destruct (Z.even (d / 2)); lia.
Qed.

(** Within the image, [FiveCrop] succeeds with five square tiles. *)
Lemma FiveCrop_rect (h w : nat) (size : Z) (img : image) :
  rect h w img -> 0 < h ->
  (0 <= size)%Z -> (size <= Z.of_nat w)%Z -> (size <= Z.of_nat h)%Z ->
  exists tl tr bl br center,
    FiveCrop size img = Ok [tl; tr; bl; br; center] /\
    Forall (rect (Z.to_nat size) (Z.to_nat size)) [tl; tr; bl; br; center].
Proof.
  intros Hr Hh Hs Hw Hhh. unfold FiveCrop, center_crop, shape0, shape1.
  rewrite (rect_rows _ _ _ Hr), (rect_cols _ _ _ Hr Hh).
  replace ((size >? Z.of_nat w) || (size >? Z.of_nat h))%Z with false.
  2:{ symmetry. apply orb_false_iff. rewrite !Z.gtb_ltb, !Z.ltb_ge. lia. }
  pose proof (round_half_bounds (Z.of_nat h - size) ltac:(lia)) as B1.
  pose proof (round_half_bounds (Z.of_nat w - size) ltac:(lia)) as B2.
  do 5 eexists. split; [reflexivity | ].
  repeat constructor; apply (rect_crop h w); try assumption; lia.
Qed.

(** A tile larger than the image makes [FiveCrop] raise. *)
Lemma FiveCrop_too_big (h w : nat) (size : Z) (img : image) :
  rect h w img -> 0 < h ->
  (Z.of_nat w < size \/ Z.of_nat h < size)%Z ->
  FiveCrop size img = Err ValueError.
Proof.
  intros Hr Hh Hbig. unfold FiveCrop, shape0, shape1.
  rewrite (rect_rows _ _ _ Hr), (rect_cols _ _ _ Hr Hh).
  replace ((size >? Z.of_nat w) || (size >? Z.of_nat h))%Z with true; [reflexivity | ].
  symmetry. apply orb_true_iff. rewrite !Z.gtb_ltb, !Z.ltb_lt. exact Hbig.
Qed.

Lemma rect_hstack2 (h w1 w2 : nat) (a b : image) :
  rect h w1 a -> rect h w2 b -> rect h (w1 + w2) (hstack2 a b).
Proof.
  intros [La Fa] [Lb Fb]. unfold hstack2. split.
  - rewrite length_map, length_combine. lia.
  - apply Forall_map. apply Forall_forall. intros [r1 r2] Hin. cbn [fst snd].
    rewrite Forall_forall in Fa, Fb.
    rewrite length_app.
    rewrite (Fa r1 (in_combine_l _ _ _ _ Hin)), (Fb r2 (in_combine_r _ _ _ _ Hin)).
    reflexivity.
Qed.

Lemma rect_fold_hstack2 (h w : nat) (rest : list image) : forall (a : image) (wa : nat),
  rect h wa a -> Forall (rect h w) rest ->
  rect h (wa + length rest * w) (fold_left (@hstack2 pixel) rest a).
Proof.
  induction rest as [ | b rest IH]; intros a wa Ha Hrest; simpl.
  - rewrite Nat.add_0_r. exact Ha.
  - inversion Hrest as [ | ? ? Hb Hrest']; subst.
    replace (wa + (w + length rest * w)) with ((wa + w) + length rest * w) by lia.
    apply IH; [ | exact Hrest']. apply rect_hstack2; assumption.
Qed.

(** Arrays of equal height concatenate along axis 1. *)
Lemma concatenate_axis1_rect (h w wa : nat) (a : image) (rest : list image) :
  rect h wa a -> Forall (rect h w) rest ->
  exists r, concatenate_axis1 (a :: rest) = Ok r /\
            rect h (wa + length rest * w) r.
Proof.
  intros Ha Hrest. unfold concatenate_axis1.
  replace (forallb (fun b => rows b =? rows a) rest) with true.
  - eexists. split; [reflexivity | ]. apply rect_fold_hstack2; assumption.
  - symmetry. apply forallb_forall. intros b Hb. rewrite Forall_forall in Hrest.
    rewrite (rect_rows _ _ _ (Hrest b Hb)), (rect_rows _ _ _ Ha).
    apply Nat.eqb_refl.
Qed.

(** Two arrays of equal width concatenate along axis 0. *)
Lemma concatenate_axis0_rect (h1 h2 w : nat) (a b : image) :
  rect h1 w a -> rect h2 w b -> 0 < h1 -> 0 < h2 ->
  exists r, concatenate_axis0 [a; b] = Ok r /\ rect (h1 + h2) w r.
Proof.
  intros Ha Hb H1 H2. unfold concatenate_axis0. cbn [forallb].
  rewrite (rect_cols _ _ _ Ha H1), (rect_cols _ _ _ Hb H2), Nat.eqb_refl.
  cbn [andb concat]. eexists. split; [reflexivity | ].
  rewrite app_nil_r. apply rect_app; assumption.
Qed.

End ShapeFacts.

(* ===================================================================== *)
(** * The compositor: shapes of the strips and of the comparison frame *)
(* ===================================================================== *)

Section CompositorFacts.

Local Open Scope Z_scope.

Lemma scaled_height_exact (a b c : Z) :
  0 < b <= a -> a < 2 ^ 31 -> 0 < c < 2 ^ 31 ->
  8 * (a - b) * c <= 7 * b ->
  scaled_height a b c = Ok c.
Proof.
  intros [Hb Hba] Ha [Hc0 Hc] Hsmall.
  destruct a as [ | a | a]; try lia.
  destruct b as [ | b | b]; try lia.
  destruct c as [ | c | c]; try lia.
  unfold scaled_height, PyFloat.truediv. cbn [Z.eqb bind].
  apply float_scaling_exact; assumption.
Qed.

(** The bottom strip keeps its height [tile + 5] when it is stretched from
    [10 * (tile + 10)] columns to the [2 * width + 10] of the top strip. *)
Lemma bottom_img_height_exact (width : Z) :
  0 < crop_tile_size width -> 2 * width + 10 < 2 ^ 31 ->
  scaled_height (2 * width + 10) (10 * (crop_tile_size width + 10))
                (crop_tile_size width + 5)
  = Ok (crop_tile_size width + 5).
Proof.
  unfold crop_tile_size. intros Hc Hw.
  pose proof (Z.div_mod width 5 ltac:(lia)) as E.
  pose proof (Z.mod_pos_bound width 5 ltac:(lia)) as B.
  change (2 ^ 31) with 2147483648 in Hw.
  apply scaled_height_exact; change (2 ^ 31) with 2147483648; try lia.
  set (q := width / 5) in *. set (r := width mod 5) in *.
  replace (2 * width + 10 - 10 * (q - 9 + 10)) with (2 * r) by lia.
  assert (8 * (2 * r) * (q - 9 + 5) <= 64 * (q - 4)) by nia.
  lia.
Qed.

End CompositorFacts.

Section CompositorShapes.

Context {pixel : Type}.
Variable black : pixel.
Variable bicubic : nat -> nat -> image pixel -> image pixel.
Variable bilinear : nat -> nat -> image pixel -> image pixel.

(** The resampling kernels deliver the size they are asked for. *)
Hypothesis bicubic_rect :
  forall h w img, 0 < h -> 0 < w -> rect h w (bicubic h w img).
Hypothesis bilinear_rect :
  forall h w img, 0 < h -> 0 < w -> rect h w (bilinear h w img).

Lemma rect_eq (h w h' w' : nat) (img : image pixel) :
  rect h w img -> h = h' -> w = w' -> rect h' w' img.
Proof. intros H -> ->. exact H. Qed.

Lemma Resize_rect kernel (h w : nat) (img : image pixel) :
  (forall h w img, 0 < h -> 0 < w -> rect h w (kernel h w img)) ->
  0 < h -> 0 < w ->
  exists r, Resize kernel (Z.of_nat h) (Z.of_nat w) img = Ok r /\ rect h w r.
Proof.
  intros Hk Hh Hw. unfold Resize.
  replace ((Z.of_nat h <=? 0) || (Z.of_nat w <=? 0))%Z with false.
  - eexists. split; [reflexivity | ]. rewrite !Nat2Z.id. apply Hk; assumption.
  - symmetry. apply orb_false_iff. rewrite !Z.leb_gt. lia.
Qed.

(** The tiles of one frame, padded the way [run] pads them. *)
Lemma padded_tiles_rect (n left right : nat) (tiles : list (image pixel)) :
  0 < n -> left + right = 10 ->
  Forall (rect n n) tiles ->
  Forall (rect (n + 5) (n + 10)) (map (Pad black left 5 right 0) tiles).
Proof.
  intros Hn Hlr Ht. apply Forall_map. eapply Forall_impl; [ | exact Ht].
  intros t Hrt. cbn beta.
  eapply rect_eq; [apply rect_Pad; [exact Hrt | ] | lia | lia].
  apply (rect_cols n n); assumption.
Qed.

(** Lines 161-177 on a frame of [h] rows and [w] columns whose tile fits.  *)
Lemma strips_rect (h w : nat) (raw_frame sr : image pixel) :
  let tile := crop_tile_size (Z.of_nat w) in
  rect h w sr -> 0 < h ->
  (0 < tile)%Z -> (tile <= Z.of_nat h)%Z ->
  exists top_img bottom_img,
    strips black bicubic (Z.of_nat w, Z.of_nat h) raw_frame sr
    = Ok (top_img, bottom_img) /\
    rect (h + 5) (2 * w + 10) top_img /\
    rect (Z.to_nat tile + 5) (10 * (Z.to_nat tile + 10)) bottom_img.
Proof.
  intros tile Hsr Hh Ht Hth.
  assert (Hw : 0 < w).
  { destruct w; [ | lia]. unfold tile, crop_tile_size in Ht. simpl in Ht. lia. }
  assert (Htw : (tile <= Z.of_nat w)%Z).
  { unfold tile, crop_tile_size in *.
    pose proof (Z.div_mod (Z.of_nat w) 5 ltac:(lia)).
    pose proof (Z.mod_pos_bound (Z.of_nat w) 5 ltac:(lia)). lia. }
  unfold strips. cbn [fst snd].
  unfold shape1 at 1. rewrite (rect_cols _ _ _ Hsr Hh). fold tile.
  destruct (FiveCrop_rect h w tile sr Hsr Hh) as (s1 & s2 & s3 & s4 & s5 & -> & Hs);
    try lia.
  cbn [bind].
  destruct (Resize_rect bicubic h w raw_frame bicubic_rect Hh Hw) as (cmp & -> & Hcmp).
  cbn [bind].
  unfold shape1 at 1. rewrite (rect_cols _ _ _ Hcmp Hh). fold tile.
  destruct (FiveCrop_rect h w tile cmp Hcmp Hh) as (c1 & c2 & c3 & c4 & c5 & -> & Hc);
    try lia.
  cbn [bind].
  (* the top strip *)
  assert (Ptop1 : rect (h + 5) (w + 5) (Pad black 0 0 5 5 cmp)).
  { eapply rect_eq; [apply rect_Pad; [exact Hcmp | ] | lia | lia].
    apply (rect_cols h w); assumption. }
  assert (Ptop2 : rect (h + 5) (w + 5) (Pad black 5 0 0 5 sr)).
  { eapply rect_eq; [apply rect_Pad; [exact Hsr | ] | lia | lia].
    apply (rect_cols h w); assumption. }
  destruct (concatenate_axis1_rect (h + 5) (w + 5) (w + 5) (Pad black 0 0 5 5 cmp)
              [Pad black 5 0 0 5 sr] Ptop1 (Forall_cons _ Ptop2 (Forall_nil _)))
    as (top & -> & Htop).
  cbn [bind].
  (* the bottom strip *)
  assert (Hn : 0 < Z.to_nat tile) by lia.
  pose proof (padded_tiles_rect (Z.to_nat tile) 0 10 _ Hn eq_refl Hc) as Pc.
  pose proof (padded_tiles_rect (Z.to_nat tile) 10 0 _ Hn eq_refl Hs) as Ps.
  pose proof (proj2 (Forall_app _ _ _) (conj Pc Ps)) as Pall.
  cbn [map app] in Pall |- *.
  inversion Pall as [ | ? ? Pfirst Prest]; subst.
  destruct (concatenate_axis1_rect _ _ _ _ _ Pfirst Prest) as (bottom & -> & Hbottom).
  cbn [bind].
  exists top, bottom. split; [reflexivity | ]. split.
  - eapply rect_eq; [exact Htop | reflexivity | cbn [length]; lia].
  - eapply rect_eq; [exact Hbottom | reflexivity | cbn [length]; lia].
Qed.

(** Lines 178-184 on strips of those shapes. *)
Lemma stack_strips_rect (h w : nat) (top_img bottom_img : image pixel) :
  let tile := crop_tile_size (Z.of_nat w) in
  (0 < tile)%Z -> (2 * Z.of_nat w + 10 < 2 ^ 31)%Z ->
  rect (h + 5) (2 * w + 10) top_img ->
  rect (Z.to_nat tile + 5) (10 * (Z.to_nat tile + 10)) bottom_img ->
  exists final,
    stack_strips bilinear top_img bottom_img = Ok final /\
    rect (h + 5 + (Z.to_nat tile + 5)) (2 * w + 10) final.
Proof.
  intros tile Ht Hw Htop Hbottom. unfold stack_strips, shape0, shape1.
  rewrite (rect_cols _ _ _ Htop ltac:(lia)).
  rewrite (rect_cols _ _ _ Hbottom ltac:(lia)).
  rewrite (rect_rows _ _ _ Hbottom).
  replace (Z.of_nat (2 * w + 10)) with (2 * Z.of_nat w + 10)%Z by lia.
  replace (Z.of_nat (10 * (Z.to_nat tile + 10))) with (10 * (tile + 10))%Z by lia.
  replace (Z.of_nat (Z.to_nat tile + 5)) with (tile + 5)%Z by lia.
  unfold tile. rewrite bottom_img_height_exact by assumption. fold tile.
  cbn [bind].
  replace (tile + 5)%Z with (Z.of_nat (Z.to_nat tile + 5)) by lia.
  replace (2 * Z.of_nat w + 10)%Z with (Z.of_nat (2 * w + 10)) by lia.
  destruct (Resize_rect bilinear (Z.to_nat tile + 5) (2 * w + 10) bottom_img
              bilinear_rect ltac:(lia) ltac:(lia)) as (b & -> & Hb).
  cbn [bind].
  apply concatenate_axis0_rect; try assumption; lia.
Qed.

(** The comparison frame of a frame whose tile fits (lines 161-184). *)
Lemma final_image_rect (h w : nat) (raw_frame sr : image pixel) :
  let tile := crop_tile_size (Z.of_nat w) in
  rect h w sr -> 0 < h ->
  (0 < tile)%Z -> (tile <= Z.of_nat h)%Z -> (2 * Z.of_nat w + 10 < 2 ^ 31)%Z ->
  exists final,
    final_image black bicubic bilinear (Z.of_nat w, Z.of_nat h) raw_frame sr
    = Ok final /\
    rect (h + 10 + Z.to_nat tile) (2 * w + 10) final.
Proof.
  intros tile Hsr Hh Ht Hth Hw. unfold final_image.
  destruct (strips_rect h w raw_frame sr Hsr Hh Ht Hth)
    as (top & bottom & -> & Htop & Hbottom).
  cbn [bind fst snd].
  destruct (stack_strips_rect h w top bottom Ht Hw Htop Hbottom) as (final & -> & Hf).
  exists final. split; [reflexivity | ].
  eapply rect_eq; [exact Hf | lia | reflexivity].
Qed.

(** A tile taller than the frame stops the compositor. *)
Lemma final_image_too_big (h w : nat) (raw_frame sr : image pixel) sr_size :
  rect h w sr -> 0 < h ->
  (Z.of_nat h < crop_tile_size (Z.of_nat w))%Z ->
  final_image black bicubic bilinear sr_size raw_frame sr = Err ValueError.
Proof.
  intros Hsr Hh Hbig. unfold final_image, strips.
  unfold shape1 at 1. rewrite (rect_cols _ _ _ Hsr Hh).
  rewrite (FiveCrop_too_big h w _ sr Hsr Hh) by (right; exact Hbig).
  reflexivity.
Qed.

End CompositorShapes.

(* ===================================================================== *)
(** * The processing loop *)
(* ===================================================================== *)

Section LoopFacts.

Context {pixel : Type}.
Variable black : pixel.
Variable model : image pixel -> image pixel.
Variable bicubic : nat -> nat -> image pixel -> image pixel.
Variable bilinear : nat -> nat -> image pixel -> image pixel.

Local Abbreviation step_of := (iteration black model bicubic bilinear).
Local Abbreviation loop_of := (loop black model bicubic bilinear).
Local Abbreviation run_of := (Video_run black model bicubic bilinear).
Local Abbreviation comparison_of := (comparison black model bicubic bilinear).
Local Abbreviation pass_of := (pass black model bicubic bilinear).

Lemma do_read_effect (st : run_state pixel) :
  sr_frames (snd (do_read st)) = sr_frames st /\
  compare_frames (snd (do_read st)) = compare_frames st /\
  rs_keys (snd (do_read st)) = rs_keys st /\
  rs_log (snd (do_read st)) = rs_log st ++ [EvRead] /\
  upcoming (fst (do_read st)) (snd (do_read st)) = cap_pending (rs_capture st).
Proof.
  unfold do_read, read, upcoming, sr_frames, compare_frames.
  destruct (cap_pending (rs_capture st)) as [ | f rest]; cbn; auto.
Qed.

Ltac read_next :=
  match goal with
  | |- context [do_read ?s] =>
      let H := fresh "Hread" in
      pose proof (do_read_effect s) as H;
      destruct (do_read s) as [next st'];
      cbn [fst snd] in H;
      destruct H as (Hsr & Hcmp & Hkeys & Hlog & Hup)
  end.

Lemma iteration_pass (v : Video pixel) (raw : image pixel) (st : run_state pixel) :
  pass_of v raw st (step_of v (Some raw) st).
Proof.
  unfold iteration.
  fold (comparison black model bicubic bilinear v raw).
  destruct (comparison_of v raw) as [c | e] eqn:Ec.
  - destruct (view (args v)) eqn:Ev.
    + unfold do_waitKey. cbn [rs_keys log do_write_compare do_write_sr].
      destruct (rs_keys st) as [ | k ks] eqn:Ek.
      * change (Z.land (-1) 255 =? ord "q")%Z with false. cbv iota.
        read_next.
        apply pass_continue with (c := c); rewrite ?Ev, ?Ek, ?Hsr, ?Hcmp, ?Hkeys, ?Hlog, ?Hup;
          try assumption; try reflexivity;
          unfold sr_frames, compare_frames, frame_events;
          cbn; rewrite <- ?app_assoc; reflexivity.
      * fold (is_quit k). destruct (is_quit k) eqn:Eq.
        -- apply pass_break with (c := c); rewrite ?Ek; try assumption;
             unfold sr_frames, compare_frames, frame_events;
             cbn; rewrite <- ?app_assoc; reflexivity.
        -- read_next.
           apply pass_continue with (c := c);
             rewrite ?Ev, ?Ek, ?Hsr, ?Hcmp, ?Hkeys, ?Hlog, ?Hup;
             try assumption; try (intros; assumption); try reflexivity;
             unfold sr_frames, compare_frames, frame_events;
             cbn; rewrite <- ?app_assoc; reflexivity.
    + read_next.
      apply pass_continue with (c := c);
        rewrite ?Ev, ?Hsr, ?Hcmp, ?Hkeys, ?Hlog, ?Hup;
        try assumption; try (intros; discriminate); try reflexivity;
        unfold sr_frames, compare_frames;
        cbn; rewrite <- ?app_assoc; reflexivity.
  - apply pass_raise; try assumption;
      unfold sr_frames, compare_frames; cbn; rewrite <- ?app_assoc; reflexivity.
Qed.

(** The sinks after the loop: the network's output and the comparison
    frames of a prefix of the upcoming frames, in order. *)
Lemma loop_sinks (v : Video pixel) (n : nat) :
  forall (raw : option (image pixel)) (st : run_state pixel),
  exists (j : nat) (cs : list (image pixel)),
    j <= n /\ j <= length (upcoming raw st) /\
    (0 < n -> upcoming raw st <> [] -> 0 < j) /\
    sr_frames (final_state (loop_of v n raw st))
    = sr_frames st ++ map model (firstn j (upcoming raw st)) /\
    compare_frames (final_state (loop_of v n raw st)) = compare_frames st ++ cs /\
    match loop_of v n raw st with
    | Returned _ =>
        Forall2 (fun f c => comparison_of v f = Ok c) (firstn j (upcoming raw st)) cs
    | Raised e _ =>
        exists j0 f,
          j = S j0 /\
          Forall2 (fun f c => comparison_of v f = Ok c) (firstn j0 (upcoming raw st)) cs /\
          nth_error (upcoming raw st) j0 = Some f /\
          comparison_of v f = Err e
    end.
Proof.
  induction n as [ | n IH]; intros raw st.
  - exists 0, []. cbn. rewrite !app_nil_r.
    repeat split; try lia. constructor.
  - destruct raw as [f | ].
    + cbn [loop upcoming].
      pose proof (iteration_pass v f st) as P.
      remember (step_of v (Some f) st) as fl eqn:Efl. clear Efl.
      destruct P as [e st' Hc Hsr Hcmp Hlog
                    | c st' Hc Hv Hq Hsr Hcmp Hkeys Hlog
                    | c next st' Hc Hq Hsr Hcmp Hkeys Hlog Hup].
      * exists 1, []. cbn [final_state firstn map length].
        rewrite Hsr, Hcmp, app_nil_r.
        repeat split; try lia.
        exists 0, f. repeat split; [constructor | exact Hc].
      * exists 1, [c]. cbn [final_state firstn map length].
        rewrite Hsr, Hcmp.
        repeat split; try lia. repeat constructor. exact Hc.
      * destruct (IH next st') as (j & cs & Hjn & Hjl & Hpos & Esr & Ecmp & Ho).
        rewrite Hup in *.
        exists (S j), (c :: cs). cbn [firstn map length].
        rewrite Esr, Ecmp, Hsr, Hcmp, <- !app_assoc.
        repeat split; try lia.
        destruct (loop black model bicubic bilinear v n next st') as [st2 | e st2].
        -- constructor; assumption.
        -- destruct Ho as (j0 & f0 & -> & HF & Hnth & He).
           exists (S j0), f0. repeat split; try assumption.
           cbn [firstn]. constructor; assumption.
    + cbn [loop iteration].
      destruct (IH None st) as (j & cs & Hjn & Hjl & Hpos & Esr & Ecmp & Ho).
      exists j, cs. repeat split; try assumption; try lia.
      intros _ H. exfalso. apply H. reflexivity.
Qed.

Ltac one_pass v f st :=
  let P := fresh "P" in
  let fl := fresh "fl" in
  let Efl := fresh "Efl" in
  cbn [loop];
  pose proof (iteration_pass v f st) as P;
  remember (step_of v (Some f) st) as fl eqn:Efl; clear Efl;
  destruct P as [e st' Hc Hsr Hcmp Hlog
                | c st' Hc Hv Hq Hsr Hcmp Hkeys Hlog
                | c next st' Hc Hq Hsr Hcmp Hkeys Hlog Hup].


Lemma not_quit_no_key : is_quit (-1) = false.
Proof. reflexivity. Qed.

Lemma hd_not_quit (keys : list Z) :
  Forall (fun k => is_quit k = false) keys -> is_quit (hd (-1)%Z keys) = false.
Proof. intros [ | k ks Hk _]; [reflexivity | exact Hk]. Qed.

(** Without a quit key, and while the compositor succeeds, the loop
    processes every frame it is given, up to its iteration count. *)
Lemma loop_all (v : Video pixel) (n : nat) :
  forall (raw : option (image pixel)) (st : run_state pixel),
  view (args v) = false \/ Forall (fun k => is_quit k = false) (rs_keys st) ->
  (forall f, In f (firstn n (upcoming raw st)) -> exists c, comparison_of v f = Ok c) ->
  exists st' cs,
    loop_of v n raw st = Returned st' /\
    sr_frames st' = sr_frames st ++ map model (firstn n (upcoming raw st)) /\
    compare_frames st' = compare_frames st ++ cs /\
    Forall2 (fun f c => comparison_of v f = Ok c) (firstn n (upcoming raw st)) cs.
Proof.
  induction n as [ | n IH]; intros raw st Hkeys0 Hok.
  - exists st, []. cbn. rewrite !app_nil_r. repeat split. constructor.
  - destruct raw as [f | ].
    + destruct (Hok f) as (c0 & Hc0); [cbn; left; reflexivity | ].
      one_pass v f st.
      * congruence.
      * exfalso. destruct Hkeys0 as [H | H]; [congruence | ].
        rewrite (hd_not_quit _ H) in Hq. discriminate.
      * destruct (IH next st') as (st2 & cs & E & Esr & Ecmp & HF).
        { destruct Hkeys0 as [H | H]; [left; exact H | right].
          rewrite Hkeys. destruct (view (args v)); [ | exact H].
          destruct (rs_keys st); [constructor | inversion H; assumption]. }
        { intros g Hg. apply Hok. cbn [upcoming firstn]. right.
          rewrite Hup in Hg. exact Hg. }
        rewrite Hup in *. exists st2, (c :: cs). cbn [upcoming firstn map].
        rewrite E, Esr, Ecmp, Hsr, Hcmp, <- !app_assoc.
        repeat split. constructor; assumption.
    + cbn [loop iteration].
      destruct (IH None st Hkeys0) as (st2 & cs & E & Esr & Ecmp & HF).
      { intros g Hg. cbn [upcoming] in Hg. rewrite firstn_nil in Hg. destruct Hg. }
      exists st2, cs. cbn [upcoming] in *. rewrite firstn_nil in *.
      repeat split; assumption.
Qed.

(** In interactive mode, a quit key at the [k+1]-th poll stops the loop
    after [k+1] frames; the log shows one poll per frame, after both writes. *)
Lemma loop_cancel (v : Video pixel) (k : nat) :
  forall (n : nat) (raw : option (image pixel)) (st : run_state pixel)
         (ks : list Z) (kq : Z) (rest : list Z),
  view (args v) = true ->
  rs_keys st = ks ++ kq :: rest -> length ks = k ->
  Forall (fun k => is_quit k = false) ks -> is_quit kq = true ->
  k < n -> k < length (upcoming raw st) ->
  (forall f, In f (firstn (S k) (upcoming raw st)) -> exists c, comparison_of v f = Ok c) ->
  exists st' cs,
    loop_of v n raw st = Returned st' /\
    sr_frames st' = sr_frames st ++ map model (firstn (S k) (upcoming raw st)) /\
    compare_frames st' = compare_frames st ++ cs /\
    Forall2 (fun f c => comparison_of v f = Ok c) (firstn (S k) (upcoming raw st)) cs /\
    rs_log st' = rs_log st ++ concat (repeat (frame_events ++ [EvRead]) k)
                           ++ frame_events.
Proof.
  induction k as [ | k IH]; intros n raw st ks kq rest Hview Hkeys0 Hlen Hks Hkq Hn Hfs Hok;
    (destruct n as [ | n]; [lia | ]);
    (destruct raw as [f | ]; [ | cbn in Hfs; lia]);
    (destruct (Hok f) as (c0 & Hc0); [cbn; left; reflexivity | ]).
  - destruct ks; [ | discriminate]. cbn [app] in Hkeys0.
    one_pass v f st.
    + congruence.
    + exists st', [c]. cbn [upcoming firstn map concat repeat app].
      rewrite Hsr, Hcmp, Hlog. repeat split. repeat constructor. exact Hc.
    + exfalso. rewrite Hkeys0 in Hq. cbn [hd] in Hq.
      rewrite (Hq Hview) in Hkq. discriminate.
  - destruct ks as [ | k0 ks]; [discriminate | ]. cbn [app] in Hkeys0.
    inversion Hks as [ | ? ? Hk0 Hks']; subst.
    one_pass v f st.
    + congruence.
    + exfalso. rewrite Hkeys0 in Hq. cbn [hd] in Hq. congruence.
    + rewrite Hview, Hkeys0 in Hkeys. cbn [tl] in Hkeys.
      cbn [upcoming length] in Hfs.
      destruct (IH n next st' ks kq rest Hview Hkeys ltac:(cbn in Hlen; lia) Hks' Hkq
                  ltac:(lia) ltac:(rewrite Hup; lia))
        as (st2 & cs & E & Esr & Ecmp & HF & El).
      { intros g Hg. apply Hok. cbn [upcoming firstn]. right.
        rewrite Hup in Hg. exact Hg. }
      rewrite Hup in *. exists st2, (c :: cs). cbn [upcoming firstn map].
      rewrite E, Esr, Ecmp, El, Hsr, Hcmp, Hlog, Hview.
      cbn [repeat concat]. rewrite <- !app_assoc.
      repeat split. constructor; assumption.
Qed.


End LoopFacts.

(* ===================================================================== *)
(** * Runs of [Video] *)
(* ===================================================================== *)

Section RunFacts.

Context {pixel : Type}.
Variable black : pixel.
Variable model : image pixel -> image pixel.
Variable bicubic : nat -> nat -> image pixel -> image pixel.
Variable bilinear : nat -> nat -> image pixel -> image pixel.

Local Abbreviation loop_of := (loop black model bicubic bilinear).
Local Abbreviation run_of := (Video_run black model bicubic bilinear).
Local Abbreviation comparison_of := (comparison black model bicubic bilinear).

(** [run] reads one frame, then loops [total_frames] times. *)
Lemma Video_run_start (v : Video pixel) (keys : list Z) :
  exists raw st0,
    run_of v keys = loop_of v (Z.to_nat (total_frames v)) raw st0 /\
    sr_frames st0 = vw_frames (sr_writer v) /\
    compare_frames st0 = vw_frames (compare_writer v) /\
    rs_keys st0 = keys /\
    rs_log st0 = [EvRead] /\
    upcoming raw st0 = cap_pending (video_capture v).
Proof.
  unfold Video_run.
  pose proof (do_read_effect (start v keys)) as (Hsr & Hcmp & Hkeys & Hlog & Hup).
  destruct (do_read (start v keys)) as [raw st0]. cbn [fst snd] in *.
  exists raw, st0. repeat split; assumption.
Qed.

(** What [__init__] hands to [run] for a file that opens. *)
Lemma Video_init_opened (disk : string -> option (video_file pixel)) (a : Args)
      (f : video_file pixel) :
  disk (file a) = Some f ->
  let v := Video_init disk a in
  args v = a /\
  total_frames v = vf_frame_count f /\
  sr_size v = (vf_frame_width f * upscale_factor a,
               vf_frame_height f * upscale_factor a)%Z /\
  cap_pending (video_capture v) = vf_frames f /\
  vw_frames (sr_writer v) = [] /\
  vw_frames (compare_writer v) = [].
Proof.
  intros Hf. unfold Video_init, VideoCapture_open. rewrite Hf. cbn.
  repeat split.
Qed.

Lemma Forall_firstn_of {A : Type} (P : A -> Prop) (n : nat) (l : list A) :
  Forall P l -> Forall P (firstn n l).
Proof.
  intros H. apply Forall_forall. intros x Hx. rewrite Forall_forall in H.
  apply H. rewrite <- (firstn_skipn n l). apply in_or_app. left. exact Hx.
Qed.

Lemma Forall2_image {A B : Type} (R : A -> B -> Prop) (P : A -> Prop) (Q : B -> Prop)
      (l : list A) (l' : list B) :
  (forall a b, P a -> R a b -> Q b) ->
  Forall P l -> Forall2 R l l' -> Forall Q l'.
Proof.
  intros H HP HR. induction HR as [ | a b l l' Hab HR IH].
  - constructor.
  - inversion HP; subst. constructor; eauto.
Qed.



(** The sinks after a run of any [Video]. *)
Lemma Video_run_sinks (v : Video pixel) (keys : list Z) :
  exists (j : nat) (cs : list (image pixel)),
    let fs := cap_pending (video_capture v) in
    let o := run_of v keys in
    j <= length fs /\
    (0 < Z.to_nat (total_frames v) -> fs <> [] -> 0 < j) /\
    sr_frames (final_state o) = vw_frames (sr_writer v) ++ map model (firstn j fs) /\
    compare_frames (final_state o) = vw_frames (compare_writer v) ++ cs /\
    match o with
    | Returned _ => Forall2 (fun f c => comparison_of v f = Ok c) (firstn j fs) cs
    | Raised e _ =>
        exists j0 f,
          j = S j0 /\
          Forall2 (fun f c => comparison_of v f = Ok c) (firstn j0 fs) cs /\
          nth_error fs j0 = Some f /\ comparison_of v f = Err e
    end.
Proof.
  destruct (Video_run_start v keys) as (raw & st0 & -> & Hsr & Hcmp & _ & _ & Hup).
  destruct (loop_sinks black model bicubic bilinear v (Z.to_nat (total_frames v)) raw st0)
    as (j & cs & _ & Hj & Hpos & Esr & Ecmp & Ho).
  rewrite Hup, Hsr in *. rewrite Hcmp in Ecmp.
  exists j, cs. cbv zeta. repeat split; assumption.
Qed.

End RunFacts.

(* ===================================================================== *)
(** * The sample kernels meet the assumptions made on kernels *)
(* ===================================================================== *)

Lemma Sample_nearest_rect (h w : nat) (img : image nat) :
  rect h w (Sample.nearest h w img).
Proof.
  unfold Sample.nearest. split.
  - rewrite length_map, length_seq. reflexivity.
  - apply Forall_map. apply Forall_forall. intros y _.
    rewrite length_map, length_seq. reflexivity.
Qed.

Lemma Sample_kernel_rect (h w : nat) (img : image nat) :
  0 < h -> 0 < w -> rect h w (Sample.nearest h w img).
Proof. intros _ _. apply Sample_nearest_rect. Qed.

Lemma Sample_net_scales (u : nat) (h w : nat) (img : image nat) :
  rect h w img ->
  rect (Z.to_nat (Z.of_nat h * Z.of_nat u)) (Z.to_nat (Z.of_nat w * Z.of_nat u))
       (Sample.net u img).
Proof.
  intros Hr. unfold Sample.net.
  rewrite <- !Nat2Z.inj_mul, !Nat2Z.id.
  rewrite (rect_rows _ _ _ Hr).
  destruct h as [ | h].
  - destruct Hr as [Hl _]. destruct img; [ | discriminate]. cbn.
    split; [reflexivity | constructor].
  - rewrite (rect_cols _ _ _ Hr ltac:(lia)). apply Sample_nearest_rect.
Qed.

(** Every frame of the sample clip gets its comparison frame. *)
Lemma Sample_clip_composites (show : bool) (raw : image nat) :
  In raw (vf_frames Sample.clip) ->
  exists c,
    comparison 0 (Sample.net 2) Sample.nearest Sample.nearest
      (Video_init Sample.disk (Sample.cli "videos/clip.mp4" 2 show)) raw = Ok c.
Proof.
  intros Hin. cbn [vf_frames Sample.clip In] in Hin.
  destruct Hin as [<- | [<- | [<- | []]]]; destruct show;
    eexists; vm_compute; reflexivity.
Qed.

(* ===================================================================== *)
(** * The derived geometry (section 3 of the specification) *)
(* ===================================================================== *)

(** C1: for every opened source stream with frame size (frameWidth,
    frameHeight) and upscale factor u, [__init__] derives
    srSize = (frameWidth * u, frameHeight * u),
    compareSize.width = srSize.width * 2 + 10 and
    compareSize.height = srSize.height + 10 + (srSize.width // 5 - 9), from
    the stream's metadata, and opens the two writers with these sizes. *)
Theorem init_geometry (pixel : Type) (disk : string -> option (video_file pixel))
        (a : Args) (f : video_file pixel) :
  disk (file a) = Some f ->
  let v := Video_init disk a in
  size v = (vf_frame_width f, vf_frame_height f) /\
  sr_size v = (vf_frame_width f * upscale_factor a,
               vf_frame_height f * upscale_factor a)%Z /\
  fst (pare_size v) = (fst (sr_size v) * 2 + 10)%Z /\
  snd (pare_size v) = (snd (sr_size v) + 10 + (fst (sr_size v) / 5 - 9))%Z /\
  vw_frameSize (sr_writer v) = sr_size v /\
  vw_frameSize (compare_writer v) = pare_size v.
Proof.
  intros Hf. unfold Video_init, VideoCapture_open. rewrite Hf. cbn.
  repeat split. lia.
Qed.

(** The specification's example: 64 x 64 frames at factor 4 give
    srSize = (256, 256) and compareSize = (522, 308). *)
Lemma init_geometry_witness :
  Sample.disk "videos/film.mp4" = Some Sample.film /\
  let v := Video_init Sample.disk (Sample.cli "videos/film.mp4" 4 false) in
  sr_size v = (256, 256)%Z /\ pare_size v = (522, 308)%Z.
Proof.
  split; [reflexivity | ].
  pose proof (init_geometry nat Sample.disk (Sample.cli "videos/film.mp4" 4 false)
                            Sample.film eq_refl) as H.
  cbv zeta in *. destruct H as (_ & Hsr & Hw & Hh & _).
  split; [exact Hsr | ].
  rewrite (surjective_pairing (pare_size _)), Hw, Hh, Hsr. reflexivity.
Defined.

(* ===================================================================== *)
(** * Sizes of the frames that reach the sinks *)
(* ===================================================================== *)

Section FrameSizes.

Context {pixel : Type}.
Variable black : pixel.
Variable model : image pixel -> image pixel.
Variable bicubic : nat -> nat -> image pixel -> image pixel.
Variable bilinear : nat -> nat -> image pixel -> image pixel.

Hypothesis bicubic_rect :
  forall h w img, 0 < h -> 0 < w -> rect h w (bicubic h w img).
Hypothesis bilinear_rect :
  forall h w img, 0 < h -> 0 < w -> rect h w (bilinear h w img).

Local Abbreviation comparison_of := (comparison black model bicubic bilinear).

(** The comparison frame of one raw frame whose transformed frame has the
    contracted size: made whenever the tile fits, and of the size of
    [pare_size] whenever made. *)
Lemma comparison_shape (v : Video pixel) (raw : image pixel) (h w : nat) :
  sr_size v = (Z.of_nat w, Z.of_nat h) ->
  rect h w (model raw) -> 0 < h ->
  (0 < crop_tile_size (Z.of_nat w))%Z ->
  (2 * Z.of_nat w + 10 < 2 ^ 31)%Z ->
  ((crop_tile_size (Z.of_nat w) <= Z.of_nat h)%Z ->
   exists c, comparison_of v raw = Ok c) /\
  (forall c, comparison_of v raw = Ok c ->
             rect (h + 10 + Z.to_nat (crop_tile_size (Z.of_nat w))) (2 * w + 10) c).
Proof.
  intros Hsize Hsr Hh Htile Hw. unfold comparison. rewrite Hsize.
  destruct (Z_le_gt_dec (crop_tile_size (Z.of_nat w)) (Z.of_nat h)) as [Hfit | Hbig].
  - destruct (final_image_rect black bicubic bilinear bicubic_rect bilinear_rect
                h w raw (model raw) Hsr Hh Htile Hfit Hw) as (c & Ec & Hc).
    split.
    + intros _. exists c. exact Ec.
    + intros c' Ec'. rewrite Ec in Ec'. injection Ec' as <-. exact Hc.
  - split; [lia | ].
    intros c Ec.
    rewrite (final_image_too_big black bicubic bilinear h w raw (model raw) _ Hsr Hh)
      in Ec by lia.
    discriminate.
Qed.

End FrameSizes.

(** C2: in a run with cropTileSize > 0 (and a comparison width below 2^31,
    the range in which the float arithmetic of line 178 is exact), over
    frames of the size the stream announces and a network that enlarges by
    the upscale factor, every frame written to the upscaled sink has exactly
    the size srSize and every comparison frame that the compositing steps
    produce has exactly the size compareSize; the compositor does produce one
    for every frame when the tile is not taller than the frame. *)
Theorem written_frames_have_contracted_sizes
        (pixel : Type) (black : pixel) (model : image pixel -> image pixel)
        (bicubic bilinear : nat -> nat -> image pixel -> image pixel)
        (disk : string -> option (video_file pixel)) (a : Args)
        (f : video_file pixel) (keys : list Z) :
  (forall h w img, 0 < h -> 0 < w -> rect h w (bicubic h w img)) ->
  (forall h w img, 0 < h -> 0 < w -> rect h w (bilinear h w img)) ->
  (forall h w img,
      rect h w img ->
      rect (Z.to_nat (Z.of_nat h * upscale_factor a))
           (Z.to_nat (Z.of_nat w * upscale_factor a)) (model img)) ->
  disk (file a) = Some f ->
  (0 < vf_frame_width f)%Z -> (0 < vf_frame_height f)%Z ->
  (0 < upscale_factor a)%Z ->
  Forall (rect (Z.to_nat (vf_frame_height f)) (Z.to_nat (vf_frame_width f)))
         (vf_frames f) ->
  let v := Video_init disk a in
  (0 < crop_tile_size (fst (sr_size v)))%Z ->
  (fst (pare_size v) < 2 ^ 31)%Z ->
  let o := Video_run black model bicubic bilinear v keys in
  Forall (rect (Z.to_nat (snd (sr_size v))) (Z.to_nat (fst (sr_size v))))
         (sr_frames (final_state o)) /\
  Forall (rect (Z.to_nat (snd (pare_size v))) (Z.to_nat (fst (pare_size v))))
         (compare_frames (final_state o)) /\
  ((crop_tile_size (fst (sr_size v)) <= snd (sr_size v))%Z ->
   forall raw, In raw (vf_frames f) ->
               exists c, comparison black model bicubic bilinear v raw = Ok c).
Proof.
  intros Hbic Hbil Hmodel Hf Hw0 Hh0 Hu Hframes v Htile Hpare o.
  destruct (init_geometry pixel disk a f Hf) as (_ & Hsr & Hpw & Hph & _).
  destruct (Video_init_opened disk a f Hf) as (_ & _ & _ & Hpend & Hs0 & Hc0).
  fold v in Hsr, Hpw, Hph, Hpend, Hs0, Hc0.
  set (W := Z.to_nat (vf_frame_width f * upscale_factor a)).
  set (H := Z.to_nat (vf_frame_height f * upscale_factor a)).
  assert (HWpos : (0 < vf_frame_width f * upscale_factor a)%Z) by lia.
  assert (HHpos : (0 < vf_frame_height f * upscale_factor a)%Z) by lia.
  assert (Hsize : sr_size v = (Z.of_nat W, Z.of_nat H)).
  { rewrite Hsr. unfold W, H. rewrite !Z2Nat.id by lia. reflexivity. }
  assert (EW : fst (sr_size v) = Z.of_nat W) by (rewrite Hsize; reflexivity).
  assert (EH : snd (sr_size v) = Z.of_nat H) by (rewrite Hsize; reflexivity).
  rewrite EW in Htile, Hpw, Hph. rewrite EH in Hph. rewrite Hpw in Hpare.
  assert (Hmodel' : forall raw, In raw (vf_frames f) -> rect H W (model raw)).
  { intros raw Hin. rewrite Forall_forall in Hframes.
    pose proof (Hmodel _ _ _ (Hframes raw Hin)) as Hm.
    rewrite !Z2Nat.id in Hm by lia. exact Hm. }
  assert (Hshape : forall raw, In raw (vf_frames f) ->
            ((crop_tile_size (Z.of_nat W) <= Z.of_nat H)%Z ->
             exists c, comparison black model bicubic bilinear v raw = Ok c) /\
            (forall c, comparison black model bicubic bilinear v raw = Ok c ->
               rect (H + 10 + Z.to_nat (crop_tile_size (Z.of_nat W))) (2 * W + 10) c)).
  { intros raw Hin.
    apply comparison_shape; try assumption; try lia. apply Hmodel'; exact Hin. }
  assert (EPh : Z.to_nat (snd (pare_size v))
                = H + 10 + Z.to_nat (crop_tile_size (Z.of_nat W))).
  { rewrite Hph. unfold crop_tile_size in *.
    set (q := (Z.of_nat W / 5)%Z) in *. lia. }
  assert (EPw : Z.to_nat (fst (pare_size v)) = 2 * W + 10) by (rewrite Hpw; lia).
  rewrite EW, EH, EPh, EPw, !Nat2Z.id.
  destruct (Video_run_sinks black model bicubic bilinear v keys)
    as (j & cs & Hj & _ & Esr & Ecmp & Ho).
  fold o in Esr, Ecmp, Ho. rewrite Hpend, Hs0 in Esr. rewrite Hc0 in Ecmp.
  rewrite Hpend in Ho. cbn [app] in Esr, Ecmp.
  assert (Hin_firstn : forall n raw, In raw (firstn n (vf_frames f)) ->
                                     In raw (vf_frames f)).
  { intros n raw Hin. rewrite <- (firstn_skipn n (vf_frames f)).
    apply in_or_app. left. exact Hin. }
  split; [ | split].
  - rewrite Esr. apply Forall_map. apply Forall_forall. intros raw Hin.
    apply Hmodel'. eapply Hin_firstn. exact Hin.
  - rewrite Ecmp.
    assert (Hgen : forall n, Forall2 (fun f0 c => comparison black model bicubic bilinear v f0 = Ok c)
                                     (firstn n (vf_frames f)) cs ->
                   Forall (rect (H + 10 + Z.to_nat (crop_tile_size (Z.of_nat W)))
                                (2 * W + 10)) cs).
    { intros n HF.
      apply (Forall2_image _ (fun raw => In raw (vf_frames f)) _ _ _
               (fun raw c Hin Hc => proj2 (Hshape raw Hin) c Hc)) in HF; [exact HF | ].
      apply Forall_forall. intros raw Hin. eapply Hin_firstn. exact Hin. }
    destruct o as [st | e st].
    + apply (Hgen j). exact Ho.
    + destruct Ho as (j0 & f0 & _ & HF & _). apply (Hgen j0). exact HF.
  - intros Hfit raw Hin. apply (proj1 (Hshape raw Hin)). exact Hfit.
Qed.

(** The sample clip: frames of 25 x 2 at factor 2, srSize = (50, 4),
    tile 1, compareSize = (110, 15). *)
Lemma written_frames_have_contracted_sizes_witness :
  let v := Video_init Sample.disk (Sample.cli "videos/clip.mp4" 2 false) in
  let o := Sample.run "videos/clip.mp4" false [] in
  Forall (rect 4 50) (sr_frames (final_state o)) /\
  Forall (rect 15 110) (compare_frames (final_state o)) /\
  ((1 <= 4)%Z ->
   forall raw, In raw (vf_frames Sample.clip) ->
               exists c, comparison 0 (Sample.net 2) Sample.nearest Sample.nearest v raw
                         = Ok c).
Proof.
  apply (written_frames_have_contracted_sizes
           nat 0 (Sample.net 2) Sample.nearest Sample.nearest Sample.disk
           (Sample.cli "videos/clip.mp4" 2 false) Sample.clip []
           Sample_kernel_rect Sample_kernel_rect (Sample_net_scales 2) eq_refl).
  - reflexivity.
  - reflexivity.
  - reflexivity.
  - repeat constructor.
  - reflexivity.
  - reflexivity.
Defined.

(* ===================================================================== *)
(** * Complete runs, cancelled runs, failed runs *)
(* ===================================================================== *)

(** C6: when the source holds the N frames it announces, every one of them
    is read and composited, and no quit key is seen (or nothing is shown),
    the run returns with exactly N frames in the upscaled sink and N in the
    comparison sink, in source order: the network's output and the
    comparison frame of the 1st, 2nd, ... N-th source frame. *)
Theorem every_frame_reaches_both_sinks
        (pixel : Type) (black : pixel) (model : image pixel -> image pixel)
        (bicubic bilinear : nat -> nat -> image pixel -> image pixel)
        (disk : string -> option (video_file pixel)) (a : Args)
        (f : video_file pixel) (keys : list Z) :
  disk (file a) = Some f ->
  vf_frame_count f = Z.of_nat (length (vf_frames f)) ->
  view a = false \/ Forall (fun k => is_quit k = false) keys ->
  let v := Video_init disk a in
  (forall raw, In raw (vf_frames f) ->
               exists c, comparison black model bicubic bilinear v raw = Ok c) ->
  exists st,
    Video_run black model bicubic bilinear v keys = Returned st /\
    length (sr_frames st) = length (vf_frames f) /\
    length (compare_frames st) = length (vf_frames f) /\
    sr_frames st = map model (vf_frames f) /\
    Forall2 (fun raw c => comparison black model bicubic bilinear v raw = Ok c)
            (vf_frames f) (compare_frames st).
Proof.
  intros Hf Hcount Hkeys v Hok.
  destruct (Video_init_opened disk a f Hf) as (Hargs & Htot & _ & Hpend & Hs0 & Hc0).
  fold v in Hargs, Htot, Hpend, Hs0, Hc0.
  destruct (Video_run_start black model bicubic bilinear v keys)
    as (raw & st0 & -> & Hsr & Hcmp & Hk & _ & Hup).
  rewrite Htot, Hcount, Nat2Z.id.
  destruct (loop_all black model bicubic bilinear v (length (vf_frames f)) raw st0)
    as (st & cs & E & Esr & Ecmp & HF).
  { rewrite Hargs, Hk. exact Hkeys. }
  { intros g Hg. apply Hok. rewrite Hup, Hpend, firstn_all in Hg. exact Hg. }
  rewrite Hup, Hpend, firstn_all in Esr, HF.
  rewrite Hsr, Hs0 in Esr. rewrite Hcmp, Hc0 in Ecmp. cbn [app] in Esr, Ecmp.
  exists st. rewrite Ecmp, Esr, length_map.
  repeat split; try assumption.
  symmetry. eapply Forall2_length. exact HF.
Qed.

(** The sample clip, not shown: its three frames reach both sinks. *)
Lemma every_frame_reaches_both_sinks_witness :
  exists st,
    Sample.run "videos/clip.mp4" false [] = Returned st /\
    length (sr_frames st) = 3 /\
    length (compare_frames st) = 3 /\
    sr_frames st = map (Sample.net 2) (vf_frames Sample.clip) /\
    Forall2 (fun raw c =>
               comparison 0 (Sample.net 2) Sample.nearest Sample.nearest
                 (Video_init Sample.disk (Sample.cli "videos/clip.mp4" 2 false)) raw
               = Ok c)
            (vf_frames Sample.clip) (compare_frames st).
Proof.
  apply (every_frame_reaches_both_sinks
           nat 0 (Sample.net 2) Sample.nearest Sample.nearest Sample.disk
           (Sample.cli "videos/clip.mp4" 2 false) Sample.clip [] eq_refl eq_refl
           (or_introl eq_refl)).
  exact (Sample_clip_composites false).
Defined.

Lemma polls_app (l1 l2 : list event) : polls (l1 ++ l2) = polls l1 + polls l2.
Proof. unfold polls. rewrite filter_app, length_app. reflexivity. Qed.

Lemma polls_frames (n : nat) :
  polls (concat (repeat (frame_events ++ [EvRead]) n)) = n.
Proof.
  induction n as [ | n IH]; [reflexivity | ].
  cbn [repeat concat]. rewrite polls_app, IH. reflexivity.
Qed.

(** C7: in interactive mode, when the quit key is the answer to the k-th
    poll (after frame k has been written to both sinks), the run returns
    normally, without an exception, with exactly the first k frames in each
    sink; the log shows one poll per frame, after the two writes and the
    display of that frame, and so k polls in all. *)
Theorem cancel_keeps_whole_frames
        (pixel : Type) (black : pixel) (model : image pixel -> image pixel)
        (bicubic bilinear : nat -> nat -> image pixel -> image pixel)
        (disk : string -> option (video_file pixel)) (a : Args)
        (f : video_file pixel) (ks : list Z) (kq : Z) (rest : list Z) (k : nat) :
  disk (file a) = Some f ->
  view a = true ->
  Forall (fun key => is_quit key = false) ks -> is_quit kq = true ->
  k = S (length ks) ->
  (Z.of_nat k <= vf_frame_count f)%Z -> k <= length (vf_frames f) ->
  let v := Video_init disk a in
  (forall raw, In raw (firstn k (vf_frames f)) ->
               exists c, comparison black model bicubic bilinear v raw = Ok c) ->
  exists st,
    Video_run black model bicubic bilinear v (ks ++ kq :: rest) = Returned st /\
    length (sr_frames st) = k /\
    length (compare_frames st) = k /\
    sr_frames st = map model (firstn k (vf_frames f)) /\
    Forall2 (fun raw c => comparison black model bicubic bilinear v raw = Ok c)
            (firstn k (vf_frames f)) (compare_frames st) /\
    rs_log st = [EvRead] ++ concat (repeat (frame_events ++ [EvRead]) (k - 1))
                         ++ frame_events /\
    polls (rs_log st) = k.
Proof.
  intros Hf Hview Hks Hkq -> Hcount Hlen v Hok.
  destruct (Video_init_opened disk a f Hf) as (Hargs & Htot & _ & Hpend & Hs0 & Hc0).
  fold v in Hargs, Htot, Hpend, Hs0, Hc0.
  destruct (Video_run_start black model bicubic bilinear v (ks ++ kq :: rest))
    as (raw & st0 & -> & Hsr & Hcmp & Hk & Hlog & Hup).
  destruct (loop_cancel black model bicubic bilinear v (length ks)
              (Z.to_nat (total_frames v)) raw st0 ks kq rest)
    as (st & cs & E & Esr & Ecmp & HF & El).
  { rewrite Hargs. exact Hview. }
  { exact Hk. }
  { reflexivity. }
  { exact Hks. }
  { exact Hkq. }
  { rewrite Htot. lia. }
  { rewrite Hup, Hpend. lia. }
  { intros g Hg. apply Hok. rewrite Hup, Hpend in Hg. exact Hg. }
  rewrite Hup, Hpend in Esr, HF.
  rewrite Hsr, Hs0 in Esr. rewrite Hcmp, Hc0 in Ecmp. rewrite Hlog in El.
  cbn [app] in Esr, Ecmp.
  exists st. rewrite Ecmp, Esr, El, length_map.
  replace (S (length ks) - 1) with (length ks) by lia.
  assert (Hn : length (firstn (S (length ks)) (vf_frames f)) = S (length ks)).
  { rewrite length_firstn. lia. }
  repeat split; try assumption.
  - rewrite <- (Forall2_length HF). exact Hn.
  - change ([EvRead] ++ concat (repeat (frame_events ++ [EvRead]) (length ks))
              ++ frame_events)
      with ([EvRead] ++ (concat (repeat (frame_events ++ [EvRead]) (length ks))
              ++ frame_events)).
    rewrite !polls_app, polls_frames. cbn. lia.
Qed.

(** The sample clip, shown: the second poll answers "q" and two frames stay
    in each sink. *)
Lemma cancel_keeps_whole_frames_witness :
  exists st,
    Sample.run "videos/clip.mp4" true ([32] ++ 113 :: [7])%Z = Returned st /\
    length (sr_frames st) = 2 /\
    length (compare_frames st) = 2 /\
    sr_frames st = map (Sample.net 2) (firstn 2 (vf_frames Sample.clip)) /\
    Forall2 (fun raw c =>
               comparison 0 (Sample.net 2) Sample.nearest Sample.nearest
                 (Video_init Sample.disk (Sample.cli "videos/clip.mp4" 2 true)) raw
               = Ok c)
            (firstn 2 (vf_frames Sample.clip)) (compare_frames st) /\
    rs_log st = [EvRead] ++ concat (repeat (frame_events ++ [EvRead]) (2 - 1))
                         ++ frame_events /\
    polls (rs_log st) = 2.
Proof.
  apply (cancel_keeps_whole_frames
           nat 0 (Sample.net 2) Sample.nearest Sample.nearest Sample.disk
           (Sample.cli "videos/clip.mp4" 2 true) Sample.clip [32%Z] 113%Z [7%Z] 2
           eq_refl eq_refl).
  - repeat constructor.
  - reflexivity.
  - reflexivity.
  - cbn. lia.
  - cbn. lia.
  - intros raw Hin. apply (Sample_clip_composites true).
    cbn in Hin |- *. tauto.
Defined.

(** C10: one pass of the loop that starts with as many frames in the
    upscaled sink as in the comparison sink ends with as many in both when it
    falls through or breaks; when the compositor raises, the upscaled frame
    has already been written (the log ends with the inference and that write)
    and the upscaled sink holds exactly one frame more.  The same holds for a
    whole run from [__init__]: level sinks on return, one more upscaled frame
    on an exception. *)
Theorem sinks_stay_level
        (pixel : Type) (black : pixel) (model : image pixel -> image pixel)
        (bicubic bilinear : nat -> nat -> image pixel -> image pixel) :
  (forall (v : Video pixel) (raw_frame : option (image pixel)) (st : run_state pixel),
      length (sr_frames st) = length (compare_frames st) ->
      match iteration black model bicubic bilinear v raw_frame st with
      | Continue _ st' | Break st' =>
          length (sr_frames st') = length (compare_frames st')
      | Raise _ st' =>
          length (sr_frames st') = S (length (compare_frames st')) /\
          rs_log st' = rs_log st ++ [EvModel; EvWriteSr]
      end) /\
  (forall (disk : string -> option (video_file pixel)) (a : Args) (keys : list Z),
      match Video_run black model bicubic bilinear (Video_init disk a) keys with
      | Returned st => length (sr_frames st) = length (compare_frames st)
      | Raised _ st => length (sr_frames st) = S (length (compare_frames st))
      end).
Proof.
  split.
  - intros v [raw | ] st Hlevel.
    + pose proof (iteration_pass black model bicubic bilinear v raw st) as P.
      remember (iteration black model bicubic bilinear v (Some raw) st) as fl eqn:Efl.
      clear Efl.
      destruct P as [e st' Hc Hsr Hcmp Hlog
                    | c st' Hc Hv Hq Hsr Hcmp Hkeys Hlog
                    | c next st' Hc Hq Hsr Hcmp Hkeys Hlog Hup].
      * rewrite Hsr, Hcmp, length_app. cbn. split; [lia | exact Hlog].
      * rewrite Hsr, Hcmp, !length_app. cbn. lia.
      * rewrite Hsr, Hcmp, !length_app. cbn. lia.
    + cbn. exact Hlevel.
  - intros disk a keys.
    destruct (Video_run_sinks black model bicubic bilinear (Video_init disk a) keys)
      as (j & cs & Hj & _ & Esr & Ecmp & Ho).
    assert (Hs0 : vw_frames (sr_writer (Video_init disk a)) = []) by reflexivity.
    assert (Hc0 : vw_frames (compare_writer (Video_init disk a)) = []) by reflexivity.
    rewrite Hs0 in Esr. rewrite Hc0 in Ecmp. cbn [app] in Esr, Ecmp.
    set (fs := cap_pending (video_capture (Video_init disk a))) in *.
    destruct (Video_run black model bicubic bilinear (Video_init disk a) keys)
      as [st | e st]; cbn [final_state] in Esr, Ecmp; rewrite Esr, Ecmp, length_map.
    + exact (Forall2_length Ho).
    + destruct Ho as (j0 & f0 & -> & HF & Hnth & _).
      rewrite <- (Forall2_length HF), !length_firstn.
      assert (j0 < length fs) by (apply nth_error_Some; congruence).
      lia.
Qed.

(* ===================================================================== *)
(** * Two runs over the same source *)
(* ===================================================================== *)







(* ===================================================================== *)
(** * What [run] leaves open *)
(* ===================================================================== *)




(* ===================================================================== *)
(** * What [__init__] checks *)
(* ===================================================================== *)

(** C3, as the code has it: [__init__] validates nothing and raises no
    stream error.  A file that cannot be decoded yields a capture that
    reports zero frames; whenever the reported frame count is not positive,
    [run] makes its one initial read, processes nothing, writes nothing and
    returns normally.  For a decodable source that announces at least one
    frame, whatever its crop tile size, the first frame is read, transformed
    and written to the upscaled sink: the sink starts with the network's
    output for that frame, whatever the compositor does afterwards. *)
Theorem init_rejects_nothing
        (pixel : Type) (black : pixel) (model : image pixel -> image pixel)
        (bicubic bilinear : nat -> nat -> image pixel -> image pixel)
        (disk : string -> option (video_file pixel)) (a : Args) (keys : list Z) :
  let v := Video_init disk a in
  let o := Video_run black model bicubic bilinear v keys in
  (disk (file a) = None -> total_frames v = 0%Z) /\
  ((total_frames v <= 0)%Z ->
   exists st, o = Returned st /\ sr_frames st = [] /\ compare_frames st = [] /\
              rs_log st = [EvRead]) /\
  (forall f raw rest,
      disk (file a) = Some f -> vf_frames f = raw :: rest ->
      (0 < vf_frame_count f)%Z ->
      exists more, sr_frames (final_state o) = model raw :: more).
Proof.
  intros v o. split; [ | split].
  - intros Hnone. unfold v, Video_init, VideoCapture_open. rewrite Hnone. reflexivity.
  - intros Hzero. unfold o.
    destruct (Video_run_start black model bicubic bilinear v keys)
      as (raw & st0 & -> & Hsr & Hcmp & _ & Hlog & _).
    replace (Z.to_nat (total_frames v)) with 0 by lia.
    exists st0. repeat split; assumption.
  - intros f raw rest Hf Hframes Hcount.
    destruct (Video_init_opened disk a f Hf) as (_ & Htot & _ & Hpend & Hs0 & _).
    fold v in Htot, Hpend, Hs0.
    destruct (Video_run_sinks black model bicubic bilinear v keys)
      as (j & cs & _ & Hpos & Esr & _).
    fold o in Esr. rewrite Hpend, Hframes in *. rewrite Hs0 in Esr. cbn [app] in Esr.
    destruct j as [ | j].
    + exfalso. assert (0 < 0); [ | lia].
      apply Hpos; [rewrite Htot; lia | discriminate].
    + cbn [firstn map] in Esr. eexists. exact Esr.
Qed.

(** C3 as stated fails: the run over a path that holds no video returns
    normally after its single read; and the run over the 8 x 8 clip, whose
    upscaled width 16 gives the tile size 16 // 5 - 9 = -6, has its frame
    read, transformed and written to the upscaled sink. *)
Lemma init_rejects_nothing_counterexample :
  (exists st, Sample.run "videos/missing.mp4" false [] = Returned st /\
              rs_log st = [EvRead]) /\
  (crop_tile_size
     (fst (sr_size (Video_init Sample.disk (Sample.cli "videos/thumb.mp4" 2 false))))
   <= 0)%Z /\
  sr_frames (final_state (Sample.run "videos/thumb.mp4" false []))
  = map (Sample.net 2) (vf_frames Sample.thumb).
Proof.
  split; [ | split].
  - eexists. split; vm_compute; reflexivity.
  - vm_compute. discriminate.
  - vm_compute. reflexivity.
Qed.

(* ===================================================================== *)
(** * The output files *)
(* ===================================================================== *)

(** C9, at the failing input: with [upscale_factor = 4] and
    [scale_factor = 2] the frames are enlarged four times (srSize = (100, 8)
    for the 25 x 2 clip) while the two files are named after the factor 2.
    The codec tag is "MPEG" and the frame rate the source's. *)
Lemma output_names_at_failing_input :
  let a := {| file := "videos/clip.mp4"; upscale_factor := 4; scale_factor := 2;
              view := false |} in
  let v := Video_init Sample.disk a in
  sr_size v = (100, 8)%Z /\
  vw_filename (sr_writer v) = "sr_2x_clip.mp4"%string /\
  vw_filename (compare_writer v) = "compare_2x_clip.mp4"%string /\
  vw_fourcc (sr_writer v) = VideoWriter_fourcc "M" "P" "E" "G" /\
  vw_fourcc (compare_writer v) = 1195724877%Z /\
  vw_fps (sr_writer v) = vf_fps Sample.clip /\
  vw_fps (compare_writer v) = vf_fps Sample.clip.
Proof. vm_compute. repeat split. Qed.

(* ===================================================================== *)
(** * Where the pixels of padded, cropped and concatenated frames come from *)
(* ===================================================================== *)

Section PixelFacts.

Context {pixel : Type}.
Variable black : pixel.

Lemma rect_row (h w : nat) (img : image pixel) (y : nat) :
  rect h w img -> y < h -> exists r, nth_error img y = Some r /\ length r = w.
Proof.
  intros [Hl Hf] Hy.
  destruct (nth_error img y) as [r | ] eqn:E.
  - exists r. split; [reflexivity | ].
    rewrite Forall_forall in Hf. apply Hf. eapply nth_error_In. exact E.
  - apply nth_error_None in E. lia.
Qed.

Lemma pix_outside (h w : nat) (img : image pixel) (y x : nat) :
  rect h w img -> h <= y -> pix img y x = None.
Proof.
  intros [Hl _] Hy. unfold pix.
  replace (nth_error img y) with (@None (list pixel)); [reflexivity | ].
  symmetry. apply nth_error_None. lia.
Qed.

(** A cropped frame shows the frame from the corner of the crop on. *)
Lemma pix_crop (top left height width : Z) (img : image pixel) (y x : nat) :
  y < Z.to_nat height -> x < Z.to_nat width ->
  pix (crop top left height width img) y x
  = pix img (Z.to_nat top + y) (Z.to_nat left + x).
Proof.
  intros Hy Hx. unfold pix, crop.
  rewrite nth_error_map, nth_error_firstn, nth_error_skipn.
  replace (y <? Z.to_nat height) with true by (symmetry; apply Nat.ltb_lt; exact Hy).
  destruct (nth_error img (Z.to_nat top + y)) as [r | ]; cbn [option_map]; [ | reflexivity].
  rewrite nth_error_firstn, nth_error_skipn.
  replace (x <? Z.to_nat width) with true by (symmetry; apply Nat.ltb_lt; exact Hx).
  reflexivity.
Qed.

Lemma nth_error_black_row (n x : nat) :
  x < n -> nth_error (repeat black n) x = Some black.
Proof. apply nth_error_repeat. Qed.

(** Inside its margins a padded frame shows the frame. *)
Lemma pix_Pad_inside (h w left top right bottom : nat) (img : image pixel) (y x : nat) :
  rect h w img -> y < h -> x < w ->
  pix (Pad black left top right bottom img) (top + y) (left + x) = pix img y x.
Proof.
  intros Hr Hy Hx. destruct (rect_row h w img y Hr Hy) as (r & Er & Lr).
  unfold pix, Pad. rewrite Er.
  rewrite nth_error_app, repeat_length.
  replace (top + y <? top) with false by (symmetry; apply Nat.ltb_ge; lia).
  replace (top + y - top) with y by lia.
  rewrite nth_error_app, length_map.
  replace (y <? length img) with true
    by (symmetry; apply Nat.ltb_lt; destruct Hr as [-> _]; exact Hy).
  rewrite nth_error_map, Er. cbn [option_map].
  rewrite nth_error_app, repeat_length.
  replace (left + x <? left) with false by (symmetry; apply Nat.ltb_ge; lia).
  replace (left + x - left) with x by lia.
  rewrite nth_error_app, Lr.
  replace (x <? w) with true by (symmetry; apply Nat.ltb_lt; exact Hx).
  reflexivity.
Qed.

(** In its margins a padded frame is black. *)
Lemma pix_Pad_margin (h w left top right bottom : nat) (img : image pixel) (y x : nat) :
  rect h w img -> cols img = w ->
  y < top + h + bottom -> x < left + w + right ->
  y < top \/ top + h <= y \/ x < left \/ left + w <= x ->
  pix (Pad black left top right bottom img) y x = Some black.
Proof.
  intros Hr Hc Hy Hx Hm. unfold pix, Pad. rewrite Hc.
  rewrite nth_error_app, repeat_length.
  destruct (Nat.ltb_spec y top) as [Hyt | Hyt].
  - rewrite nth_error_repeat by exact Hyt. apply nth_error_black_row. exact Hx.
  - rewrite nth_error_app, length_map.
    assert (Hl : length img = h) by (destruct Hr; assumption). rewrite Hl.
    destruct (Nat.ltb_spec (y - top) h) as [Hyh | Hyh].
    + destruct (rect_row h w img (y - top) Hr Hyh) as (r & Er & Lr).
      rewrite nth_error_map, Er. cbn [option_map].
      rewrite nth_error_app, repeat_length.
      destruct (Nat.ltb_spec x left) as [Hxl | Hxl].
      * apply nth_error_black_row. exact Hxl.
      * rewrite nth_error_app, Lr.
        destruct (Nat.ltb_spec (x - left) w) as [Hxw | Hxw]; [lia | ].
        apply nth_error_black_row. lia.
    + rewrite nth_error_repeat by lia. apply nth_error_black_row. exact Hx.
Qed.

Lemma nth_error_combine {A B : Type} (l : list A) :
  forall (l' : list B) (n : nat) (a : A) (b : B),
  nth_error l n = Some a -> nth_error l' n = Some b ->
  nth_error (combine l l') n = Some (a, b).
Proof.
  induction l as [ | x l IH]; intros l' n a b Ha Hb.
  - destruct n; discriminate.
  - destruct l' as [ | y l']; [destruct n; discriminate | ].
    destruct n as [ | n]; cbn in *.
    + congruence.
    + apply IH; assumption.
Qed.

(** Side by side: the left frame, then the right one. *)
Lemma pix_hstack2 (h w1 w2 : nat) (a b : image pixel) (y x : nat) :
  rect h w1 a -> rect h w2 b ->
  pix (hstack2 a b) y x = if x <? w1 then pix a y x else pix b y (x - w1).
Proof.
  intros Ha Hb. destruct (Nat.lt_ge_cases y h) as [Hy | Hy].
  - destruct (rect_row h w1 a y Ha Hy) as (ra & Ea & La).
    destruct (rect_row h w2 b y Hb Hy) as (rb & Eb & Lb).
    unfold pix, hstack2. rewrite nth_error_map.
    rewrite (nth_error_combine a b y ra rb Ea Eb), Ea, Eb. cbn [option_map fst snd].
    rewrite nth_error_app, La. reflexivity.
  - rewrite (pix_outside h (w1 + w2) _ y x (rect_hstack2 h w1 w2 a b Ha Hb) Hy).
    rewrite (pix_outside h w1 a y x Ha Hy), (pix_outside h w2 b y _ Hb Hy).
    destruct (x <? w1); reflexivity.
Qed.

(** A row of equally wide frames: the [k]-th cell shows the [k]-th frame. *)
Lemma pix_fold_hstack2 (h w : nat) (rest : list (image pixel)) :
  forall (a : image pixel) (wa : nat) (y : nat),
  rect h wa a -> Forall (rect h w) rest ->
  (forall x, x < wa -> pix (fold_left (@hstack2 pixel) rest a) y x = pix a y x) /\
  (forall k x, k < length rest -> x < w ->
               pix (fold_left (@hstack2 pixel) rest a) y (wa + k * w + x)
               = pix (nth k rest []) y x).
Proof.
  induction rest as [ | b rest IH]; intros a wa y Ha Hrest.
  - split; [reflexivity | ]. intros k x Hk. cbn in Hk. lia.
  - inversion Hrest as [ | ? ? Hb Hrest']; subst. cbn [fold_left].
    destruct (IH (hstack2 a b) (wa + w) y (rect_hstack2 h wa w a b Ha Hb) Hrest')
      as [IH1 IH2].
    split.
    + intros x Hx. rewrite IH1 by lia.
      rewrite (pix_hstack2 h wa w a b y x Ha Hb).
      replace (x <? wa) with true by (symmetry; apply Nat.ltb_lt; exact Hx).
      reflexivity.
    + intros [ | k] x Hk Hx; cbn [nth].
      * rewrite IH1 by lia.
        rewrite (pix_hstack2 h wa w a b y _ Ha Hb).
        replace (wa + 0 * w + x <? wa) with false by (symmetry; apply Nat.ltb_ge; lia).
        f_equal. lia.
      * cbn [length] in Hk.
        replace (wa + S k * w + x) with (wa + w + k * w + x) by lia.
        apply IH2; [lia | exact Hx].
Qed.

End PixelFacts.

Section StripLayout.

Context {pixel : Type}.
Variable black : pixel.

Lemma concatenate_axis1_value (h w wa : nat) (a : image pixel)
      (rest : list (image pixel)) :
  rect h wa a -> Forall (rect h w) rest ->
  concatenate_axis1 (a :: rest) = Ok (fold_left (@hstack2 pixel) rest a).
Proof.
  intros Ha Hrest. unfold concatenate_axis1.
  replace (forallb (fun b => rows b =? rows a) rest) with true; [reflexivity | ].
  symmetry. apply forallb_forall. intros b Hb. rewrite Forall_forall in Hrest.
  rewrite (rect_rows _ _ _ (Hrest b Hb)), (rect_rows _ _ _ Ha).
  apply Nat.eqb_refl.
Qed.

(** The [k]-th cell of a row of equally wide frames. *)
Lemma pix_row_of_cells (h w : nat) (a : image pixel) (rest : list (image pixel))
      (k y x : nat) :
  Forall (rect h w) (a :: rest) -> k < length (a :: rest) -> x < w ->
  pix (fold_left (@hstack2 pixel) rest a) y (k * w + x) = pix (nth k (a :: rest) []) y x.
Proof.
  intros Hall Hk Hx. inversion Hall as [ | ? ? Ha Hrest]; subst.
  destruct (pix_fold_hstack2 h w rest a w y Ha Hrest) as [H1 H2].
  destruct k as [ | k]; cbn [nth].
  - apply H1. lia.
  - replace (S k * w + x) with (w + k * w + x) by lia.
    apply H2; [cbn [length] in Hk; lia | exact Hx].
Qed.

(** The five tiles of a frame and where each comes from. *)
Lemma FiveCrop_tiles (h w : nat) (size : Z) (img : image pixel) :
  rect h w img -> 0 < h ->
  (0 < size)%Z -> (size <= Z.of_nat w)%Z -> (size <= Z.of_nat h)%Z ->
  exists tiles,
    FiveCrop size img = Ok tiles /\
    length tiles = 5 /\
    Forall (rect (Z.to_nat size) (Z.to_nat size)) tiles /\
    forall i y x,
      i < 5 -> y < Z.to_nat size -> x < Z.to_nat size ->
      pix (nth i tiles []) y x
      = pix img (fst (tile_origin h w (Z.to_nat size) i) + y)
                (snd (tile_origin h w (Z.to_nat size) i) + x).
Proof.
  intros Hr Hh Hs Hw Hhh.
  destruct (FiveCrop_rect h w size img Hr Hh ltac:(lia) Hw Hhh)
    as (tl & tr & bl & br & ce & E & Hrect).
  exists [tl; tr; bl; br; ce]. split; [exact E | ]. split; [reflexivity | ].
  split; [exact Hrect | ].
  unfold FiveCrop, center_crop, shape0, shape1 in E.
  rewrite (rect_rows _ _ _ Hr), (rect_cols _ _ _ Hr Hh) in E.
  destruct ((size >? Z.of_nat w) || (size >? Z.of_nat h))%Z; [discriminate | ].
  injection E as <- <- <- <- <-.
  pose proof (round_half_bounds (Z.of_nat h - size) ltac:(lia)) as B1.
  pose proof (round_half_bounds (Z.of_nat w - size) ltac:(lia)) as B2.
  intros i y x Hi Hy Hx.
  destruct i as [ | [ | [ | [ | [ | i]]]]]; try lia;
    cbn [nth tile_origin fst snd]; rewrite pix_crop by assumption;
    rewrite ?Z2Nat.id by lia; f_equal; lia.
Qed.

End StripLayout.

Lemma Resize_value (pixel : Type) (kernel : nat -> nat -> image pixel -> image pixel)
      (h w : nat) (img : image pixel) :
  0 < h -> 0 < w ->
  Resize kernel (Z.of_nat h) (Z.of_nat w) img = Ok (kernel h w img).
Proof.
  intros Hh Hw. unfold Resize.
  replace ((Z.of_nat h <=? 0) || (Z.of_nat w <=? 0))%Z with false.
  - rewrite !Nat2Z.id. reflexivity.
  - symmetry. apply orb_false_iff. rewrite !Z.leb_gt. lia.
Qed.

(** C4, as the code has it.  With [reference] the raw frame resized to
    srSize and [n] the tile side:
    - the top strip shows the reference frame from its top-left corner on,
      padded by 5 on the right and at the bottom (margin (0,0,5,5) in
      left, top, right, bottom order), then the transformed frame padded by
      5 on the left and at the bottom (margin (5,0,0,5)): 10 black columns
      separate the two frames and 5 black rows lie under them;
    - the bottom strip is a row of ten cells of [n + 10] columns and
      [n + 5] rows: the five tiles of the unpadded reference frame, each
      with 5 black rows above and 10 black columns to its right (margin
      (0,5,10,0)), followed by the five tiles of the unpadded transformed
      frame, each with 10 black columns to its left and 5 black rows above
      (margin (10,5,0,0)); in each group the tiles are top left, top right,
      bottom left, bottom right, centre. *)
Theorem strips_layout
        (pixel : Type) (black : pixel)
        (bicubic : nat -> nat -> image pixel -> image pixel)
        (h w : nat) (raw_frame sr : image pixel) :
  (forall h w img, 0 < h -> 0 < w -> rect h w (bicubic h w img)) ->
  rect h w sr -> 0 < h ->
  (0 < crop_tile_size (Z.of_nat w))%Z ->
  (crop_tile_size (Z.of_nat w) <= Z.of_nat h)%Z ->
  let n := Z.to_nat (crop_tile_size (Z.of_nat w)) in
  let reference := bicubic h w raw_frame in
  exists top_img bottom_img,
    strips black bicubic (Z.of_nat w, Z.of_nat h) raw_frame sr
    = Ok (top_img, bottom_img) /\
    (forall y x, y < h -> x < w -> pix top_img y x = pix reference y x) /\
    (forall y x, y < h -> x < w -> pix top_img y (w + 10 + x) = pix sr y x) /\
    (forall y x, y < h + 5 -> x < 2 * w + 10 ->
                 h <= y \/ w <= x < w + 10 ->
                 pix top_img y x = Some black) /\
    (forall i y x,
        i < 5 -> y < n -> x < n ->
        pix bottom_img (5 + y) (i * (n + 10) + x)
        = pix reference (fst (tile_origin h w n i) + y)
                        (snd (tile_origin h w n i) + x) /\
        pix bottom_img (5 + y) ((5 + i) * (n + 10) + (10 + x))
        = pix sr (fst (tile_origin h w n i) + y) (snd (tile_origin h w n i) + x)) /\
    (forall i y x,
        i < 10 -> y < n + 5 -> x < n + 10 ->
        y < 5 \/ (i < 5 /\ n <= x) \/ (5 <= i /\ x < 10) ->
        pix bottom_img y (i * (n + 10) + x) = Some black).
Proof.
  intros Hbic Hsr Hh Ht Hth n reference.
  set (tile := crop_tile_size (Z.of_nat w)) in *.
  assert (Hw : 0 < w).
  { destruct w; [ | lia]. unfold tile, crop_tile_size in Ht. simpl in Ht. lia. }
  assert (Htw : (tile <= Z.of_nat w)%Z).
  { unfold tile, crop_tile_size in *.
    pose proof (Z.div_mod (Z.of_nat w) 5 ltac:(lia)).
    pose proof (Z.mod_pos_bound (Z.of_nat w) 5 ltac:(lia)). lia. }
  assert (Hn : 0 < n) by (unfold n; lia).
  assert (Href : rect h w reference) by (apply Hbic; assumption).
  destruct (FiveCrop_tiles h w tile sr Hsr Hh Ht Htw Hth)
    as (ts & Ets & Lts & Rts & Pts).
  destruct (FiveCrop_tiles h w tile reference Href Hh Ht Htw Hth)
    as (tc & Etc & Ltc & Rtc & Ptc).
  fold n in Rts, Pts, Rtc, Ptc.
  (* run the code *)
  unfold strips. cbn [fst snd].
  unfold shape1 at 1. rewrite (rect_cols _ _ _ Hsr Hh). fold tile.
  rewrite Ets. cbn [bind].
  rewrite (Resize_value pixel bicubic h w raw_frame Hh Hw). cbn [bind].
  fold reference. unfold shape1 at 1. rewrite (rect_cols _ _ _ Href Hh). fold tile.
  rewrite Etc. cbn [bind].
  assert (PA : rect (h + 5) (w + 5) (Pad black 0 0 5 5 reference)).
  { eapply rect_eq; [apply rect_Pad; [exact Href | ] | lia | lia].
    apply (rect_cols h w); assumption. }
  assert (PB : rect (h + 5) (w + 5) (Pad black 5 0 0 5 sr)).
  { eapply rect_eq; [apply rect_Pad; [exact Hsr | ] | lia | lia].
    apply (rect_cols h w); assumption. }
  rewrite (concatenate_axis1_value (h + 5) (w + 5) (w + 5) _ _ PA
             (Forall_cons _ PB (Forall_nil _))).
  cbn [bind fold_left].
  pose proof (padded_tiles_rect black n 0 10 tc Hn eq_refl Rtc) as Pc.
  pose proof (padded_tiles_rect black n 10 0 ts Hn eq_refl Rts) as Ps.
  pose proof (proj2 (Forall_app _ _ _) (conj Pc Ps)) as Pall.
  destruct tc as [ | c1 [ | c2 [ | c3 [ | c4 [ | c5 [ | ? ?]]]]]]; try discriminate.
  destruct ts as [ | s1 [ | s2 [ | s3 [ | s4 [ | s5 [ | ? ?]]]]]]; try discriminate.
  cbn [map app] in Pall |- *.
  inversion Pall as [ | ? ? Pfirst Prest]; subst.
  rewrite (concatenate_axis1_value (n + 5) (n + 10) (n + 10) _ _ Pfirst Prest).
  cbn [bind].
  eexists. eexists. split; [reflexivity | ].
  split; [ | split; [ | split; [ | split]]].
  - (* the reference frame *)
    intros y x Hy Hx.
    rewrite (pix_hstack2 (h + 5) (w + 5) (w + 5) _ _ y x PA PB).
    replace (x <? w + 5) with true by (symmetry; apply Nat.ltb_lt; lia).
    exact (pix_Pad_inside black h w 0 0 5 5 reference y x Href Hy Hx).
  - (* the transformed frame *)
    intros y x Hy Hx.
    rewrite (pix_hstack2 (h + 5) (w + 5) (w + 5) _ _ y _ PA PB).
    replace (w + 10 + x <? w + 5) with false by (symmetry; apply Nat.ltb_ge; lia).
    replace (w + 10 + x - (w + 5)) with (5 + x) by lia.
    exact (pix_Pad_inside black h w 5 0 0 5 sr y x Hsr Hy Hx).
  - (* the margins of the top strip *)
    intros y x Hy Hx Hm.
    rewrite (pix_hstack2 (h + 5) (w + 5) (w + 5) _ _ y x PA PB).
    destruct (Nat.ltb_spec x (w + 5)) as [Hl | Hl].
    + apply (pix_Pad_margin black h w 0 0 5 5 reference y x Href);
        try lia. apply (rect_cols h w); assumption.
    + apply (pix_Pad_margin black h w 5 0 0 5 sr y (x - (w + 5)) Hsr);
        try lia. apply (rect_cols h w); assumption.
  - (* the tiles *)
    intros i y x Hi Hy Hx.
    rewrite (pix_row_of_cells (n + 5) (n + 10) _ _ i (5 + y) x Pall)
      by (cbn [length]; lia).
    rewrite (pix_row_of_cells (n + 5) (n + 10) _ _ (5 + i) (5 + y) (10 + x) Pall)
      by (cbn [length]; lia).
    rewrite <- (Ptc i y x Hi Hy Hx), <- (Pts i y x Hi Hy Hx).
    assert (Rc : rect n n (nth i [c1; c2; c3; c4; c5] [])).
    { rewrite Forall_forall in Rtc. apply Rtc. apply nth_In. cbn [length]. lia. }
    assert (Rs : rect n n (nth i [s1; s2; s3; s4; s5] [])).
    { rewrite Forall_forall in Rts. apply Rts. apply nth_In. cbn [length]. lia. }
    split.
    + replace (nth i [Pad black 0 5 10 0 c1; Pad black 0 5 10 0 c2;
                      Pad black 0 5 10 0 c3; Pad black 0 5 10 0 c4;
                      Pad black 0 5 10 0 c5; Pad black 10 5 0 0 s1;
                      Pad black 10 5 0 0 s2; Pad black 10 5 0 0 s3;
                      Pad black 10 5 0 0 s4; Pad black 10 5 0 0 s5] [])
        with (Pad black 0 5 10 0 (nth i [c1; c2; c3; c4; c5] []))
        by (destruct i as [ | [ | [ | [ | [ | i]]]]]; try lia; reflexivity).
      exact (pix_Pad_inside black n n 0 5 10 0 _ y x Rc Hy Hx).
    + replace (nth (5 + i) [Pad black 0 5 10 0 c1; Pad black 0 5 10 0 c2;
                      Pad black 0 5 10 0 c3; Pad black 0 5 10 0 c4;
                      Pad black 0 5 10 0 c5; Pad black 10 5 0 0 s1;
                      Pad black 10 5 0 0 s2; Pad black 10 5 0 0 s3;
                      Pad black 10 5 0 0 s4; Pad black 10 5 0 0 s5] [])
        with (Pad black 10 5 0 0 (nth i [s1; s2; s3; s4; s5] []))
        by (destruct i as [ | [ | [ | [ | [ | i]]]]]; try lia; reflexivity).
      exact (pix_Pad_inside black n n 10 5 0 0 _ y x Rs Hy Hx).
  - (* the margins of the cells *)
    intros i y x Hi Hy Hx Hm.
    rewrite (pix_row_of_cells (n + 5) (n + 10) _ _ i y x Pall)
      by (cbn [length]; lia).
    assert (Hcols : forall t : image pixel, rect n n t -> cols t = n).
    { intros t Rt. apply (rect_cols n n); assumption. }
    assert (R5 : forall t, In t [c1; c2; c3; c4; c5] -> rect n n t)
      by (apply Forall_forall; exact Rtc).
    assert (R5' : forall t, In t [s1; s2; s3; s4; s5] -> rect n n t)
      by (apply Forall_forall; exact Rts).
    destruct i as [ | [ | [ | [ | [ | [ | [ | [ | [ | [ | i]]]]]]]]]]; try lia;
      cbn [nth];
      first [ apply (pix_Pad_margin black n n 0 5 10 0);
              [apply R5; cbn; tauto | apply Hcols, R5; cbn; tauto | lia | lia | lia]
            | apply (pix_Pad_margin black n n 10 5 0 0);
              [apply R5'; cbn; tauto | apply Hcols, R5'; cbn; tauto | lia | lia | lia] ].
Qed.

(** The first frame of the sample clip: reference and transformed frame of
    50 x 4, tile side 1. *)
Lemma strips_layout_witness :
  exists top_img bottom_img,
    strips 0 Sample.nearest (Z.of_nat 50, Z.of_nat 4) (Sample.frame 1)
           (Sample.net 2 (Sample.frame 1))
    = Ok (top_img, bottom_img) /\
    pix top_img 0 0 = pix (Sample.nearest 4 50 (Sample.frame 1)) 0 0 /\
    pix top_img 0 (50 + 10 + 0) = pix (Sample.net 2 (Sample.frame 1)) 0 0 /\
    pix top_img 0 50 = Some 0 /\
    pix top_img 4 0 = Some 0 /\
    pix bottom_img (5 + 0) (1 * (1 + 10) + 0)
    = pix (Sample.nearest 4 50 (Sample.frame 1)) (0 + 0) (49 + 0) /\
    pix bottom_img (5 + 0) ((5 + 1) * (1 + 10) + (10 + 0))
    = pix (Sample.net 2 (Sample.frame 1)) (0 + 0) (49 + 0) /\
    pix bottom_img 0 0 = Some 0.
Proof.
  destruct (strips_layout nat 0 Sample.nearest 4 50 (Sample.frame 1)
              (Sample.net 2 (Sample.frame 1)) Sample_kernel_rect
              (Sample_net_scales 2 2 25 (Sample.frame 1)
                 ltac:(split; [reflexivity | repeat constructor]))
              ltac:(lia) ltac:(reflexivity) ltac:(discriminate))
    as (top & bottom & E & T1 & T2 & T3 & B1 & B2).
  exists top, bottom. split; [exact E | ].
  split; [apply T1; lia | ].
  split; [apply T2; lia | ].
  split; [apply T3; lia | ].
  split; [apply T3; lia | ].
  split; [exact (proj1 (B1 1 0 0 ltac:(lia) ltac:(cbn; lia) ltac:(cbn; lia))) | ].
  split; [exact (proj2 (B1 1 0 0 ltac:(lia) ltac:(cbn; lia) ltac:(cbn; lia))) | ].
  apply (B2 0 0 0); cbn; lia.
Defined.

(** C4 as stated fails on the first frame of the sample clip (reference and
    transformed frame of 50 x 4, tile side 1): with the margins of the claim
    the top strip would be 115 columns wide, not the 110 of compareSize, and
    would start with a black column instead of the reference frame's first
    pixel; and tiles cut from the padded frames would give a bottom strip of
    one row whose first tile is black, where the code gives six rows with
    the reference frame's corner pixel under five black rows. *)
Lemma strips_differ_from_spec_wording :
  exists top_img bottom_img,
    strips 0 Sample.nearest (50, 4)%Z (Sample.frame 1) (Sample.net 2 (Sample.frame 1))
    = Ok (top_img, bottom_img) /\
    spec_top_strip 0 (Sample.nearest 4 50 (Sample.frame 1))
                   (Sample.net 2 (Sample.frame 1)) <> Ok top_img /\
    spec_bottom_strip 0 (crop_tile_size 50) (Sample.nearest 4 50 (Sample.frame 1))
                      (Sample.net 2 (Sample.frame 1)) <> Ok bottom_img /\
    (cols top_img = 110 /\ pix top_img 0 0 = Some 1) /\
    (exists t,
        spec_top_strip 0 (Sample.nearest 4 50 (Sample.frame 1))
                       (Sample.net 2 (Sample.frame 1)) = Ok t /\
        cols t = 115 /\ pix t 0 0 = Some 0) /\
    (rows bottom_img = 6 /\ pix bottom_img 5 0 = Some 1) /\
    (exists b,
        spec_bottom_strip 0 (crop_tile_size 50) (Sample.nearest 4 50 (Sample.frame 1))
                          (Sample.net 2 (Sample.frame 1)) = Ok b /\
        rows b = 1 /\ pix b 0 0 = Some 0).
Proof.
  eexists. eexists. split; [vm_compute; reflexivity | ].
  split; [ | split; [ | split; [ | split; [ | split]]]].
  - intros H.
    apply (f_equal (fun r => match r with Ok img => cols img | Err _ => 0 end)) in H.
    vm_compute in H. discriminate.
  - intros H.
    apply (f_equal (fun r => match r with Ok img => rows img | Err _ => 0 end)) in H.
    vm_compute in H. discriminate.
  - split; vm_compute; reflexivity.
  - eexists. split; [vm_compute; reflexivity | ]. split; vm_compute; reflexivity.
  - split; vm_compute; reflexivity.
  - eexists. split; [vm_compute; reflexivity | ]. split; vm_compute; reflexivity.
Qed.

(* ===================================================================== *)
(** * More on the processing loop: reads, idle passes, the keyboard *)
(* ===================================================================== *)

Lemma occurrences_app (e : event) (l1 l2 : list event) :
  occurrences e (l1 ++ l2) = occurrences e l1 + occurrences e l2.
Proof. unfold occurrences. rewrite filter_app, length_app. reflexivity. Qed.

Lemma occurrences_passes (e : event) (show : bool) (k : nat) :
  occurrences e (concat (repeat (pass_events show) k))
  = k * occurrences e (pass_events show).
Proof.
  induction k as [ | k IH]; [reflexivity | ].
  cbn [repeat concat]. rewrite occurrences_app, IH. reflexivity.
Qed.

Lemma skipn_tl {A : Type} (n : nat) (l : list A) : skipn n (tl l) = skipn (S n) l.
Proof. destruct l; [destruct n | ]; reflexivity. Qed.

Section PassFacts.

Context {pixel : Type}.
Variable black : pixel.
Variable model : image pixel -> image pixel.
Variable bicubic : nat -> nat -> image pixel -> image pixel.
Variable bilinear : nat -> nat -> image pixel -> image pixel.

Local Abbreviation step_of := (iteration black model bicubic bilinear).
Local Abbreviation loop_of := (loop black model bicubic bilinear).
Local Abbreviation comparison_of := (comparison black model bicubic bilinear).

(** What one pass does to the capture and to the pending keys. *)
Lemma iteration_capture (v : Video pixel) (raw : image pixel) (st : run_state pixel) :
  match step_of v (Some raw) st with
  | Raise _ st' => rs_capture st' = rs_capture st /\ rs_keys st' = rs_keys st
  | Break st' => rs_capture st' = rs_capture st
  | Continue next st' =>
      next = hd_error (cap_pending (rs_capture st)) /\
      cap_pending (rs_capture st') = tl (cap_pending (rs_capture st)) /\
      (view (args v) = false -> rs_keys st' = rs_keys st)
  end.
Proof.
  unfold iteration.
  destruct (final_image black bicubic bilinear (sr_size v) raw (model raw)) as [c | e];
    [ | cbn; auto].
  destruct (view (args v)).
  - unfold do_waitKey. cbn [rs_keys log do_write_compare do_write_sr].
    destruct (rs_keys st) as [ | k ks].
    + change (Z.land (-1) 255 =? ord "q")%Z with false. cbv iota.
      unfold do_read, read. cbn.
      destruct (cap_pending (rs_capture st)) eqn:Ep; cbn; rewrite ?Ep; repeat split;
        discriminate || reflexivity.
    + destruct (Z.land k 255 =? ord "q")%Z; [reflexivity | ].
      unfold do_read, read. cbn.
      destruct (cap_pending (rs_capture st)) eqn:Ep; cbn; rewrite ?Ep; repeat split;
        discriminate || reflexivity.
  - unfold do_read, read. cbn.
    destruct (cap_pending (rs_capture st)) eqn:Ep; cbn; rewrite ?Ep; repeat split.
Qed.

(** A pass over a frame that composites, with no quit key in sight. *)
Lemma pass_through (v : Video pixel) (f c : image pixel) (st : run_state pixel) :
  comparison_of v f = Ok c ->
  view (args v) = false \/ is_quit (hd (-1)%Z (rs_keys st)) = false ->
  exists next st',
    step_of v (Some f) st = Continue next st' /\
    sr_frames st' = sr_frames st ++ [model f] /\
    compare_frames st' = compare_frames st ++ [c] /\
    rs_keys st' = (if view (args v) then tl (rs_keys st) else rs_keys st) /\
    rs_log st' = rs_log st ++ pass_events (view (args v)) /\
    next = hd_error (cap_pending (rs_capture st)) /\
    cap_pending (rs_capture st') = tl (cap_pending (rs_capture st)) /\
    upcoming next st' = cap_pending (rs_capture st).
Proof.
  intros Hc Hq.
  pose proof (iteration_pass black model bicubic bilinear v f st) as P.
  pose proof (iteration_capture v f st) as Q.
  destruct (step_of v (Some f) st) as [next st' | st' | e st'].
  - inversion P as [ | | c' next' st'' Hc' Hq' Hsr Hcmp Hkeys Hlog Hup]; subst.
    destruct Q as (Hnext & Hpend & _).
    exists next, st'. unfold pass_events.
    assert (c' = c) by congruence. subst c'.
    repeat split; assumption.
  - exfalso. inversion P as [ | c' st'' Hc' Hv Hq' | ]; subst.
    destruct Hq; congruence.
  - exfalso. inversion P as [e' st'' Hc' | | ]; subst. congruence.
Qed.

(** Without a quit key, and while the compositor succeeds, the loop makes
    one full pass per frame until its count or the frames run out, and
    spends its remaining passes idle. *)
Lemma loop_all_trace (v : Video pixel) (n : nat) :
  forall (raw : option (image pixel)) (st : run_state pixel),
  view (args v) = false \/ Forall (fun k => is_quit k = false) (rs_keys st) ->
  (forall f, In f (firstn n (upcoming raw st)) -> exists c, comparison_of v f = Ok c) ->
  (raw = None -> cap_pending (rs_capture st) = []) ->
  exists st',
    loop_of v n raw st = Returned st' /\
    rs_log st' = rs_log st
                 ++ concat (repeat (pass_events (view (args v)))
                                   (Nat.min n (length (upcoming raw st)))) /\
    cap_pending (rs_capture st') = skipn n (cap_pending (rs_capture st)).
Proof.
  induction n as [ | n IH]; intros raw st Hkeys0 Hok Hnone.
  - exists st. cbn. rewrite app_nil_r. repeat split.
  - destruct raw as [f | ].
    + destruct (Hok f) as (c & Hc); [cbn; left; reflexivity | ].
      destruct (pass_through v f c st Hc) as
        (next & st' & E & Hsr & Hcmp & Hkeys & Hlog & Hnext & Hpend & Hup).
      { destruct Hkeys0 as [H | H]; [left; exact H | right].
        apply hd_not_quit. exact H. }
      cbn [loop]. rewrite E.
      destruct (IH next st') as (st2 & E2 & Hlog2 & Hpend2).
      { destruct Hkeys0 as [H | H]; [left; exact H | right].
        rewrite Hkeys. destruct (view (args v)); [ | exact H].
        destruct (rs_keys st); [constructor | inversion H; assumption]. }
      { intros g Hg. apply Hok. cbn [upcoming firstn]. right.
        rewrite Hup in Hg. exact Hg. }
      { intros ->. rewrite Hpend.
        destruct (cap_pending (rs_capture st)); [reflexivity | discriminate]. }
      exists st2. split; [exact E2 | ]. split.
      * rewrite Hlog2, Hlog, Hup. cbn [upcoming length Nat.min repeat concat].
        rewrite <- app_assoc. reflexivity.
      * rewrite Hpend2, Hpend. apply skipn_tl.
    + cbn [loop iteration].
      destruct (IH None st Hkeys0) as (st2 & E2 & Hlog2 & Hpend2).
      { intros g Hg. cbn [upcoming] in Hg. rewrite firstn_nil in Hg. destruct Hg. }
      { exact Hnone. }
      exists st2. split; [exact E2 | ]. split.
      * rewrite Hlog2. cbn [upcoming length]. rewrite !Nat.min_0_r. reflexivity.
      * rewrite Hpend2, (Hnone eq_refl), !skipn_nil. reflexivity.
Qed.

(** A run that shows nothing leaves the keys alone and logs neither a
    display nor a key poll. *)
Lemma loop_headless (v : Video pixel) (n : nat) :
  view (args v) = false ->
  forall (raw : option (image pixel)) (st : run_state pixel),
  rs_keys (final_state (loop_of v n raw st)) = rs_keys st /\
  occurrences EvImshow (rs_log (final_state (loop_of v n raw st)))
  = occurrences EvImshow (rs_log st) /\
  occurrences EvWaitKey (rs_log (final_state (loop_of v n raw st)))
  = occurrences EvWaitKey (rs_log st).
Proof.
  intros Hview. induction n as [ | n IH]; intros raw st.
  - cbn. repeat split.
  - destruct raw as [f | ]; [ | cbn [loop iteration]; apply IH].
    cbn [loop].
    pose proof (iteration_pass black model bicubic bilinear v f st) as P.
    pose proof (iteration_capture v f st) as Q.
    destruct (step_of v (Some f) st) as [next st' | st' | e st'].
    + inversion P as [ | | c' next' st'' Hc' Hq' Hsr Hcmp Hkeys Hlog Hup]; subst.
      destruct Q as (_ & _ & Hk).
      destruct (IH next st') as (IHk & IHi & IHw).
      rewrite IHk, IHi, IHw, Hlog, Hview, (Hk Hview), !occurrences_app.
      cbn. repeat split; lia.
    + inversion P as [ | c' st'' Hc' Hv Hq' | ]; subst. congruence.
    + inversion P as [e' st'' Hc' Hsr Hcmp Hlog | | ]; subst.
      destruct Q as (_ & Hk). cbn [final_state].
      rewrite Hk, Hlog, !occurrences_app. cbn. repeat split; lia.
Qed.


End PassFacts.

Section WholeRuns.

Context {pixel : Type}.
Variable black : pixel.
Variable model : image pixel -> image pixel.
Variable bicubic : nat -> nat -> image pixel -> image pixel.
Variable bilinear : nat -> nat -> image pixel -> image pixel.

Local Abbreviation loop_of := (loop black model bicubic bilinear).
Local Abbreviation run_of := (Video_run black model bicubic bilinear).
Local Abbreviation comparison_of := (comparison black model bicubic bilinear).

(** The first read of [run], frame by frame. *)
Lemma Video_run_first_read (v : Video pixel) (keys : list Z) :
  exists raw st0,
    run_of v keys = loop_of v (Z.to_nat (total_frames v)) raw st0 /\
    raw = hd_error (cap_pending (video_capture v)) /\
    cap_pending (rs_capture st0) = tl (cap_pending (video_capture v)) /\
    sr_frames st0 = vw_frames (sr_writer v) /\
    compare_frames st0 = vw_frames (compare_writer v) /\
    rs_keys st0 = keys /\
    rs_log st0 = [EvRead].
Proof.
  unfold Video_run, do_read, read, start. cbn.
  destruct (cap_pending (video_capture v)) as [ | f rest] eqn:Ep;
    eexists; eexists; (split; [reflexivity | ]); cbn; rewrite ?Ep; repeat split.
Qed.

(** A run that is not cancelled and whose frames all composite: it handles
    the frames up to the announced count and no more. *)
Lemma run_without_quit (disk : string -> option (video_file pixel)) (a : Args)
      (f : video_file pixel) (keys : list Z) :
  disk (file a) = Some f ->
  view a = false \/ Forall (fun k => is_quit k = false) keys ->
  let v := Video_init disk a in
  let n := Z.to_nat (vf_frame_count f) in
  (forall raw, In raw (firstn n (vf_frames f)) -> exists c, comparison_of v raw = Ok c) ->
  exists st,
    run_of v keys = Returned st /\
    sr_frames st = map model (firstn n (vf_frames f)) /\
    Forall2 (fun raw c => comparison_of v raw = Ok c)
            (firstn n (vf_frames f)) (compare_frames st) /\
    rs_log st = EvRead :: concat (repeat (pass_events (view a))
                                         (Nat.min n (length (vf_frames f)))) /\
    cap_pending (rs_capture st) = skipn (S n) (vf_frames f).
Proof.
  intros Hf Hkeys v n Hok.
  destruct (Video_init_opened disk a f Hf) as (Hargs & Htot & _ & Hpend & Hs0 & Hc0).
  fold v in Hargs, Htot, Hpend, Hs0, Hc0.
  destruct (Video_run_first_read v keys)
    as (raw & st0 & -> & Hraw & Hp0 & Hsr & Hcmp & Hk & Hlog).
  rewrite Htot. fold n. rewrite Hpend in Hraw, Hp0.
  assert (Hup : upcoming raw st0 = vf_frames f).
  { unfold upcoming. rewrite Hraw, Hp0. destruct (vf_frames f); reflexivity. }
  destruct (loop_all black model bicubic bilinear v n raw st0)
    as (st & cs & E & Esr & Ecmp & HF).
  { rewrite Hargs, Hk. exact Hkeys. }
  { intros g Hg. apply Hok. rewrite Hup in Hg. exact Hg. }
  destruct (loop_all_trace black model bicubic bilinear v n raw st0)
    as (st' & E' & El & Ep).
  { rewrite Hargs, Hk. exact Hkeys. }
  { intros g Hg. apply Hok. rewrite Hup in Hg. exact Hg. }
  { intros ->. rewrite Hp0. destruct (vf_frames f); [reflexivity | discriminate]. }
  rewrite E in E'. injection E' as <-.
  rewrite Hup in Esr, HF, El.
  rewrite Hsr, Hs0 in Esr. rewrite Hcmp, Hc0 in Ecmp. cbn [app] in Esr, Ecmp.
  exists st. rewrite Ecmp, Esr, El, Ep, Hlog, Hp0, Hargs, skipn_tl.
  repeat split; assumption.
Qed.

End WholeRuns.

(** [tester.py], lines 143-146 and 196: a source that delivers fewer frames
    than it announces is processed whole.  When the reported frame count is
    at least the number of frames that can be read, no quit key is seen (or
    nothing is shown) and every frame composites, the run returns with every
    frame in both sinks; its log is the first read followed by one full pass
    per frame, so the read that fails is the last call it makes: the
    remaining passes of the loop read nothing, write nothing and raise
    nothing. *)
Theorem short_source_is_processed_whole
        (pixel : Type) (black : pixel) (model : image pixel -> image pixel)
        (bicubic bilinear : nat -> nat -> image pixel -> image pixel)
        (disk : string -> option (video_file pixel)) (a : Args)
        (f : video_file pixel) (keys : list Z) :
  disk (file a) = Some f ->
  (Z.of_nat (length (vf_frames f)) <= vf_frame_count f)%Z ->
  view a = false \/ Forall (fun k => is_quit k = false) keys ->
  let v := Video_init disk a in
  (forall raw, In raw (vf_frames f) ->
               exists c, comparison black model bicubic bilinear v raw = Ok c) ->
  exists st,
    Video_run black model bicubic bilinear v keys = Returned st /\
    sr_frames st = map model (vf_frames f) /\
    Forall2 (fun raw c => comparison black model bicubic bilinear v raw = Ok c)
            (vf_frames f) (compare_frames st) /\
    rs_log st = EvRead :: concat (repeat (pass_events (view a)) (length (vf_frames f))) /\
    occurrences EvRead (rs_log st) = S (length (vf_frames f)) /\
    cap_pending (rs_capture st) = [].
Proof.
  intros Hf Hcount Hkeys v Hok.
  assert (Hn : length (vf_frames f) <= Z.to_nat (vf_frame_count f)) by lia.
  destruct (run_without_quit black model bicubic bilinear disk a f keys Hf Hkeys)
    as (st & E & Esr & HF & El & Ep).
  { intros raw Hin. apply Hok. rewrite firstn_all2 in Hin by exact Hn. exact Hin. }
  rewrite firstn_all2 in Esr, HF by exact Hn.
  rewrite Nat.min_r in El by exact Hn.
  rewrite skipn_all2 in Ep by lia.
  exists st. repeat split; try assumption.
  rewrite El.
  change (EvRead :: ?l) with ([EvRead] ++ l).
  rewrite occurrences_app, occurrences_passes.
  destruct (view a); cbn; lia.
Qed.

(** The sample clip announced with a count of five: its three frames are
    processed, four reads are made. *)
Lemma short_source_is_processed_whole_witness :
  let longer :=
    {| vf_fps := vf_fps Sample.clip;
       vf_frame_count := 5;
       vf_frame_width := 25;
       vf_frame_height := 2;
       vf_frames := vf_frames Sample.clip |} in
  let disk := fun _ : string => Some longer in
  let v := Video_init disk (Sample.cli "videos/clip.mp4" 2 false) in
  exists st,
    Video_run 0 (Sample.net 2) Sample.nearest Sample.nearest v [] = Returned st /\
    sr_frames st = map (Sample.net 2) (vf_frames Sample.clip) /\
    Forall2 (fun raw c =>
               comparison 0 (Sample.net 2) Sample.nearest Sample.nearest v raw = Ok c)
            (vf_frames Sample.clip) (compare_frames st) /\
    rs_log st = EvRead :: concat (repeat (pass_events false) 3) /\
    occurrences EvRead (rs_log st) = 4 /\
    cap_pending (rs_capture st) = [].
Proof.
  cbv zeta.
  apply (short_source_is_processed_whole
           nat 0 (Sample.net 2) Sample.nearest Sample.nearest
           (fun _ : string =>
              Some {| vf_fps := vf_fps Sample.clip;
                      vf_frame_count := 5;
                      vf_frame_width := 25;
                      vf_frame_height := 2;
                      vf_frames := vf_frames Sample.clip |})
           (Sample.cli "videos/clip.mp4" 2 false) _ [] eq_refl).
  - cbn. lia.
  - left. reflexivity.
  - intros raw Hin. cbn [vf_frames Sample.clip In] in Hin.
    destruct Hin as [<- | [<- | [<- | []]]]; eexists; vm_compute; reflexivity.
Defined.

(** [tester.py], lines 143-145 and 196: a source that holds more frames than
    it announces is cut at the announced count.  With [n] the reported frame
    count, fewer than the frames that can be read, the run (not cancelled,
    every frame compositing) returns with exactly the first [n] frames in
    both sinks; it has made [n + 1] reads, so the frame after the last
    processed one has been taken from the capture and dropped. *)
Theorem long_source_is_cut_at_the_count
        (pixel : Type) (black : pixel) (model : image pixel -> image pixel)
        (bicubic bilinear : nat -> nat -> image pixel -> image pixel)
        (disk : string -> option (video_file pixel)) (a : Args)
        (f : video_file pixel) (keys : list Z) :
  disk (file a) = Some f ->
  let n := Z.to_nat (vf_frame_count f) in
  n < length (vf_frames f) ->
  view a = false \/ Forall (fun k => is_quit k = false) keys ->
  let v := Video_init disk a in
  (forall raw, In raw (firstn n (vf_frames f)) ->
               exists c, comparison black model bicubic bilinear v raw = Ok c) ->
  exists st,
    Video_run black model bicubic bilinear v keys = Returned st /\
    sr_frames st = map model (firstn n (vf_frames f)) /\
    length (sr_frames st) = n /\
    Forall2 (fun raw c => comparison black model bicubic bilinear v raw = Ok c)
            (firstn n (vf_frames f)) (compare_frames st) /\
    occurrences EvRead (rs_log st) = S n /\
    cap_pending (rs_capture st) = skipn (S n) (vf_frames f).
Proof.
  intros Hf n Hn Hkeys v Hok.
  destruct (run_without_quit black model bicubic bilinear disk a f keys Hf Hkeys Hok)
    as (st & E & Esr & HF & El & Ep).
  fold n in Esr, HF, El, Ep.
  rewrite Nat.min_l in El by lia.
  exists st. repeat split; try assumption.
  - rewrite Esr, length_map, length_firstn. lia.
  - rewrite El.
    change (EvRead :: ?l) with ([EvRead] ++ l).
    rewrite occurrences_app, occurrences_passes.
    destruct (view a); cbn; lia.
Qed.

(** The sample clip announced with a count of one: one frame is processed,
    the second is read and dropped, the third stays in the capture. *)
Lemma long_source_is_cut_at_the_count_witness :
  let shorter :=
    {| vf_fps := vf_fps Sample.clip;
       vf_frame_count := 1;
       vf_frame_width := 25;
       vf_frame_height := 2;
       vf_frames := vf_frames Sample.clip |} in
  let disk := fun _ : string => Some shorter in
  let v := Video_init disk (Sample.cli "videos/clip.mp4" 2 false) in
  exists st,
    Video_run 0 (Sample.net 2) Sample.nearest Sample.nearest v [] = Returned st /\
    sr_frames st = map (Sample.net 2) [Sample.frame 1] /\
    length (sr_frames st) = 1 /\
    Forall2 (fun raw c =>
               comparison 0 (Sample.net 2) Sample.nearest Sample.nearest v raw = Ok c)
            [Sample.frame 1] (compare_frames st) /\
    occurrences EvRead (rs_log st) = 2 /\
    cap_pending (rs_capture st) = [Sample.frame 3].
Proof.
  cbv zeta.
  apply (long_source_is_cut_at_the_count
           nat 0 (Sample.net 2) Sample.nearest Sample.nearest
           (fun _ : string =>
              Some {| vf_fps := vf_fps Sample.clip;
                      vf_frame_count := 1;
                      vf_frame_width := 25;
                      vf_frame_height := 2;
                      vf_frames := vf_frames Sample.clip |})
           (Sample.cli "videos/clip.mp4" 2 false) _ [] eq_refl).
  - cbn. lia.
  - left. reflexivity.
  - intros raw Hin. cbn in Hin.
    destruct Hin as [<- | []]; eexists; vm_compute; reflexivity.
Defined.

(** [tester.py], lines 189-193: a run that shows nothing ([args.view] off)
    never opens a window and never polls the keyboard, on any source and
    whatever way it ends; the keys that are pending stay pending. *)
Theorem headless_run_never_polls
        (pixel : Type) (black : pixel) (model : image pixel -> image pixel)
        (bicubic bilinear : nat -> nat -> image pixel -> image pixel)
        (v : Video pixel) (keys : list Z) :
  view (args v) = false ->
  let st := final_state (Video_run black model bicubic bilinear v keys) in
  rs_keys st = keys /\
  occurrences EvImshow (rs_log st) = 0 /\
  occurrences EvWaitKey (rs_log st) = 0.
Proof.
  intros Hview.
  destruct (Video_run_first_read black model bicubic bilinear v keys)
    as (raw & st0 & -> & _ & _ & _ & _ & Hk & Hlog).
  destruct (loop_headless black model bicubic bilinear v (Z.to_nat (total_frames v))
              Hview raw st0) as (Ek & Ei & Ew).
  cbv zeta. rewrite Ek, Ei, Ew, Hk, Hlog. repeat split.
Qed.

(** The sample clip, not shown, with a "q" waiting: all three frames are
    written and the key is still pending. *)
Lemma headless_run_never_polls_witness :
  let st := final_state (Sample.run "videos/clip.mp4" false [113%Z]) in
  rs_keys st = [113%Z] /\
  occurrences EvImshow (rs_log st) = 0 /\
  occurrences EvWaitKey (rs_log st) = 0.
Proof.
  exact (headless_run_never_polls
           nat 0 (Sample.net 2) Sample.nearest Sample.nearest
           (Video_init Sample.disk (Sample.cli "videos/clip.mp4" 2 false)) [113%Z]
           eq_refl).
Defined.


(** [tester.py], line 192: [cv2.waitKey(1) & 0xFF == ord("q")] looks at the
    low byte of the key code only.  A key cancels exactly when its code is
    113 modulo 256: codes that differ by a multiple of 256 (modifier bits)
    act alike, and the -1 that [waitKey] returns when no key was pressed
    does not cancel. *)
Theorem quit_key_is_read_modulo_256 (key : Z) :
  (is_quit key = true <-> (key mod 256 = 113)%Z) /\
  (forall j : Z, is_quit (key + 256 * j) = is_quit key) /\
  is_quit (-1) = false.
Proof.
  assert (Hland : forall k : Z, Z.land k 255 = (k mod 256)%Z).
  { intros k. change 255%Z with (Z.ones 8). rewrite Z.land_ones by lia. reflexivity. }
  unfold is_quit. split; [ | split].
  - rewrite Hland. change (ord "q") with 113%Z. apply Z.eqb_eq.
  - intros j. rewrite !Hland.
    replace (key + 256 * j)%Z with (key + j * 256)%Z by lia.
    rewrite Z.mod_add by lia. reflexivity.
  - reflexivity.
Qed.

(** [tester.py], lines 151-163: a frame too wide for its height stops the
    run at the first frame.  When the transformed frame has fewer rows than
    the tile side [width // 5 - 9], [FiveCrop] raises ValueError in the
    first pass: the run ends in that exception after one read, one call of
    the network and one write, with the first transformed frame alone in
    the upscaled sink and nothing in the comparison sink. *)
Theorem wide_frame_stops_the_first_pass
        (pixel : Type) (black : pixel) (model : image pixel -> image pixel)
        (bicubic bilinear : nat -> nat -> image pixel -> image pixel)
        (disk : string -> option (video_file pixel)) (a : Args)
        (f : video_file pixel) (keys : list Z)
        (raw : image pixel) (rest : list (image pixel)) (h w : nat) :
  disk (file a) = Some f ->
  vf_frames f = raw :: rest ->
  (0 < vf_frame_count f)%Z ->
  rect h w (model raw) -> 0 < h ->
  (Z.of_nat h < crop_tile_size (Z.of_nat w))%Z ->
  exists st,
    Video_run black model bicubic bilinear (Video_init disk a) keys
    = Raised ValueError st /\
    sr_frames st = [model raw] /\
    compare_frames st = [] /\
    rs_log st = [EvRead; EvModel; EvWriteSr] /\
    cap_pending (rs_capture st) = rest.
Proof.
  intros Hf Hframes Hcount Hrect Hh Hwide.
  set (v := Video_init disk a).
  destruct (Video_init_opened disk a f Hf) as (_ & Htot & _ & Hpend & Hs0 & Hc0).
  fold v in Htot, Hpend, Hs0, Hc0.
  destruct (Video_run_first_read black model bicubic bilinear v keys)
    as (first & st0 & -> & Hraw & Hp0 & Hsr & Hcmp & Hk & Hlog).
  rewrite Hpend, Hframes in Hraw, Hp0. cbn in Hraw, Hp0. subst first.
  rewrite Htot.
  destruct (Z.to_nat (vf_frame_count f)) as [ | n] eqn:En; [lia | ].
  cbn [loop].
  pose proof (iteration_pass black model bicubic bilinear v raw st0) as P.
  pose proof (iteration_capture black model bicubic bilinear v raw st0) as Q.
  assert (Hfail : comparison black model bicubic bilinear v raw = Err ValueError).
  { unfold comparison.
    apply (final_image_too_big black bicubic bilinear h w); assumption. }
  destruct (iteration black model bicubic bilinear v (Some raw) st0)
    as [next st' | st' | e st'].
  - inversion P; subst; congruence.
  - inversion P; subst; congruence.
  - inversion P as [e' st'' Hc' Hsr' Hcmp' Hlog' | | ]; subst.
    destruct Q as (Hcap & _).
    assert (e = ValueError) by congruence. subst e.
    exists st'. rewrite Hsr', Hcmp', Hlog', Hcap, Hsr, Hcmp, Hlog, Hs0, Hc0.
    repeat split.
Qed.

(** The sample clip at factor 4: transformed frames of 100 x 8 with a tile
    side of 11. *)
Lemma wide_frame_stops_the_first_pass_witness :
  exists st,
    Video_run 0 (Sample.net 4) Sample.nearest Sample.nearest
              (Video_init Sample.disk (Sample.cli "videos/clip.mp4" 4 false)) []
    = Raised ValueError st /\
    sr_frames st = [Sample.net 4 (Sample.frame 1)] /\
    compare_frames st = [] /\
    rs_log st = [EvRead; EvModel; EvWriteSr] /\
    cap_pending (rs_capture st) = [Sample.frame 2; Sample.frame 3].
Proof.
  apply (wide_frame_stops_the_first_pass
           nat 0 (Sample.net 4) Sample.nearest Sample.nearest Sample.disk
           (Sample.cli "videos/clip.mp4" 4 false) Sample.clip []
           (Sample.frame 1) [Sample.frame 2; Sample.frame 3] 8 100
           eq_refl eq_refl).
  - reflexivity.
  - apply (Sample_net_scales 4 2 25 (Sample.frame 1)).
    split; [reflexivity | repeat constructor].
  - lia.
  - vm_compute. reflexivity.
Defined.

(** [tester.py], lines 178-184: how the comparison frame is put together.
    On a transformed frame of [h] rows and [w] columns whose tile fits, the
    frame that is written is the top strip, unchanged, over the bottom strip
    resampled to the width [2 * w + 10] of the top strip and to its own
    height [tile + 5]: the height computed in floating point at line 178 is
    exact.  When 5 divides [w] the bottom strip has that size already. *)
Theorem comparison_frame_stacks_the_strips
        (pixel : Type) (black : pixel)
        (bicubic bilinear : nat -> nat -> image pixel -> image pixel)
        (h w : nat) (raw_frame sr : image pixel) :
  (forall h w img, 0 < h -> 0 < w -> rect h w (bicubic h w img)) ->
  (forall h w img, 0 < h -> 0 < w -> rect h w (bilinear h w img)) ->
  rect h w sr -> 0 < h ->
  (0 < crop_tile_size (Z.of_nat w))%Z ->
  (crop_tile_size (Z.of_nat w) <= Z.of_nat h)%Z ->
  (2 * Z.of_nat w + 10 < 2 ^ 31)%Z ->
  let n := Z.to_nat (crop_tile_size (Z.of_nat w)) in
  exists top_img bottom_img,
    strips black bicubic (Z.of_nat w, Z.of_nat h) raw_frame sr
    = Ok (top_img, bottom_img) /\
    final_image black bicubic bilinear (Z.of_nat w, Z.of_nat h) raw_frame sr
    = Ok (top_img ++ bilinear (n + 5) (2 * w + 10) bottom_img) /\
    rect (h + 5) (2 * w + 10) top_img /\
    rect (n + 5) (10 * (n + 10)) bottom_img /\
    (w mod 5 = 0 -> 10 * (n + 10) = 2 * w + 10).
Proof.
  intros Hbic Hbil Hsr Hh Ht Hfit Hw n.
  destruct (strips_rect black bicubic Hbic h w raw_frame sr Hsr Hh Ht Hfit)
    as (top & bottom & E & Htop & Hbottom).
  fold n in Hbottom.
  exists top, bottom. split; [exact E | ]. split; [ | split; [exact Htop | split]].
  - unfold final_image. rewrite E. cbn [bind fst snd].
    unfold stack_strips, shape0, shape1.
    rewrite (rect_cols _ _ _ Htop ltac:(lia)).
    rewrite (rect_cols _ _ _ Hbottom ltac:(lia)).
    rewrite (rect_rows _ _ _ Hbottom).
    replace (Z.of_nat (2 * w + 10)) with (2 * Z.of_nat w + 10)%Z by lia.
    replace (Z.of_nat (10 * (n + 10)))
      with (10 * (crop_tile_size (Z.of_nat w) + 10))%Z by lia.
    replace (Z.of_nat (n + 5)) with (crop_tile_size (Z.of_nat w) + 5)%Z by lia.
    rewrite bottom_img_height_exact by assumption.
    cbn [bind].
    replace (crop_tile_size (Z.of_nat w) + 5)%Z with (Z.of_nat (n + 5)) by lia.
    replace (2 * Z.of_nat w + 10)%Z with (Z.of_nat (2 * w + 10)) by lia.
    rewrite Resize_value by lia.
    cbn [bind].
    pose proof (Hbil (n + 5) (2 * w + 10) bottom ltac:(lia) ltac:(lia)) as Hb.
    unfold concatenate_axis0. cbn [forallb].
    rewrite (rect_cols _ _ _ Htop ltac:(lia)), (rect_cols _ _ _ Hb ltac:(lia)),
      Nat.eqb_refl.
    cbn [andb concat]. rewrite app_nil_r. reflexivity.
  - exact Hbottom.
  - intros Hmod. unfold n, crop_tile_size in *.
    pose proof (Nat.div_mod_eq w 5) as Hdiv. rewrite Hmod in Hdiv.
    change 5%Z with (Z.of_nat 5) in *.
    rewrite <- (Nat2Z.inj_div w 5) in *. lia.
Qed.

(** The first frame of the sample clip: 50 x 4, tile side 1. *)
Lemma comparison_frame_stacks_the_strips_witness :
  exists top_img bottom_img,
    strips 0 Sample.nearest (Z.of_nat 50, Z.of_nat 4) (Sample.frame 1)
           (Sample.net 2 (Sample.frame 1))
    = Ok (top_img, bottom_img) /\
    final_image 0 Sample.nearest Sample.nearest (Z.of_nat 50, Z.of_nat 4)
                (Sample.frame 1) (Sample.net 2 (Sample.frame 1))
    = Ok (top_img ++ Sample.nearest (1 + 5) (2 * 50 + 10) bottom_img) /\
    rect (4 + 5) (2 * 50 + 10) top_img /\
    rect (1 + 5) (10 * (1 + 10)) bottom_img /\
    (50 mod 5 = 0 -> 10 * (1 + 10) = 2 * 50 + 10).
Proof.
  apply (comparison_frame_stacks_the_strips
           nat 0 Sample.nearest Sample.nearest 4 50 (Sample.frame 1)
           (Sample.net 2 (Sample.frame 1)) Sample_kernel_rect Sample_kernel_rect).
  - apply (Sample_net_scales 2 2 25 (Sample.frame 1)).
    split; [reflexivity | repeat constructor].
  - lia.
  - reflexivity.
  - discriminate.
  - reflexivity.
Defined.

(* ===================================================================== *)
(** * Where the output files go: [os.path.basename] and the file names *)
(* ===================================================================== *)

Lemma has_slash_append (s1 s2 : string) :
  has_slash (s1 ++ s2) = has_slash s1 || has_slash s2.
Proof.
  induction s1 as [ | c s1 IH]; [reflexivity | ].
  cbn [append has_slash]. rewrite IH. apply orb_assoc.
Qed.

Lemma string_length_append (s1 s2 : string) :
  String.length (s1 ++ s2) = String.length s1 + String.length s2.
Proof.
  induction s1 as [ | c s1 IH]; [reflexivity | ].
  cbn [append String.length]. rewrite IH. reflexivity.
Qed.

Lemma has_slash_uint (d : Decimal.uint) :
  has_slash (NilEmpty.string_of_uint d) = false.
Proof. induction d; cbn; auto. Qed.

(** A decimal numeral holds no slash. *)
Lemma has_slash_str_of_int (n : Z) : has_slash (str_of_int n) = false.
Proof.
  unfold str_of_int, NilZero.string_of_int, NilZero.string_of_uint.
  destruct (Z.to_int n) as [d | d]; destruct d;
    try reflexivity; cbn [has_slash]; cbn; apply has_slash_uint.
Qed.

Lemma basename_from_no_slash (p : string) :
  forall acc, has_slash acc = false -> has_slash (basename_from acc p) = false.
Proof.
  induction p as [ | c p IH]; intros acc Hacc; cbn [basename_from].
  - exact Hacc.
  - destruct (Ascii.eqb c "/") eqn:Ec.
    + apply IH. reflexivity.
    + apply IH. rewrite has_slash_append, Hacc. cbn. rewrite Ec. reflexivity.
Qed.

Lemma basename_from_plain (p : string) :
  forall acc, has_slash p = false -> basename_from acc p = (acc ++ p)%string.
Proof.
  induction p as [ | c p IH]; intros acc Hp; cbn [basename_from].
  - clear. induction acc as [ | a acc IH]; [reflexivity | ]. cbn. rewrite <- IH. reflexivity.
  - cbn [has_slash] in Hp. apply orb_false_iff in Hp. destruct Hp as [Hc Hp].
    rewrite Hc, (IH _ Hp).
    clear. induction acc as [ | a acc IH]; [reflexivity | ]. cbn. rewrite IH. reflexivity.
Qed.

Lemma basename_from_join (dir name : string) :
  has_slash name = false ->
  forall acc, basename_from acc (dir ++ "/" ++ name) = name.
Proof.
  intros Hname. induction dir as [ | c dir IH]; intros acc.
  - cbn. apply (basename_from_plain name EmptyString Hname).
  - cbn [append basename_from]. destruct (Ascii.eqb c "/"); apply IH.
Qed.

(** [tester.py], lines 98 and 100: both output files are created in the
    working directory.  Whatever the path of the input and whatever the
    scale factor, neither file name holds a slash: the directory part of
    [args.file] is dropped by [os.path.basename] and nothing else can bring
    one in. *)
Theorem outputs_are_created_in_the_working_directory
        (pixel : Type) (disk : string -> option (video_file pixel)) (a : Args) :
  has_slash (vw_filename (sr_writer (Video_init disk a))) = false /\
  has_slash (vw_filename (compare_writer (Video_init disk a))) = false.
Proof.
  assert (Hbase : has_slash (basename (file a)) = false)
    by (apply basename_from_no_slash; reflexivity).
  unfold Video_init. cbn [sr_writer compare_writer vw_filename].
  rewrite !has_slash_append, !has_slash_str_of_int, Hbase. split; reflexivity.
Qed.

(** [tester.py], lines 98 and 100, with [os.path.basename]: the outputs are
    named after the last component of the input path alone.  For an input
    [dir/name] the files are "sr_<s>x_<name>" and "compare_<s>x_<name>",
    whatever [dir] is: inputs of the same name in different directories,
    processed with the same scale factor, are written to the same two
    files. *)
Theorem outputs_are_named_after_the_last_component
        (pixel : Type) (disk : string -> option (video_file pixel))
        (a a' : Args) (dir dir' name : string) :
  has_slash name = false ->
  file a = (dir ++ "/" ++ name)%string ->
  file a' = (dir' ++ "/" ++ name)%string ->
  scale_factor a' = scale_factor a ->
  vw_filename (sr_writer (Video_init disk a))
  = ("sr_" ++ str_of_int (scale_factor a) ++ "x_" ++ name)%string /\
  vw_filename (compare_writer (Video_init disk a))
  = ("compare_" ++ str_of_int (scale_factor a) ++ "x_" ++ name)%string /\
  vw_filename (sr_writer (Video_init disk a'))
  = vw_filename (sr_writer (Video_init disk a)) /\
  vw_filename (compare_writer (Video_init disk a'))
  = vw_filename (compare_writer (Video_init disk a)).
Proof.
  intros Hname Hfile Hfile' Hscale.
  unfold Video_init. cbn [sr_writer compare_writer vw_filename].
  unfold basename. rewrite Hfile, Hfile', Hscale, !(basename_from_join _ name Hname).
  repeat split.
Qed.

(** The sample clip in two directories. *)
Lemma outputs_are_named_after_the_last_component_witness :
  let a := Sample.cli "videos/clip.mp4" 2 false in
  let a' := Sample.cli "/data/other/clip.mp4" 2 true in
  vw_filename (sr_writer (Video_init Sample.disk a)) = "sr_2x_clip.mp4"%string /\
  vw_filename (compare_writer (Video_init Sample.disk a)) = "compare_2x_clip.mp4"%string /\
  vw_filename (sr_writer (Video_init Sample.disk a'))
  = vw_filename (sr_writer (Video_init Sample.disk a)) /\
  vw_filename (compare_writer (Video_init Sample.disk a'))
  = vw_filename (compare_writer (Video_init Sample.disk a)).
Proof.
  exact (outputs_are_named_after_the_last_component
           nat Sample.disk (Sample.cli "videos/clip.mp4" 2 false)
           (Sample.cli "/data/other/clip.mp4" 2 true)
           "videos" "/data/other" "clip.mp4" eq_refl eq_refl eq_refl eq_refl).
Defined.

(** [tester.py], lines 98-101: the two output files never carry the name
    of the input, and never the same name.  An output name is the input's
    last path component behind a prefix, so it is longer than that component
    and, holding no slash, differs from any longer path; the two prefixes
    start with different letters. *)
Theorem outputs_never_take_the_name_of_the_input
        (pixel : Type) (disk : string -> option (video_file pixel)) (a : Args) :
  vw_filename (sr_writer (Video_init disk a)) <> file a /\
  vw_filename (compare_writer (Video_init disk a)) <> file a /\
  vw_filename (sr_writer (Video_init disk a))
  <> vw_filename (compare_writer (Video_init disk a)).
Proof.
  assert (Hfree : forall prefix : string,
             has_slash prefix = false -> String.length prefix <> 0 ->
             (prefix ++ str_of_int (scale_factor a) ++ "x_" ++ basename (file a))%string
             <> file a).
  { intros prefix Hp Hlen Heq.
    assert (Hns : has_slash (file a) = false).
    { rewrite <- Heq, !has_slash_append, Hp, has_slash_str_of_int.
      cbn. apply basename_from_no_slash. reflexivity. }
    apply (f_equal String.length) in Heq.
    unfold basename in Heq.
    rewrite (basename_from_plain _ EmptyString Hns) in Heq.
    rewrite !string_length_append in Heq. cbn in Heq. lia. }
  unfold Video_init. cbn [sr_writer compare_writer vw_filename].
  split; [ | split].
  - apply (Hfree "sr_"%string); [reflexivity | discriminate].
  - apply (Hfree "compare_"%string); [reflexivity | discriminate].
  - cbn [append]. discriminate.
Qed.

(* ===================================================================== *)
(** * Tensor sizes through the networks *)
(* ===================================================================== *)

Section NetworkSizes.

Import Torch.

Ltac div_facts :=
  repeat match goal with
    | |- context [?x / ?d] =>
        lazymatch goal with
        | _ : x = d * (x / d) + x mod d |- _ => fail
        | _ => pose proof (Nat.div_mod_eq x d);
               pose proof (Nat.mod_upper_bound x d ltac:(lia))
        end
    | _ : context [?x / ?d] |- _ =>
        lazymatch goal with
        | _ : x = d * (x / d) + x mod d |- _ => fail
        | _ => pose proof (Nat.div_mod_eq x d);
               pose proof (Nat.mod_upper_bound x d ltac:(lia))
        end
    | |- context [?x mod ?d] =>
        lazymatch goal with
        | _ : x = d * (x / d) + x mod d |- _ => fail
        | _ => pose proof (Nat.div_mod_eq x d);
               pose proof (Nat.mod_upper_bound x d ltac:(lia))
        end
    | _ : context [?x mod ?d] |- _ =>
        lazymatch goal with
        | _ : x = d * (x / d) + x mod d |- _ => fail
        | _ => pose proof (Nat.div_mod_eq x d);
               pose proof (Nat.mod_upper_bound x d ltac:(lia))
        end
    end.

Ltac div_lia := div_facts; lia.

Ltac leb_true := rewrite (proj2 (Nat.leb_le _ _)) by div_lia.

(** ** Convolutions *)

Lemma conv_size_same (x k p : nat) :
  k = 2 * p + 1 -> conv_size x k 1 p = kept x.
Proof.
  intros ->. unfold conv_size, kept. cbn [Nat.eqb]. rewrite orb_false_r.
  destruct (Nat.ltb_spec (x + 2 * p) (2 * p + 1)) as [H | H];
    destruct (Nat.leb_spec 1 x) as [H' | H']; try lia; try reflexivity.
  f_equal. rewrite Nat.div_1_r. lia.
Qed.

Lemma conv_size_3_2_1 (x : nat) :
  conv_size x 3 2 1 = if 1 <=? x then Some ((x + 1) / 2) else None.
Proof.
  unfold conv_size. cbn [Nat.eqb]. rewrite orb_false_r.
  destruct (Nat.ltb_spec (x + 2 * 1) 3) as [H | H];
    destruct (Nat.leb_spec 1 x) as [H' | H']; try lia; try reflexivity.
  f_equal. div_lia.
Qed.



(** ** Layers that treat rows and columns alike *)

Lemma per_extent_ext (cin cout : nat) (f g : nat -> option nat) (m : nn_Module) :
  (forall x, f x = g x) -> per_extent cin cout f m -> per_extent cin cout g m.
Proof. intros E H n h w. rewrite <- !E. apply H. Qed.

Lemma per_extent_Conv2d (cin cout k s p g : nat) :
  0 < g -> cin mod g = 0 -> cout mod g = 0 ->
  per_extent cin cout (fun x => conv_size x k s p) (Conv2d cin cout k s p g).
Proof.
  intros Hg Hin Hout n h w. unfold Conv2d.
  rewrite Nat.eqb_refl, Hin, Hout, (proj2 (Nat.ltb_lt 0 g) Hg). cbn [andb Nat.eqb].
  destruct (conv_size h k s p), (conv_size w k s p); reflexivity.
Qed.

Lemma Conv2d_other_channels (cin cout k s p g n c h w : nat) :
  c <> cin -> Conv2d cin cout k s p g [n; c; h; w] = None.
Proof.
  intros Hc. unfold Conv2d. rewrite (proj2 (Nat.eqb_neq c cin) Hc). reflexivity.
Qed.

Lemma per_extent_BatchNorm2d (c : nat) : per_extent c c Some (BatchNorm2d c).
Proof. intros n h w. unfold BatchNorm2d. rewrite Nat.eqb_refl. reflexivity. Qed.

Lemma per_extent_PReLU (c : nat) : per_extent c c Some PReLU.
Proof. intros n h w. reflexivity. Qed.

Lemma per_extent_LeakyReLU (c : nat) : per_extent c c Some LeakyReLU.
Proof. intros n h w. reflexivity. Qed.

Lemma per_extent_Tanh (c : nat) : per_extent c c Some Tanh.
Proof. intros n h w. reflexivity. Qed.

Lemma per_extent_nil (c : nat) : per_extent c c Some (Sequential []).
Proof. intros n h w. reflexivity. Qed.

Lemma per_extent_cons (c1 c2 c3 : nat) (f g : nat -> option nat)
      (m : nn_Module) (ms : list nn_Module) :
  per_extent c1 c2 f m -> per_extent c2 c3 g (Sequential ms) ->
  per_extent c1 c3 (fun x => and_then (f x) g) (Sequential (m :: ms)).
Proof.
  intros Hm Hms n h w. cbn [Sequential]. rewrite Hm.
  destruct (f h) as [h' | ], (f w) as [w' | ]; cbn [and_then]; try reflexivity.
  - apply Hms.
  - destruct (g h'); reflexivity.
Qed.

(** A stack of convolutions, normalisations and activations, layer by
    layer. *)
Ltac layers :=
  repeat first
    [ apply per_extent_nil
    | eapply per_extent_cons;
      [ first [ apply per_extent_Conv2d;
                [ lia
                | first [reflexivity | apply Nat.mod_1_r | apply Nat.Div0.mod_same]
                | first [reflexivity | apply Nat.mod_1_r | apply Nat.Div0.mod_same] ]
              | apply per_extent_BatchNorm2d
              | apply per_extent_PReLU
              | apply per_extent_LeakyReLU
              | apply per_extent_Tanh ]
      | ] ].

(** Such a stack keeps the extents when all its convolutions do. *)
Ltac keeps :=
  let x := fresh "x" in
  let E := fresh "E" in
  intros x; cbn beta; unfold kept at 1;
  destruct (1 <=? x) eqn:E;
  repeat (rewrite conv_size_same by reflexivity; unfold kept at 1; rewrite E;
          cbn [and_then]);
  reflexivity.

Lemma Sequential_repeat_fixed (m : nn_Module) (x : shape) (k : nat) :
  m x = Some x -> Sequential (repeat m k) x = Some x.
Proof.
  intros H. induction k as [ | k IH]; cbn [repeat Sequential]; [reflexivity | ].
  rewrite H. exact IH.
Qed.

(** ** Sums *)

Lemma broadcast_extent_same (x : nat) : broadcast_extent x x = Some x.
Proof. unfold broadcast_extent. rewrite Nat.eqb_refl. reflexivity. Qed.

Lemma add_4d (n c h1 w1 h2 w2 : nat) :
  add [n; c; h1; w1] [n; c; h2; w2]
  = match broadcast_extent h1 h2, broadcast_extent w1 w2 with
    | Some h, Some w => Some [n; c; h; w]
    | _, _ => None
    end.
Proof.
  unfold add. cbn [rev app broadcast].
  rewrite !broadcast_extent_same. cbn [and_then].
  destruct (broadcast_extent h1 h2), (broadcast_extent w1 w2); reflexivity.
Qed.

Lemma add_same_4d (n c h w : nat) : add [n; c; h; w] [n; c; h; w] = Some [n; c; h; w].
Proof. rewrite add_4d, !broadcast_extent_same. reflexivity. Qed.

(** ** [srgan.py] *)

Lemma ResidualBlock_main_extent (c : nat) : per_extent c c kept (ResidualBlock_main c).
Proof.
  eapply per_extent_ext; cycle 1; [unfold ResidualBlock_main; layers | keeps].
Qed.

Lemma ResidualBlock_fixed (n c h w : nat) :
  1 <= h -> 1 <= w -> ResidualBlock c [n; c; h; w] = Some [n; c; h; w].
Proof.
  intros Hh Hw. unfold ResidualBlock. rewrite ResidualBlock_main_extent.
  unfold kept. do 2 leb_true. cbn [and_then]. apply add_same_4d.
Qed.

Lemma SRGAN_conv1_extent : per_extent 3 64 kept SRGAN_conv1.
Proof. eapply per_extent_ext; cycle 1; [unfold SRGAN_conv1; layers | keeps]. Qed.

Lemma SRGAN_conv2_extent : per_extent 64 64 kept SRGAN_conv2.
Proof. eapply per_extent_ext; cycle 1; [unfold SRGAN_conv2; layers | keeps]. Qed.

Lemma PixelShuffle_2_256 (n h w : nat) :
  PixelShuffle 2 [n; 256; h; w] = Some [n; 64; h * 2; w * 2].
Proof. reflexivity. Qed.

Lemma SRGAN_upsampling_shape (k : nat) :
  forall n h w : nat,
  1 <= h -> 1 <= w ->
  SRGAN_upsampling k [n; 64; h; w] = Some [n; 64; h * 2 ^ k; w * 2 ^ k].
Proof.
  unfold SRGAN_upsampling.
  induction k as [ | k IH]; intros n h w Hh Hw.
  - cbn [repeat concat Sequential Nat.pow]. rewrite !Nat.mul_1_r. reflexivity.
  - cbn [repeat concat app Sequential].
    rewrite (per_extent_Conv2d 64 256 3 1 1 1 ltac:(lia) eq_refl eq_refl).
    rewrite !conv_size_same by reflexivity. unfold kept. do 2 leb_true.
    cbn [and_then]. rewrite PixelShuffle_2_256. cbn [and_then PReLU].
    rewrite IH by lia. rewrite !Nat.pow_succ_r', !Nat.mul_assoc. reflexivity.
Qed.

Lemma SRGAN_conv3_extent : per_extent 64 3 kept SRGAN_conv3.
Proof.
  eapply per_extent_ext; [ | apply per_extent_Conv2d; [lia | reflexivity | reflexivity]].
  intros x. apply conv_size_same. reflexivity.
Qed.

(** [srgan.py], [SRGAN.__init__] and [SRGAN.forward]: the generator built
    with [num_upsample_block] upsampling blocks takes a batch of
    three-channel images of at least one row and one column to a batch of
    three-channel images with [2 ^ num_upsample_block] times the rows and
    the columns; the sixteen residual blocks and the long skip connection
    keep the size, each upsampling block doubles it.  On any other
    four-dimensional input [forward] raises. *)
Theorem SRGAN_enlarges_by_a_power_of_two (num_upsample_block n c h w : nat) :
  SRGAN num_upsample_block [n; c; h; w]
  = if (c =? 3) && (1 <=? h) && (1 <=? w)
    then Some [n; 3; h * 2 ^ num_upsample_block; w * 2 ^ num_upsample_block]
    else None.
Proof.
  unfold SRGAN.
  destruct (Nat.eqb_spec c 3) as [-> | Hc]; cbn [andb].
  - rewrite SRGAN_conv1_extent. unfold kept.
    destruct (Nat.leb_spec 1 h) as [Hh | Hh]; [ | reflexivity].
    destruct (Nat.leb_spec 1 w) as [Hw | Hw]; [ | reflexivity].
    cbn [and_then andb].
    unfold SRGAN_trunk.
    rewrite Sequential_repeat_fixed by (apply ResidualBlock_fixed; assumption).
    cbn [and_then].
    rewrite SRGAN_conv2_extent. unfold kept. do 2 leb_true. cbn [and_then].
    rewrite add_same_4d. cbn [and_then].
    rewrite SRGAN_upsampling_shape by assumption. cbn [and_then].
    rewrite SRGAN_conv3_extent. unfold kept.
    pose proof (Nat.pow_nonzero 2 num_upsample_block ltac:(lia)) as Hp.
    rewrite (proj2 (Nat.leb_le 1 (h * 2 ^ num_upsample_block))) by nia.
    rewrite (proj2 (Nat.leb_le 1 (w * 2 ^ num_upsample_block))) by nia.
    reflexivity.
  - unfold SRGAN_conv1. cbn [Sequential].
    rewrite Conv2d_other_channels by exact Hc. reflexivity.
Qed.

(** ** [u_net.py] *)

Lemma SymmetricBlock_body1_extent (cin cout : nat) :
  0 < cin -> per_extent cin cout kept (SymmetricBlock_body1 cin cout).
Proof.
  intros Hc.
  eapply per_extent_ext; cycle 1;
    [unfold SymmetricBlock_body1; cbv zeta; layers | keeps].
Qed.

Lemma SymmetricBlock_body2_extent (cin cout : nat) :
  0 < cin -> per_extent cout cin kept (SymmetricBlock_body2 cin cout).
Proof.
  intros Hc.
  eapply per_extent_ext; cycle 1;
    [unfold SymmetricBlock_body2; cbv zeta; layers | keeps].
Qed.

(** The block halves each extent (rounding up), doubles it again and adds
    its input to the result. *)
Lemma SymmetricBlock_shape (cin cout n h w : nat) :
  0 < cin -> 1 <= h -> 1 <= w ->
  SymmetricBlock cin cout [n; cin; h; w]
  = match broadcast_extent ((h + 1) / 2 * 2) h, broadcast_extent ((w + 1) / 2 * 2) w with
    | Some h', Some w' => Some [n; cin; h'; w']
    | _, _ => None
    end.
Proof.
  intros Hc Hh Hw. unfold SymmetricBlock, SymmetricBlock_down.
  rewrite (per_extent_Conv2d cin cin 3 2 1 1 ltac:(lia) (Nat.mod_1_r _) (Nat.mod_1_r _)).
  rewrite !conv_size_3_2_1. do 2 leb_true. cbn [and_then].
  rewrite (SymmetricBlock_body1_extent cin cout Hc). unfold kept. do 2 leb_true.
  cbn [and_then SymmetricBlock_up Upsample].
  rewrite (SymmetricBlock_body2_extent cin cout Hc). unfold kept. do 2 leb_true.
  cbn [and_then]. apply add_4d.
Qed.

Lemma doubled_half_even (x : nat) : x mod 2 = 0 -> (x + 1) / 2 * 2 = x.
Proof. intros H. div_lia. Qed.

Lemma doubled_half_odd (x : nat) : x mod 2 = 1 -> (x + 1) / 2 * 2 = x + 1.
Proof. intros H. div_lia. Qed.

Lemma SymmetricBlock_fixed (cin cout n h w : nat) :
  0 < cin -> 2 <= h -> 2 <= w -> h mod 2 = 0 -> w mod 2 = 0 ->
  SymmetricBlock cin cout [n; cin; h; w] = Some [n; cin; h; w].
Proof.
  intros Hc Hh Hw Eh Ew.
  rewrite SymmetricBlock_shape by lia.
  rewrite !doubled_half_even, !broadcast_extent_same by assumption. reflexivity.
Qed.

Lemma broadcast_extent_odd (x : nat) :
  3 <= x -> x mod 2 = 1 -> broadcast_extent ((x + 1) / 2 * 2) x = None.
Proof.
  intros Hx Ex. rewrite doubled_half_odd by exact Ex. unfold broadcast_extent.
  rewrite (proj2 (Nat.eqb_neq (x + 1) x)), (proj2 (Nat.eqb_neq (x + 1) 1)),
    (proj2 (Nat.eqb_neq x 1)) by lia.
  reflexivity.
Qed.

Lemma SymmetricBlock_odd (cin cout n h w : nat) :
  0 < cin -> 1 <= h -> 1 <= w ->
  (3 <= h /\ h mod 2 = 1) \/ (3 <= w /\ w mod 2 = 1) ->
  SymmetricBlock cin cout [n; cin; h; w] = None.
Proof.
  intros Hc Hh Hw Hodd.
  rewrite SymmetricBlock_shape by lia.
  destruct Hodd as [[H3 Ho] | [H3 Ho]]; rewrite (broadcast_extent_odd _ H3 Ho).
  - reflexivity.
  - destruct (broadcast_extent _ h); reflexivity.
Qed.

(** [u_net.py], [SymmetricBlock.forward]: the block needs even sizes.  It
    halves rows and columns with a convolution of stride 2 (rounding up),
    doubles them again and adds its input to the result; on at least two
    rows and two columns, both even, the output has the size of the input,
    and on an odd number of at least three rows (or columns) the sum at the
    end raises, the two sizes differing by one.  A single row (or column)
    is not refused: the sum broadcasts it, and the output has two. *)
Theorem SymmetricBlock_needs_even_sizes (in_channels out_channels n h w : nat) :
  0 < in_channels ->
  (2 <= h -> 2 <= w -> h mod 2 = 0 -> w mod 2 = 0 ->
   SymmetricBlock in_channels out_channels [n; in_channels; h; w]
   = Some [n; in_channels; h; w]) /\
  (1 <= h -> 1 <= w ->
   (3 <= h /\ h mod 2 = 1) \/ (3 <= w /\ w mod 2 = 1) ->
   SymmetricBlock in_channels out_channels [n; in_channels; h; w] = None) /\
  SymmetricBlock in_channels out_channels [n; in_channels; 1; 1]
  = Some [n; in_channels; 2; 2].
Proof.
  intros Hc. split; [ | split].
  - intros. apply SymmetricBlock_fixed; assumption.
  - intros. apply SymmetricBlock_odd; assumption.
  - rewrite SymmetricBlock_shape by lia. reflexivity.
Qed.

(** The blocks of [UNet], 64 channels in and out, on 6 x 8, on 5 x 8 and on
    1 x 1. *)
Lemma SymmetricBlock_needs_even_sizes_witness :
  SymmetricBlock 64 64 [1; 64; 6; 8] = Some [1; 64; 6; 8] /\
  SymmetricBlock 64 64 [1; 64; 5; 8] = None /\
  SymmetricBlock 64 64 [1; 64; 1; 1] = Some [1; 64; 2; 2].
Proof.
  split; [ | split].
  - apply (proj1 (SymmetricBlock_needs_even_sizes 64 64 1 6 8 ltac:(lia)));
      [lia | lia | reflexivity | reflexivity].
  - apply (proj1 (proj2 (SymmetricBlock_needs_even_sizes 64 64 1 5 8 ltac:(lia))));
      [lia | lia | left; split; [lia | reflexivity]].
  - exact (proj2 (proj2 (SymmetricBlock_needs_even_sizes 64 64 1 1 1 ltac:(lia)))).
Defined.

Lemma UNet_conv1_extent : per_extent 3 64 kept UNet_conv1.
Proof.
  eapply per_extent_ext; [ | apply per_extent_Conv2d; [lia | reflexivity | reflexivity]].
  intros x. apply conv_size_same. reflexivity.
Qed.

Lemma UNet_conv3_extent : per_extent 64 64 kept UNet_conv3.
Proof. eapply per_extent_ext; cycle 1; [unfold UNet_conv3; layers | keeps]. Qed.

Lemma UNet_conv4_extent : per_extent 64 3 kept UNet_conv4.
Proof. eapply per_extent_ext; cycle 1; [unfold UNet_conv4; layers | keeps]. Qed.

Lemma UNet_upsampling_shape (n h w : nat) :
  1 <= h -> 1 <= w ->
  UNet_upsampling [n; 64; h; w] = Some [n; 64; h * 2 * 2; w * 2 * 2].
Proof.
  intros Hh Hw. unfold UNet_upsampling.
  cbn [repeat concat app Sequential Upsample and_then].
  rewrite SymmetricBlock_fixed by (try apply Nat.Div0.mod_mul; lia).
  cbn [and_then].
  rewrite (per_extent_Conv2d 64 256 3 1 1 1 ltac:(lia) eq_refl eq_refl).
  rewrite !conv_size_same by reflexivity. unfold kept. do 2 leb_true.
  cbn [and_then LeakyReLU]. rewrite PixelShuffle_2_256. cbn [and_then].
  rewrite SymmetricBlock_fixed by (try apply Nat.Div0.mod_mul; lia).
  reflexivity.
Qed.

(** [u_net.py], [UNet.forward]: on a batch of three-channel images with an
    even number of rows and an even number of columns the generator returns
    three-channel images of four times the rows and four times the columns:
    the ten symmetric blocks keep the size, the nearest-neighbour upsampling
    and the pixel shuffle double it once each. *)
Theorem UNet_enlarges_even_images_four_times (n h w : nat) :
  2 <= h -> 2 <= w -> h mod 2 = 0 -> w mod 2 = 0 ->
  UNet [n; 3; h; w] = Some [n; 3; 4 * h; 4 * w].
Proof.
  intros Hh Hw Eh Ew. unfold UNet.
  rewrite UNet_conv1_extent. unfold kept. do 2 leb_true. cbn [and_then].
  unfold UNet_Trunk, UNet_unet.
  rewrite Sequential_repeat_fixed by (apply SymmetricBlock_fixed; (assumption || lia)).
  cbn [and_then].
  rewrite SymmetricBlock_fixed by (assumption || lia). cbn [and_then].
  rewrite add_same_4d. cbn [and_then].
  rewrite UNet_upsampling_shape by lia. cbn [and_then].
  rewrite UNet_conv3_extent. unfold kept. do 2 leb_true. cbn [and_then].
  rewrite UNet_conv4_extent. unfold kept. do 2 leb_true.
  replace (4 * h) with (h * 2 * 2) by lia.
  replace (4 * w) with (w * 2 * 2) by lia.
  reflexivity.
Qed.

(** A batch of one image of 6 x 8. *)
Lemma UNet_enlarges_even_images_four_times_witness :
  UNet [1; 3; 6; 8] = Some [1; 3; 4 * 6; 4 * 8].
Proof.
  apply UNet_enlarges_even_images_four_times; [lia | lia | reflexivity | reflexivity].
Defined.

(** [u_net.py], [UNet.forward]: images with an odd number of at least three
    rows, or of at least three columns, are refused.  The first symmetric
    block of the trunk halves that extent rounding up and doubles it again,
    and adding the block's input to the result raises; a frame of odd
    width or height cannot pass this generator. *)
Theorem UNet_refuses_odd_sizes (n h w : nat) :
  1 <= h -> 1 <= w ->
  (3 <= h /\ h mod 2 = 1) \/ (3 <= w /\ w mod 2 = 1) ->
  UNet [n; 3; h; w] = None.
Proof.
  intros Hh Hw Hodd. unfold UNet.
  rewrite UNet_conv1_extent. unfold kept. do 2 leb_true. cbn [and_then].
  unfold UNet_Trunk. cbn [repeat Sequential].
  rewrite SymmetricBlock_odd by (assumption || lia). reflexivity.
Qed.

(** A batch of one image of 5 rows and 8 columns. *)
Lemma UNet_refuses_odd_sizes_witness : UNet [1; 3; 5; 8] = None.
Proof.
  apply UNet_refuses_odd_sizes; [lia | lia | left; split; [lia | reflexivity]].
Defined.

(** ** [vgg.py] *)





End NetworkSizes.

(* ===================================================================== *)
(** * The total variation loss on images of one row or one column *)
(* ===================================================================== *)

Lemma concat_nils {A : Type} (l : list (list A)) :
  Forall (fun x => x = []) l -> concat l = [].
Proof.
  induction 1 as [ | x l Hx _ IH]; [reflexivity | ].
  cbn [concat]. rewrite Hx, IH. reflexivity.
Qed.

Lemma concat_map_nils {A B : Type} (f : A -> list B) (l : list A) :
  Forall (fun x => f x = []) l -> concat (map f l) = [].
Proof. intros H. apply concat_nils. apply Forall_map. exact H. Qed.

Lemma SFadd_nan_l (prec emax : Z) (y : spec_float) : SFadd prec emax S754_nan y = S754_nan.
Proof. reflexivity. Qed.

Lemma SFadd_nan_r (prec emax : Z) (x : spec_float) : SFadd prec emax x S754_nan = S754_nan.
Proof. destruct x; reflexivity. Qed.

Lemma SFmul_nan_r (prec emax : Z) (x : spec_float) : SFmul prec emax x S754_nan = S754_nan.
Proof. destruct x; reflexivity. Qed.

Lemma SFdiv_nan_l (prec emax : Z) (y : spec_float) : SFdiv prec emax S754_nan y = S754_nan.
Proof. reflexivity. Qed.

Section LossFacts.

Variable prec emax : Z.
Variable tensor_sum : list spec_float -> spec_float.
Hypothesis tensor_sum_nil : tensor_sum [] = S754_zero false.

Local Abbreviation forward := (Loss.TVLoss_forward prec emax tensor_sum).

(** The squared differences between the rows of a one-row image: none. *)
Lemma no_row_differences (t : Loss.Tensor) (b c w : nat) :
  Loss.size t = (b, c, 1, w) -> Loss.well_formed t ->
  Loss.sum tensor_sum
    (Loss.pow2 prec emax
       (Loss.sub prec emax (Loss.rows_from 1 t) (Loss.rows_to (Z.of_nat 1 - 1) t)))
  = S754_zero false.
Proof.
  intros Hsize Hwf. unfold Loss.well_formed in Hwf. rewrite Hsize in Hwf.
  destruct Hwf as [_ Hwf].
  unfold Loss.sum, Loss.pow2, Loss.sub, Loss.rows_from, Loss.rows_to.
  rewrite Hsize. cbn [Loss.entries Loss.size].
  rewrite <- tensor_sum_nil. f_equal.
  apply concat_nils. apply Forall_forall. intros x Hx.
  apply in_concat in Hx. destruct Hx as (cs & Hcs & Hx).
  apply in_concat in Hcs. destruct Hcs as (img & Himg & Hcs).
  apply in_map_iff in Himg. destruct Himg as (img0 & <- & Himg0).
  apply in_map_iff in Hcs. destruct Hcs as (ch0 & <- & Hch0).
  unfold Loss.zip_with in Himg0.
  apply in_map_iff in Himg0. destruct Himg0 as ([i1 i2] & <- & Hp).
  cbn [fst snd] in Hch0.
  unfold Loss.zip_with in Hch0.
  apply in_map_iff in Hch0. destruct Hch0 as ([c1 c2] & <- & Hq).
  cbn [fst snd] in Hx.
  apply in_combine_l in Hp. apply in_combine_l in Hq.
  apply in_map_iff in Hp. destruct Hp as (i0 & <- & Hi0).
  apply in_map_iff in Hq. destruct Hq as (c0 & <- & Hc0).
  rewrite Forall_forall in Hwf. destruct (Hwf i0 Hi0) as [_ Hchs].
  rewrite Forall_forall in Hchs. destruct (Hchs c0 Hc0) as [Hlen _].
  destruct c0 as [ | r [ | r' c0]]; try discriminate.
  cbn in Hx. destruct Hx.
Qed.

(** The squared differences between the columns of a one-column image:
    none either. *)
Lemma no_column_differences (t : Loss.Tensor) (b c h : nat) :
  Loss.size t = (b, c, h, 1) -> Loss.well_formed t ->
  Loss.sum tensor_sum
    (Loss.pow2 prec emax
       (Loss.sub prec emax (Loss.columns_from 1 t)
                 (Loss.columns_to (Z.of_nat 1 - 1) t)))
  = S754_zero false.
Proof.
  intros Hsize Hwf. unfold Loss.well_formed in Hwf. rewrite Hsize in Hwf.
  destruct Hwf as [_ Hwf].
  unfold Loss.sum, Loss.pow2, Loss.sub, Loss.columns_from, Loss.columns_to.
  rewrite Hsize. cbn [Loss.entries Loss.size].
  rewrite <- tensor_sum_nil. f_equal.
  apply concat_nils. apply Forall_forall. intros x Hx.
  apply in_concat in Hx. destruct Hx as (cs & Hcs & Hx).
  apply in_concat in Hcs. destruct Hcs as (img & Himg & Hcs).
  apply in_map_iff in Himg. destruct Himg as (img0 & <- & Himg0).
  apply in_map_iff in Hcs. destruct Hcs as (ch0 & <- & Hch0).
  apply in_map_iff in Hx. destruct Hx as (r0 & <- & Hr0).
  unfold Loss.zip_with in Himg0.
  apply in_map_iff in Himg0. destruct Himg0 as ([i1 i2] & <- & Hp).
  cbn [fst snd] in Hch0.
  unfold Loss.zip_with in Hch0.
  apply in_map_iff in Hch0. destruct Hch0 as ([c1 c2] & <- & Hq).
  cbn [fst snd] in Hr0.
  unfold Loss.zip_with in Hr0.
  apply in_map_iff in Hr0. destruct Hr0 as ([r1 r2] & <- & Hr).
  cbn [fst snd].
  apply in_combine_l in Hp. apply in_combine_l in Hq. apply in_combine_l in Hr.
  apply in_map_iff in Hp. destruct Hp as (i0 & <- & Hi0).
  apply in_map_iff in Hq. destruct Hq as (c0 & <- & Hc0).
  apply in_map_iff in Hr. destruct Hr as (r & <- & Hrow).
  rewrite Forall_forall in Hwf. destruct (Hwf i0 Hi0) as [_ Hchs].
  rewrite Forall_forall in Hchs. destruct (Hchs c0 Hc0) as [_ Hrows].
  rewrite Forall_forall in Hrows. pose proof (Hrows r Hrow) as Hlen.
  destruct r as [ | e [ | e' r]]; try discriminate.
  reflexivity.
Qed.

End LossFacts.

(** [loss.py], [TVLoss.forward] and [TVLoss.tensor_size]: on a batch of
    images of one row, or of one column, the loss is NaN whatever the
    entries and the weight are.  The slice that drops the first row (or
    column) is empty, so the sum of squared differences is 0 and is divided
    by a count of 0; the NaN of 0 / 0 goes through the sum, the product
    with the weight and the division by the batch size.  Nothing raises. *)
Theorem TVLoss_is_nan_on_one_row_or_one_column
        (prec emax : Z) (tensor_sum : list spec_float -> spec_float)
        (weight : spec_float) (input : Loss.Tensor) (b c h w : nat) :
  tensor_sum [] = S754_zero false ->
  Loss.size input = (b, c, h, w) ->
  Loss.well_formed input ->
  h = 1 \/ w = 1 ->
  Loss.TVLoss_forward prec emax tensor_sum weight input = S754_nan.
Proof.
  intros Hsum Hsize Hwf Hone. unfold Loss.TVLoss_forward. rewrite Hsize.
  destruct Hone as [-> | ->].
  - rewrite (no_row_differences prec emax tensor_sum Hsum input b c w Hsize Hwf).
    unfold Loss.tensor_size at 1, Loss.rows_from at 1. rewrite Hsize.
    cbn [Loss.size]. replace (c * (1 - 1) * w) with 0 by lia.
    change (Loss.scalar prec emax 0) with (S754_zero false).
    change (SFdiv prec emax (S754_zero false) (S754_zero false)) with S754_nan.
    rewrite SFadd_nan_l, SFmul_nan_r. apply SFdiv_nan_l.
  - rewrite (no_column_differences prec emax tensor_sum Hsum input b c h Hsize Hwf).
    unfold Loss.tensor_size at 2, Loss.columns_from at 1. rewrite Hsize.
    cbn [Loss.size]. replace (c * h * (1 - 1)) with 0 by lia.
    change (Loss.scalar prec emax 0) with (S754_zero false).
    change (SFdiv prec emax (S754_zero false) (S754_zero false)) with S754_nan.
    rewrite SFadd_nan_r, SFmul_nan_r. apply SFdiv_nan_l.
Qed.

(** One float32 image of one channel, one row and two columns, with the
    entries added from left to right. *)
Lemma TVLoss_is_nan_on_one_row_or_one_column_witness :
  Loss.TVLoss_forward 24 128 (fun l => fold_left (SFadd 24 128) l (S754_zero false))
    (binary_normalize 24 128 1 0 false)
    {| Loss.size := (1, 1, 1, 2);
       Loss.entries := [[[[binary_normalize 24 128 3 0 false;
                           binary_normalize 24 128 5 0 false]]]] |}
  = S754_nan.
Proof.
  apply (TVLoss_is_nan_on_one_row_or_one_column
           24 128 (fun l => fold_left (SFadd 24 128) l (S754_zero false))
           (binary_normalize 24 128 1 0 false)
           {| Loss.size := (1, 1, 1, 2);
              Loss.entries := [[[[binary_normalize 24 128 3 0 false;
                                  binary_normalize 24 128 5 0 false]]]] |}
           1 1 1 2 eq_refl eq_refl).
  - cbn. repeat (split || constructor).
  - left. reflexivity.
Defined.

(* ===================================================================== *)
(** * An input that cannot be opened *)
(* ===================================================================== *)


